(** * Grounding DINO / SAM2 / Gemma3 notebook: the glue code and its properties

    The notebook [grounding-sam2.ipynb] chains three pretrained models.  Its own
    logic is small: the conversion of the detector's normalised boxes
    to pixel corners, the size filter, the masked crop and the loop that
    writes the crops and later classifies every crop found on disk.

    This file embeds that logic:
    - [Float]: round-to-nearest-even binary floating point over [Q]
      (binary32 for torch tensors, binary64 for Python floats);
    - [NumPy]: basic slicing and [np.where] on nested lists;
    - [Str], [Path]: the string functions behind the artifact names,
      [os.path.splitext], the [glob] pattern, and the way the operating
      system resolves a relative path;
    - the notebook cells themselves, passing the file system explicitly. *)

From Stdlib Require Import ZArith QArith Qround Qpower Lia Lqa Ascii String.
From stdpp Require Import gmap strings list fin_maps pretty.

(** * Binary floating point

    A finite float is a rational number.  An arithmetic operation of the
    machine is the exact operation followed by [round_float]: rounding to
    the nearest value with [prec] significant bits whose exponent is at
    least [emin], ties to the even mantissa.  The exponent is not bounded
    above: no quantity of the notebook comes near the overflow threshold
    (box components are at most 1 and array sides are below 2^63). *)

Module Float.
Local Open Scope Q_scope.

Definition pow2 (e : Z) : Q := Qpower 2 e.

(** The binary exponent of a positive rational: the [e] with
    [2^e <= q < 2^(e+1)]. *)
Definition Qilog2 (q : Q) : Z :=
  let k := (Z.log2 (Qnum q) - Z.log2 (Zpos (Qden q)))%Z in
  if Qle_bool (pow2 k) q then k else (k - 1)%Z.

(** The nearest integer, a tie going to the even one. *)
Definition Qround_ne (q : Q) : Z :=
  let f := Qfloor q in
  match Qcompare (q - inject_Z f) (1 # 2) with
  | Lt => f
  | Gt => (f + 1)%Z
  | Eq => if Z.even f then f else (f + 1)%Z
  end.

(** The exponent of the unit in the last place of a positive [q]:
    [prec] bits below its leading bit, but never below [emin]
    (the subnormal range). *)
Definition fexp (prec emin : Z) (q : Q) : Z :=
  Z.max (Qilog2 q - (prec - 1)) emin.

(** A positive [q] rounded to a multiple of its unit in the last place. *)
Definition round_pos (prec emin : Z) (q : Q) : Q :=
  let e := fexp prec emin q in
  inject_Z (Qround_ne (q / pow2 e)) * pow2 e.

Definition round_float (prec emin : Z) (q : Q) : Q :=
  match Qcompare q 0 with
  | Eq => 0
  | Gt => round_pos prec emin q
  | Lt => - round_pos prec emin (- q)
  end.

(** Conversion of a float to an integer: truncation toward zero. *)
Definition Qtrunc (q : Q) : Z :=
  if Qle_bool 0 q then Qfloor q else Qceiling q.

(** The two formats of the notebook: torch's default tensor type and
    Python's [float]. *)
Definition binary32 : Q -> Q := round_float 24 (-149).
Definition binary64 : Q -> Q := round_float 53 (-1074).

Definition Qlt_bool (x y : Q) : bool := negb (Qle_bool y x).

End Float.

(** * NumPy arrays as nested lists *)

Module NumPy.
Local Open Scope Z_scope.

(** One bound of [a[start:stop]] on an axis of length [n]: a negative
    bound counts from the end, and the result is clamped to [0, n]. *)
Definition slice_bound (n i : Z) : Z :=
  if i <? 0 then Z.max (i + n) 0 else Z.min i n.

Definition slice_len (n start stop : Z) : Z :=
  Z.max (slice_bound n stop - slice_bound n start) 0.

(** [a[start:stop]] *)
Definition slice {A} (start stop : Z) (a : list A) : list A :=
  let n := Z.of_nat (length a) in
  take (Z.to_nat (slice_len n start stop)) (drop (Z.to_nat (slice_bound n start)) a).

(** [a[y1:y2, x1:x2]] *)
Definition slice2 {A} (y1 y2 x1 x2 : Z) (a : list (list A)) : list (list A) :=
  map (slice x1 x2) (slice y1 y2 a).

(** [a[i, j]] *)
Definition at2 {A} (a : list (list A)) (i j : nat) : option A :=
  match a !! i with
  | Some row => row !! j
  | None => None
  end.

(** [a.shape[:2] == (h, w)] *)
Definition is_shape {A} (h w : nat) (a : list (list A)) : bool :=
  Nat.eqb (length a) h && forallb (fun r => Nat.eqb (length r) w) a.

(** [np.expand_dims(a, -1)] on a two-dimensional array *)
Definition expand_dims_last {A} (a : list (list A)) : list (list (list A)) :=
  map (map (fun v => [v])) a.

(** [a * k] on a float32 array *)
Definition mul_scalar (a : list (list Q)) (k : Q) : list (list Q) :=
  map (map (fun v => Float.binary32 (v * k)%Q)) a.

Definition truthy (v : Q) : bool := negb (Qeq_bool v 0).

Fixpoint zip_with_shape {A B C} (f : A -> B -> option C) (l : list A) (k : list B)
  : option (list C) :=
  match l, k with
  | [], [] => Some []
  | a :: l', b :: k' =>
      match f a b, zip_with_shape f l' k' with
      | Some c, Some r => Some (c :: r)
      | _, _ => None
      end
  | _, _ => None
  end.

(** One position of [np.where(cond, x, 0)]: the condition has a last axis
    of length 1, broadcast over the channels of [x]. *)
Definition where_pixel (c : list Q) (px : list Z) : option (list Z) :=
  match c with
  | [v] => Some (map (fun u => if truthy v then u else 0) px)
  | _ => None
  end.

(** [np.where(cond, x, 0)] for [cond] of shape (H, W, 1) and [x] of shape
    (H, W, C).  [None] is the ValueError of operands that cannot be
    broadcast together.  (NumPy would also stretch a first or second axis
    of length 1; the segmenter returns masks of the image's own shape.) *)
Definition where0 (cond : list (list (list Q))) (x : list (list (list Z)))
  : option (list (list (list Z))) :=
  zip_with_shape (zip_with_shape where_pixel) cond x.

End NumPy.

(** * Strings and paths *)

Module Str.

Fixpoint contains (c : ascii) (s : string) : bool :=
  match s with
  | EmptyString => false
  | String a r => Ascii.eqb a c || contains c r
  end.

Fixpoint strip_prefix (p s : string) : option string :=
  match p, s with
  | EmptyString, _ => Some s
  | String a p', String b s' => if Ascii.eqb a b then strip_prefix p' s' else None
  | String _ _, EmptyString => None
  end.

Fixpoint endswith (suffix s : string) : bool :=
  String.eqb s suffix ||
  match s with
  | EmptyString => false
  | String _ r => endswith suffix r
  end.

Fixpoint rfind_from (c : ascii) (s : string) (i last : Z) : Z :=
  match s with
  | EmptyString => last
  | String a r => rfind_from c r (i + 1) (if Ascii.eqb a c then i else last)
  end.

(** [s.rfind(c)]: the last index of [c], or -1. *)
Definition rfind (c : ascii) (s : string) : Z := rfind_from c s 0 (-1).

(** [s[i:j]] for [0 <= i <= j] *)
Definition between (i j : Z) (s : string) : string :=
  substring (Z.to_nat i) (Z.to_nat (j - i)) s.

Fixpoint all_chars (c : ascii) (s : string) : bool :=
  match s with
  | EmptyString => true
  | String a r => Ascii.eqb a c && all_chars c r
  end.

(** [s.split('/')]: the parts of a path between its slashes *)
Fixpoint split_slash (s : string) : list string :=
  match s with
  | EmptyString => [EmptyString]
  | String c r =>
      if Ascii.eqb c "/" then EmptyString :: split_slash r
      else match split_slash r with
           | x :: l => String c x :: l
           | [] => [String c EmptyString]
           end
  end.

(** ['/'.join(l)] *)
Fixpoint join_slash (l : list string) : string :=
  match l with
  | [] => EmptyString
  | [x] => x
  | x :: r => x +:+ "/" +:+ join_slash r
  end.

End Str.

Module Path.
Import Str.
Local Open Scope Z_scope.

(** [os.path.splitext] (posixpath): the extension starts at the last dot
    of the last component, leading dots of that component apart. *)
Definition splitext (p : string) : string * string :=
  let sepIndex := rfind "/" p in
  let dotIndex := rfind "." p in
  if sepIndex <? dotIndex then
    if all_chars "." (between (sepIndex + 1) dotIndex p)
    then (p, EmptyString)
    else (between 0 dotIndex p, between dotIndex (Z.of_nat (String.length p)) p)
  else (p, EmptyString).

(** The directory above [here], a directory given by the names that lead
    to it from the working directory: above the working directory itself
    the names are [..]. *)
Definition parent (here : list string) : list string :=
  match last here with
  | None => [".."]
  | Some name => if String.eqb name ".." then here ++ [".."] else removelast here
  end.

(** How the operating system follows the components of a relative path
    from the directory [here]: an empty component and [.] stay where they
    are, [..] goes to the parent, a name enters the subdirectory of that
    name, which has to be one of the directories [ds] (directories are
    named by their path from the working directory, without [.], [..] or
    doubled slashes).  [None]: a component is not an existing directory.
    There are no symbolic links. *)
Fixpoint walk (ds : gset string) (here : list string) (comps : list string)
  : option (list string) :=
  match comps with
  | [] => Some here
  | c :: rest =>
      if String.eqb c EmptyString || String.eqb c "." then walk ds here rest
      else if String.eqb c ".." then walk ds (parent here) rest
      else if decide (join_slash (here ++ [c]) ∈ ds)
           then walk ds (here ++ [c]) rest
           else None
  end.

(** A name that starts with a dot. *)
Definition is_hidden (name : string) : bool :=
  match name with
  | String "." _ => true
  | _ => false
  end.

(** The paths [glob.glob('tempdir/*.png')] matches: the entries of the
    directory [tempdir] whose name ends in [.png]; as for every pattern
    that does not itself start with a dot, names starting with a dot are
    left out. *)
Definition glob_tempdir_png (p : string) : bool :=
  match strip_prefix "tempdir/" p with
  | Some name => negb (contains "/" name) && negb (is_hidden name) && endswith ".png" name
  | None => false
  end.

End Path.

(** * The notebook's data *)

Import Float NumPy Str Path.

(** One row of the detector's [boxes]: cx, cy, w, h (float32). *)
Abbreviation box := (Q * Q * Q * Q)%type.

(** One row of [xyxy]: x1, y1, x2, y2 (int64). *)
Abbreviation bbox := (Z * Z * Z * Z)%type.

(** [image_source]: H x W x C, uint8. *)
Abbreviation image := (list (list (list Z))).

(** One mask of the segmenter: H x W, float32. *)
Abbreviation mask := (list (list Q)).

Definition height (a : image) : nat := length a.

Definition width (a : image) : nat :=
  match a with
  | [] => 0%nat
  | row :: _ => length row
  end.

(** * Box conversion cell *)

Section BoxArithmetic.

(** The rounding of the tensor arithmetic: [binary32] in the notebook. *)
Variable rnd : Q -> Q.

(** [torch.Tensor([a, b, c, d])] *)
Definition tensor4 (a b c d : Z) : box :=
  (rnd (inject_Z a), rnd (inject_Z b), rnd (inject_Z c), rnd (inject_Z d)).

(** [boxes * t], the row [t] broadcast over the rows of [boxes] *)
Definition mul_rows (boxes : list box) (t : box) : list box :=
  map (fun '(cx, cy, w, h) =>
         let '(t1, t2, t3, t4) := t in
         (rnd (cx * t1), rnd (cy * t2), rnd (w * t3), rnd (h * t4))%Q) boxes.

(** torchvision's [box_convert(boxes, in_fmt="cxcywh", out_fmt="xyxy")]:
    x1 = cx - 0.5 * w, y1 = cy - 0.5 * h, x2 = cx + 0.5 * w, y2 = cy + 0.5 * h *)
Definition box_convert_cxcywh_xyxy (boxes : list box) : list box :=
  map (fun '(cx, cy, w, h) =>
         (rnd (cx - rnd ((1 # 2) * w)), rnd (cy - rnd ((1 # 2) * h)),
          rnd (cx + rnd ((1 # 2) * w)), rnd (cy + rnd ((1 # 2) * h)))%Q) boxes.

(** [.numpy().astype(int)]: conversion to integers truncates toward zero *)
Definition astype_int (boxes : list box) : list bbox :=
  map (fun '(a, b, c, d) => (Qtrunc a, Qtrunc b, Qtrunc c, Qtrunc d)) boxes.

(** [boxes = boxes * torch.Tensor([w, h, w, h])] then
    [xyxy = box_convert(...).numpy().astype(int)] *)
Definition box_normalizer_with (w h : Z) (boxes : list box) : list bbox :=
  astype_int (box_convert_cxcywh_xyxy (mul_rows boxes (tensor4 w h w h))).

End BoxArithmetic.

Definition box_normalizer : Z -> Z -> list box -> list bbox :=
  box_normalizer_with binary32.

(** * Region filter *)

(** Arithmetic on NumPy's int64 wraps around. *)
Definition wrap64 (z : Z) : Z := ((z + 2 ^ 63) mod 2 ^ 64 - 2 ^ 63)%Z.

(** [(x2-x1)*(y2-y1)] *)
Definition box_area (b : bbox) : Z :=
  let '(x1, y1, x2, y2) := b in
  wrap64 (wrap64 (x2 - x1) * wrap64 (y2 - y1)).

(** [math.prod] *)
Definition math_prod (l : list Z) : Z := fold_left Z.mul l 1%Z.

(** The condition of the loop's [if]:
    [(x2-x1)*(y2-y1) < 0.25 * math.prod(image.size)].  The right-hand side
    is a Python float; the comparison converts the int64 area to float64. *)
Definition region_filter (size : list Z) (b : bbox) : bool :=
  Qlt_bool (binary64 (inject_Z (box_area b)))
           (binary64 ((1 # 4) * binary64 (inject_Z (math_prod size)))).

(** Modelled from the spec: [image] comes from the detector library's
    [load_image], which is not part of the notebook.  The spec reads
    [math.prod(image.size)] as the total pixel area of the source image:
    [image.size] is its (width, height). *)
Definition image_size (image_source : image) : list Z :=
  [Z.of_nat (width image_source); Z.of_nat (height image_source)].

(** * Crop compositor *)

(** [np.where(np.expand_dims(masks[0]*255, -1), image_source, 0)[y1:y2, x1:x2]] *)
Definition masked_object (image_source : image) (mask0 : mask) (b : bbox) : option image :=
  let '(x1, y1, x2, y2) := b in
  match where0 (expand_dims_last (mul_scalar mask0 255)) image_source with
  | Some a => Some (slice2 y1 y2 x1 x2 a)
  | None => None
  end.

(** * Files, external models and the cells that use them *)

Inductive exception : Type :=
  | ValueError
  | IndexError
  | OSError
  | FileNotFoundError
  | FileExistsError
  | Cv2Error.

(** The working directory: its subdirectories and its files, each under
    its path from the working directory as the operating system resolves
    it (no [.], no [..] inside, no doubled slash), and the boxes the
    segmenter has been asked about. *)
Record world : Type := World {
  dirs : gset string;
  files : gmap string (list Byte.byte);
  sam2_calls : list bbox
}.

(** The pretrained models and the image writer, each behind a function.
    - [sam2_predict img b]: the masks of
      [sam2_predictor.predict(box=b, multimask_output=False)] for the image
      bound by [set_image];
    - [png_save a]: the bytes [Image.fromarray(a).save(path)] writes for
      an array that has pixels, or [None] when the encoder raises;
    - [chat prompt img]: the answer of the chat model to [prompt] with the
      image file of content [img];
    - [imread img]: the array [cv2.imread] decodes from a file of content
      [img], or [None], which is what [cv2.imread] returns for a file that
      is not an image. *)
Record adapters : Type := Adapters {
  sam2_predict : image -> bbox -> list mask;
  png_save : image -> option (list Byte.byte);
  chat : string -> list Byte.byte -> string;
  imread : list Byte.byte -> option image
}.

Definition prompt : string :=
  "Analyze the provided image of packaging. Was this packaging used to contain milk or a milk-based product?  Answer in yes or no only.".

(** [os.makedirs(d, exist_ok=True)] for a directory of the working directory *)
Definition makedirs_exist_ok (d : string) (w : world) : exception + world :=
  if decide (d ∈ dom (files w)) then inl FileExistsError
  else inr {| dirs := {[d]} ∪ dirs w; files := files w; sam2_calls := sam2_calls w |}.

(** Writing the file named by a relative path that ends in a file name:
    the operating system follows the components before the last one, each
    of which must lead to an existing directory, and creates or replaces
    the file of the last name in the directory it reaches. *)
Definition write_file (path : string) (content : list Byte.byte) (w : world)
  : exception + world :=
  let comps := split_slash path in
  match walk (dirs w) [] (removelast comps) with
  | Some d =>
      inr {| dirs := dirs w;
             files := <[join_slash (d ++ [List.last comps EmptyString]) := content]> (files w);
             sam2_calls := sam2_calls w |}
  | None => inl FileNotFoundError
  end.

(** [f'tempdir/{os.path.splitext(IMAGE_PATH)[0]}_{idx}.png'] *)
Definition image_path (IMAGE_PATH : string) (idx : nat) : string :=
  "tempdir/" +:+ (splitext IMAGE_PATH).1 +:+ "_" +:+ pretty idx +:+ ".png".

(** An array of zero rows or zero columns. *)
Definition no_pixel {A} (a : list (list A)) : bool :=
  match concat a with
  | [] => true
  | _ :: _ => false
  end.

(** [Image.fromarray(np.where(...)[y1:y2, x1:x2])] followed by
    [masked_object.save(image_path)].  Pillow does not make a file of an
    array without pixels: it raises ValueError, before anything is
    written. *)
Definition crop_and_save (M : adapters) (IMAGE_PATH : string) (image_source : image)
    (mask0 : mask) (idx : nat) (b : bbox) (w : world) : exception + world :=
  match masked_object image_source mask0 b with
  | None => inl ValueError
  | Some crop =>
      if no_pixel crop then inl ValueError
      else
        match png_save M crop with
        | None => inl OSError
        | Some content => write_file (image_path IMAGE_PATH idx) content w
        end
  end.

(** The body of [for idx, bbox in enumerate(xyxy)] *)
Definition detection_step (M : adapters) (IMAGE_PATH : string) (image_source : image)
    (idx : nat) (b : bbox) (w : world) : exception + world :=
  if region_filter (image_size image_source) b then
    let masks := sam2_predict M image_source b in
    let w1 := {| dirs := dirs w; files := files w; sam2_calls := sam2_calls w ++ [b] |} in
    match masks !! 0%nat with
    | None => inl IndexError
    | Some mask0 => crop_and_save M IMAGE_PATH image_source mask0 idx b w1
    end
  else inr w.

Fixpoint detection_loop (M : adapters) (IMAGE_PATH : string) (image_source : image)
    (idx : nat) (xyxy : list bbox) (w : world) : exception + world :=
  match xyxy with
  | [] => inr w
  | b :: rest =>
      match detection_step M IMAGE_PATH image_source idx b w with
      | inl e => inl e
      | inr w' => detection_loop M IMAGE_PATH image_source (S idx) rest w'
      end
  end.

(** The cell that creates [tempdir] and converts the boxes *)
Definition convert_cell (image_source : image) (boxes : list box) (w : world)
  : exception + (list bbox * world) :=
  match makedirs_exist_ok "tempdir" w with
  | inl e => inl e
  | inr w' =>
      inr (box_normalizer (Z.of_nat (width image_source))
             (Z.of_nat (height image_source)) boxes, w')
  end.

(** [glob.glob('tempdir/*.png')] *)
Definition glob_png (w : world) : list string :=
  filter (fun p => glob_tempdir_png p = true) (map fst (map_to_list (files w))).

(** The classification cell, path by path: the chat call, then
    [cv2.imread] and [cv2.cvtColor], which raises [cv2.error] when
    [cv2.imread] has returned [None], then the display of the decoded
    image, then the printed answer.  The result is the list of the
    printed answers, or the exception that ends the cell. *)
Fixpoint classify_loop (M : adapters) (w : world) (images : list string)
  : exception + list (string * string) :=
  match images with
  | [] => inr []
  | path :: rest =>
      match files w !! path with
      | None => inl FileNotFoundError
      | Some content =>
          let response := chat M prompt content in
          match imread M content with
          | None => inl Cv2Error
          | Some _ =>
              match classify_loop M w rest with
              | inl e => inl e
              | inr answers => inr ((path, response) :: answers)
              end
          end
      end
  end.

Definition classify_cell (M : adapters) (w : world) : exception + list (string * string) :=
  classify_loop M w (glob_png w).

(** The cells in the order of the notebook. *)
Definition notebook (M : adapters) (IMAGE_PATH : string) (image_source : image)
    (boxes : list box) (w : world) : exception + (list (string * string) * world) :=
  match convert_cell image_source boxes w with
  | inl e => inl e
  | inr (xyxy, w1) =>
      match detection_loop M IMAGE_PATH image_source 0 xyxy w1 with
      | inl e => inl e
      | inr w2 =>
          match classify_cell M w2 with
          | inl e => inl e
          | inr answers => inr (answers, w2)
          end
      end
  end.

(** * The formulas of the specification *)

(** The Pixel Box as the specification words it, in exact arithmetic:
    x1 = (cx - w/2) * W, y1 = (cy - h/2) * H, x2 = (cx + w/2) * W,
    y2 = (cy + h/2) * H, each truncated toward zero. *)
Definition pixel_box_exact (W H : Z) (b : box) : bbox :=
  let '(cx, cy, w, h) := b in
  (Qtrunc ((cx - w / 2) * inject_Z W), Qtrunc ((cy - h / 2) * inject_Z H),
   Qtrunc ((cx + w / 2) * inject_Z W), Qtrunc ((cy + h / 2) * inject_Z H))%Q.

(** The same formula evaluated as written in float32, every operation
    rounded. *)
Definition pixel_box_formula32 (W H : Z) (b : box) : bbox :=
  let '(cx, cy, w, h) := b in
  let r := binary32 in
  (Qtrunc (r (r (cx - r (w / 2)) * r (inject_Z W))),
   Qtrunc (r (r (cy - r (h / 2)) * r (inject_Z H))),
   Qtrunc (r (r (cx + r (w / 2)) * r (inject_Z W))),
   Qtrunc (r (r (cy + r (h / 2)) * r (inject_Z H))))%Q.

(** The formula in the order of the cell: the components are scaled to
    pixels first, the half extent is taken off and added afterwards. *)
Definition pixel_box_rounded (rnd : Q -> Q) (W H : Z) (b : box) : bbox :=
  let '(cx, cy, w, h) := b in
  (Qtrunc (rnd (rnd (cx * rnd (inject_Z W)) - rnd ((1 # 2) * rnd (w * rnd (inject_Z W))))),
   Qtrunc (rnd (rnd (cy * rnd (inject_Z H)) - rnd ((1 # 2) * rnd (h * rnd (inject_Z H))))),
   Qtrunc (rnd (rnd (cx * rnd (inject_Z W)) + rnd ((1 # 2) * rnd (w * rnd (inject_Z W))))),
   Qtrunc (rnd (rnd (cy * rnd (inject_Z H)) + rnd ((1 # 2) * rnd (h * rnd (inject_Z H))))))%Q.

(** A normalized box: every component in [0, 1]. *)
Definition normalized (b : box) : Prop :=
  let '(cx, cy, w, h) := b in
  (0 <= cx <= 1 /\ 0 <= cy <= 1 /\ 0 <= w <= 1 /\ 0 <= h <= 1)%Q.

(** The sides of a Pixel Box are short enough for its int64 area and the
    float64 comparison to be exact. *)
Definition exact_sides (p : bbox) : Prop :=
  let '(x1, y1, x2, y2) := p in
  (Z.abs (x2 - x1) < 2 ^ 26 /\ Z.abs (y2 - y1) < 2 ^ 26)%Z.

(** A mask is binary when its entries are 0 or 1. *)
Definition is_binary (m : mask) : bool :=
  forallb (forallb (fun v => Qeq_bool v 0 || Qeq_bool v 1)) m.

(** The pixel rule of the compositor: the source pixel under a nonzero
    mask entry, black elsewhere. *)
Definition composited_pixel (v : Q) (px : list Z) : list Z :=
  if Qeq_bool v 0 then map (fun _ => 0%Z) px else px.

(** The column range of a box clipped to an axis of length [n]. *)
Definition clipped_len (n lo hi : Z) : Z :=
  Z.max (Z.min hi n - Z.max lo 0) 0.

(** What the pipeline writes for one box, when every step returns. *)
Definition crop_content (M : adapters) (image_source : image) (b : bbox)
  : option (list Byte.byte) :=
  match sam2_predict M image_source b !! 0%nat with
  | None => None
  | Some mask0 =>
      match masked_object image_source mask0 b with
      | None => None
      | Some crop => if no_pixel crop then None else png_save M crop
      end
  end.

(** The files after the loop, box by box. *)
Fixpoint written_files (M : adapters) (IMAGE_PATH : string) (image_source : image)
    (idx : nat) (xyxy : list bbox) (fs : gmap string (list Byte.byte))
  : gmap string (list Byte.byte) :=
  match xyxy with
  | [] => fs
  | b :: rest =>
      written_files M IMAGE_PATH image_source (S idx) rest
        (if region_filter (image_size image_source) b
         then match crop_content M image_source b with
              | Some content => <[image_path IMAGE_PATH idx := content]> fs
              | None => fs
              end
         else fs)
  end.

Definition retained (image_source : image) (xyxy : list bbox) : list bbox :=
  filter (fun b => region_filter (image_size image_source) b = true) xyxy.

(** The segmenter answers: one mask of the image's shape for every box. *)
Definition segmenter_responds (M : adapters) (image_source : image) : Prop :=
  forall b, exists mask0,
    sam2_predict M image_source b = [mask0] /\
    is_shape (height image_source) (width image_source) mask0 = true.

(** The image writer encodes every array of [h] rows and [w] columns. *)
Definition writer_accepts (M : adapters) (h w : nat) : Prop :=
  forall a, is_shape h w a = true -> is_Some (png_save M a).

(** The image reader decodes what the image writer has encoded. *)
Definition reader_decodes_writer (M : adapters) : Prop :=
  forall a content, png_save M a = Some content -> is_Some (imread M content).

(** Every file the classification cell would list decodes as an image. *)
Definition listed_files_decode (M : adapters) (w : world) : Prop :=
  forall p content,
    p ∈ glob_png w -> files w !! p = Some content -> is_Some (imread M content).

(** The directory part in front of a file name: nothing, or a path that
    ends with a slash. *)
Definition is_prefix_dir (d : string) : Prop :=
  d = EmptyString \/ exists d', d = d' +:+ "/".

(** A source image named by a file of the working directory. *)
Definition plain_name (p : string) : bool :=
  negb (contains "/" p) && negb (is_hidden p).

(** * Sample data for the scenarios *)

(** A row of the detector's tensor: the float32 values nearest to the
    given numbers. *)
Definition tensor_row (cx cy w h : Q) : box :=
  (binary32 cx, binary32 cy, binary32 w, binary32 h).

Definition uniform_image (h w : nat) (px : list Z) : image := repeat (repeat px w) h.

Definition full_mask (h w : nat) : mask := repeat (repeat 1%Q w) h.

Definition raw_bytes (a : image) : list Byte.byte :=
  map (fun v => default Byte.x00 (Byte.of_N (Z.to_N (v mod 256)))) (concat (concat a)).

(** The eight bytes every PNG file starts with. *)
Definition png_signature : list Byte.byte :=
  [Byte.x89; Byte.x50; Byte.x4e; Byte.x47; Byte.x0d; Byte.x0a; Byte.x1a; Byte.x0a].

(** An image writer that encodes every array it is given: the signature,
    then the bytes of the pixels. *)
Definition lenient_save (a : image) : option (list Byte.byte) :=
  Some (png_signature ++ raw_bytes a).

(** An image reader that takes a file for an image when it starts with
    the PNG signature. *)
Definition signature_imread (content : list Byte.byte) : option image :=
  if decide (map Byte.to_N (take 8 content) = map Byte.to_N png_signature)
  then Some [[[0; 0; 0]%Z]] else None.

Definition sample_models (save : image -> option (list Byte.byte)) : adapters :=
  {| sam2_predict := fun img _ => [full_mask (height img) (width img)];
     png_save := save;
     chat := fun _ content => if decide (content = []) then "no" else "yes";
     imread := signature_imread |}.

Definition empty_world : world := {| dirs := ∅; files := ∅; sam2_calls := [] |}.

(** A PNG file of one pixel, of colour (10, 20, 30). *)
Definition one_pixel_png : list Byte.byte :=
  png_signature ++
  [Byte.x00; Byte.x00; Byte.x00; Byte.x0d; Byte.x49; Byte.x48; Byte.x44; Byte.x52;
   Byte.x00; Byte.x00; Byte.x00; Byte.x01; Byte.x00; Byte.x00; Byte.x00; Byte.x01;
   Byte.x08; Byte.x02; Byte.x00; Byte.x00; Byte.x00; Byte.x90; Byte.x77; Byte.x53;
   Byte.xde; Byte.x00; Byte.x00; Byte.x00; Byte.x0c; Byte.x49; Byte.x44; Byte.x41;
   Byte.x54; Byte.x78; Byte.x9c; Byte.x63; Byte.xe0; Byte.x12; Byte.x91; Byte.x03;
   Byte.x00; Byte.x00; Byte.x68; Byte.x00; Byte.x3d; Byte.x54; Byte.x08; Byte.xa3;
   Byte.xf7; Byte.x00; Byte.x00; Byte.x00; Byte.x00; Byte.x49; Byte.x45; Byte.x4e;
   Byte.x44; Byte.xae; Byte.x42; Byte.x60; Byte.x82].

(** The directory as an earlier run over another image left it. *)
Definition stale_world : world :=
  {| dirs := {["tempdir"]};
     files := {["tempdir/IMG_0001_4.png" := one_pixel_png]};
     sam2_calls := [] |}.

(** The image path of the notebook. *)
Definition IMAGE_PATH : string := "IMG_6509.png".

(** * The loop, with the state an exception leaves behind

    [detection_step] and [detection_loop] return the exception alone when
    a step raises.  In the notebook the working directory stays as the
    steps before the exception left it; the two functions below return
    that state together with the exception. *)

Definition detection_step_state (M : adapters) (IMAGE_PATH : string) (image_source : image)
    (idx : nat) (b : bbox) (w : world) : world * option exception :=
  if region_filter (image_size image_source) b then
    let w1 := {| dirs := dirs w; files := files w; sam2_calls := sam2_calls w ++ [b] |} in
    match sam2_predict M image_source b !! 0%nat with
    | None => (w1, Some IndexError)
    | Some mask0 =>
        match crop_and_save M IMAGE_PATH image_source mask0 idx b w1 with
        | inr w2 => (w2, None)
        | inl e => (w1, Some e)
        end
    end
  else (w, None).

Fixpoint detection_loop_state (M : adapters) (IMAGE_PATH : string) (image_source : image)
    (idx : nat) (xyxy : list bbox) (w : world) : world * option exception :=
  match xyxy with
  | [] => (w, None)
  | b :: rest =>
      match detection_step_state M IMAGE_PATH image_source idx b w with
      | (w', None) => detection_loop_state M IMAGE_PATH image_source (S idx) rest w'
      | (w', Some e) => (w', Some e)
      end
  end.

(** The artifact paths of the boxes that pass the filter, in the order of
    the loop. *)
Fixpoint retained_paths (IMAGE_PATH : string) (image_source : image)
    (idx : nat) (xyxy : list bbox) : list string :=
  match xyxy with
  | [] => []
  | b :: rest =>
      if region_filter (image_size image_source) b
      then image_path IMAGE_PATH idx :: retained_paths IMAGE_PATH image_source (S idx) rest
      else retained_paths IMAGE_PATH image_source (S idx) rest
  end.

(** A Pixel Box that reaches at most half an image size beyond the image
    on the near sides and on the far sides. *)
Definition within_half_image (W H : Z) (p : bbox) : Prop :=
  let '(x1, y1, x2, y2) := p in
  (- W <= 2 * x1 /\ x1 <= W /\ 0 <= x2 /\ 2 * x2 <= 3 * W /\
   - H <= 2 * y1 /\ y1 <= H /\ 0 <= y2 /\ 2 * y2 <= 3 * H)%Z.

(** * The Utils cell: what the plotting helpers draw *)

Module Utils.

(** The calls on matplotlib, in the order they are made. *)
Inductive draw : Type :=
  | Plt_figure                                          (* plt.figure(figsize=(10, 10)) *)
  | Plt_imshow (img : image)                            (* plt.imshow(image) *)
  | Ax_imshow (mask_image : list (list (list Q)))       (* ax.imshow(mask_image) *)
  | Ax_scatter (xs ys : list Q) (color : string) (s : Q)
      (* ax.scatter(xs, ys, color=color, marker='*', s=s, edgecolor='white', linewidth=1.25) *)
  | Ax_add_patch_Rectangle (x0 y0 w h : Z)
      (* ax.add_patch(plt.Rectangle((x0, y0), w, h, edgecolor='green', facecolor=(0, 0, 0, 0), lw=2)) *)
  | Plt_title (text : string)                           (* plt.title(text, fontsize=18) *)
  | Plt_axis_off                                        (* plt.axis('off') *)
  | Plt_show.                                           (* plt.show() *)

(** The exceptions of the helpers: the failed [assert] of [show_masks] and
    the exceptions of the array operations. *)
Inductive error : Type :=
  | AssertionError
  | Raised (e : exception).

(** A helper draws, and then returns or raises; what it has drawn before
    an exception stays drawn. *)
Definition plot (A : Type) : Type := (list draw * (error + A))%type.

#[global] Instance plot_ret : MRet plot := fun A a => ([], inr a).

#[global] Instance plot_bind : MBind plot := fun A B k m =>
  match m with
  | (t, inl e) => (t, inl e)
  | (t, inr a) => let '(t', r) := k a in (t ++ t', r)
  end.

Definition emit (d : draw) : plot unit := ([d], inr tt).

Definition raise {A} (e : error) : plot A := ([], inl e).

(** cv2 and the random generator, each behind a function:
    - [draw_contours binary_mask mask_image]: the array
      [cv2.drawContours(mask_image, contours, -1, (1, 1, 1, 0.5), thickness=2)]
      returns for the smoothed contours [cv2.findContours] and
      [cv2.approxPolyDP] find in [binary_mask], or [None] when one of the
      three calls raises [cv2.error];
    - [random3]: the three numbers of [np.random.random(3)]. *)
Record helpers : Type := Helpers {
  draw_contours : list (list Z) -> list (list (list Q)) -> option (list (list (list Q)));
  random3 : Q * Q * Q
}.

(** [imshow] of an array of three dimensions: matplotlib takes the minimum
    of the array, which raises ValueError for an array without pixels;
    nothing is drawn then. *)
Definition ax_imshow (a : list (list (list Q))) : plot unit :=
  if no_pixel a then raise (Raised ValueError) else emit (Ax_imshow a).

Definition plt_imshow (img : image) : plot unit :=
  if no_pixel img then raise (Raised ValueError) else emit (Plt_imshow img).

(** [astype(np.uint8)] on a float: truncation toward zero, modulo 256.
    (Outside of [0, 256) the conversion is not defined by C; the facts
    below are about values inside.) *)
Definition astype_uint8 (v : Q) : Z := (Qtrunc v mod 256)%Z.

(** [np.array([30/255, 144/255, 255/255, 0.6])] *)
Definition default_color : list Q :=
  [binary64 (30 # 255); binary64 (144 # 255); binary64 (255 # 255); binary64 (6 # 10)].

(** [show_mask(mask, ax, random_color, borders)] for a mask of two
    dimensions *)
Definition show_mask (cv : helpers) (mask0 : mask) (random_color borders : bool) : plot unit :=
  let color :=
    if random_color
    then (let '(r, g, b) := random3 cv in [r; g; b; binary64 (6 # 10)])
    else default_color in
  let binary_mask := map (map astype_uint8) mask0 in
  let mask_image :=
    map (map (fun b => map (fun c => binary64 (inject_Z b * c)) color)) binary_mask in
  mask_image ←
    (if borders
     then match draw_contours cv binary_mask mask_image with
          | Some drawn => mret drawn
          | None => raise (Raised Cv2Error)
          end
     else mret mask_image);
  ax_imshow mask_image.

(** [a[m]] for a boolean array [m]: the entries of [a] where [m] is true;
    the two lengths must agree. *)
Definition bool_index {A} (a : list A) (m : list bool) : plot (list A) :=
  if Nat.eqb (length a) (length m)
  then mret (map fst (List.filter snd (zip a m)))
  else raise (Raised IndexError).

(** [show_points(coords, labels, ax, marker_size)] for [coords] of shape
    (N, 2) *)
Definition show_points (coords : list (Q * Q)) (labels : list Z) (marker_size : Q)
  : plot unit :=
  pos_points ← bool_index coords (map (fun l => Z.eqb l 1) labels);
  neg_points ← bool_index coords (map (fun l => Z.eqb l 0) labels);
  emit (Ax_scatter (map fst pos_points) (map snd pos_points) "green" marker_size);;
  emit (Ax_scatter (map fst neg_points) (map snd neg_points) "red" marker_size).

(** [show_box(box, ax)] for a row of [xyxy] *)
Definition show_box (box : bbox) : plot unit :=
  let '(b0, b1, b2, b3) := box in
  let x0 := b0 in
  let y0 := b1 in
  let w := wrap64 (b2 - b0) in
  let h := wrap64 (b3 - b1) in
  emit (Ax_add_patch_Rectangle x0 y0 w h).

(** The three digits after the point. *)
Definition pad3 (n : Z) : string :=
  if (n <? 10)%Z then "00" +:+ pretty n
  else if (n <? 100)%Z then "0" +:+ pretty n
  else pretty n.

(** [f"{score:.3f}"]: the decimal with three digits after the point that
    is nearest to the number, ties to the even one. *)
Definition format_3f (q : Q) : string :=
  let n := Qround_ne ((if Qlt_bool q 0 then - q else q) * 1000)%Q in
  (if Qlt_bool q 0 then "-" else EmptyString)
    +:+ pretty (n / 1000)%Z +:+ "." +:+ pad3 (n mod 1000)%Z.

(** [f"Mask {i+1}, Score: {score:.3f}"] *)
Definition title (i : nat) (score : Q) : string :=
  "Mask " +:+ pretty (i + 1)%nat +:+ ", Score: " +:+ format_3f score.

(** The body of the loop of [show_masks] from the i-th pair of
    [zip(masks, scores)] on; [n_scores] is [len(scores)]. *)
Fixpoint show_masks_from (cv : helpers) (img : image) (n_scores : nat)
    (point_coords : option (list (Q * Q))) (box_coords : option bbox)
    (input_labels : option (list Z)) (borders : bool)
    (i : nat) (pairs : list (mask * Q)) : plot unit :=
  match pairs with
  | [] => mret tt
  | (mask0, score) :: rest =>
      emit Plt_figure;;
      plt_imshow img;;
      show_mask cv mask0 false borders;;
      match point_coords with
      | Some coords =>
          match input_labels with
          | Some labels => show_points coords labels 375
          | None => raise AssertionError
          end
      | None => mret tt
      end;;
      match box_coords with
      | Some box => show_box box
      | None => mret tt
      end;;
      (if (1 <? n_scores)%nat then emit (Plt_title (title i score)) else mret tt);;
      emit Plt_axis_off;;
      emit Plt_show;;
      show_masks_from cv img n_scores point_coords box_coords input_labels borders (S i) rest
  end.

(** [show_masks(image, masks, scores, point_coords, box_coords, input_labels, borders)] *)
Definition show_masks (cv : helpers) (img : image) (masks : list mask) (scores : list Q)
    (point_coords : option (list (Q * Q))) (box_coords : option bbox)
    (input_labels : option (list Z)) (borders : bool) : plot unit :=
  show_masks_from cv img (length scores) point_coords box_coords input_labels borders
    0 (zip masks scores).

(** What one pass of the loop draws when it has no points to show and
    nothing raises. *)
Definition frame (cv : helpers) (img : image) (n_scores : nat) (box_coords : option bbox)
    (borders : bool) (i : nat) (p : mask * Q) : list draw :=
  [Plt_figure; Plt_imshow img] ++ (show_mask cv p.1 false borders).1
  ++ match box_coords with
     | Some box => (show_box box).1
     | None => []
     end
  ++ (if (1 <? n_scores)%nat then [Plt_title (title i p.2)] else [])
  ++ [Plt_axis_off; Plt_show].

(** [cv2.drawContours] draws into the array it is given and returns it:
    the array returned has the pixels of the one passed. *)
Definition contours_drawn (cv : helpers) : Prop :=
  forall binary_mask mask_image,
    exists drawn, draw_contours cv binary_mask mask_image = Some drawn /\
                  no_pixel drawn = no_pixel mask_image.

Definition is_figure (d : draw) : bool :=
  match d with Plt_figure => true | _ => false end.

Definition is_show (d : draw) : bool :=
  match d with Plt_show => true | _ => false end.

Definition is_title (d : draw) : bool :=
  match d with Plt_title _ => true | _ => false end.

Definition is_rectangle (d : draw) : bool :=
  match d with Ax_add_patch_Rectangle _ _ _ _ => true | _ => false end.

(** How many of the calls in a trace are of one kind. *)
Definition count (p : draw -> bool) (t : list draw) : nat := length (List.filter p t).

End Utils.

Import Utils.

(** * The classification cell, with what it has printed

    [classify_loop] returns the exception alone when a step raises.  The
    function below returns the answers printed before the exception
    together with it. *)
Fixpoint classify_loop_state (M : adapters) (w : world) (images : list string)
  : list (string * string) * option exception :=
  match images with
  | [] => ([], None)
  | path :: rest =>
      match files w !! path with
      | None => ([], Some FileNotFoundError)
      | Some content =>
          let response := chat M prompt content in
          match imread M content with
          | None => ([], Some Cv2Error)
          | Some _ =>
              let '(answers, e) := classify_loop_state M w rest in
              ((path, response) :: answers, e)
          end
      end
  end.

(** * Facts about rounding *)

Section FloatFacts.
Local Open Scope Q_scope.

Lemma pow2_pos e : 0 < pow2 e.
Proof. apply Qpower_0_lt. reflexivity. Qed.

Lemma pow2_add a b : pow2 (a + b) == pow2 a * pow2 b.
Proof. apply Qpower_plus. discriminate. Qed.

Lemma pow2_le a b : (a <= b)%Z -> pow2 a <= pow2 b.
Proof. intros H. apply Qpower_le_compat_l; [exact H | discriminate]. Qed.

Lemma pow2_lt_inv a b : pow2 a < pow2 b -> (a < b)%Z.
Proof. intros H. apply (Qpower_lt_compat_l_inv 2); [exact H | reflexivity]. Qed.

Lemma pow2_inject n : (0 <= n)%Z -> inject_Z (2 ^ n) == pow2 n.
Proof. intros H. unfold pow2. rewrite Zpower_Qpower by exact H. reflexivity. Qed.

(** [Qilog2 q] is the binary order of magnitude of a positive [q]. *)
Lemma Qilog2_spec q : 0 < q -> pow2 (Qilog2 q) <= q < pow2 (Qilog2 q + 1).
Proof.
  intros Hq. destruct q as [n d]. unfold Qilog2. cbn [Qnum Qden].
  assert (Hn : (0 < n)%Z).
  { unfold Qlt in Hq. cbn in Hq. lia. }
  set (a := Z.log2 n). set (b := Z.log2 (Zpos d)).
  destruct (Z.log2_spec n Hn) as [Ha1 Ha2].
  destruct (Z.log2_spec (Zpos d) (Pos2Z.is_pos d)) as [Hb1 Hb2].
  fold a in Ha1, Ha2. fold b in Hb1, Hb2.
  assert (Ha0 : (0 <= a)%Z) by apply Z.log2_nonneg.
  assert (Hb0 : (0 <= b)%Z) by apply Z.log2_nonneg.
  assert (Hqd : n # d == inject_Z n / inject_Z (Zpos d)) by apply Qmake_Qdiv.
  assert (Hd : 0 < inject_Z (Zpos d)) by (unfold Qlt; cbn; lia).
  assert (Ha1q : pow2 a <= inject_Z n).
  { rewrite <- pow2_inject by lia. rewrite <- Zle_Qle. exact Ha1. }
  assert (Ha2q : inject_Z n < pow2 (a + 1)).
  { rewrite <- pow2_inject by lia. rewrite <- Zlt_Qlt. replace (a + 1)%Z with (Z.succ a) by lia. exact Ha2. }
  assert (Hb1q : pow2 b <= inject_Z (Zpos d)).
  { rewrite <- pow2_inject by lia. rewrite <- Zle_Qle. exact Hb1. }
  assert (Hb2q : inject_Z (Zpos d) < pow2 (b + 1)).
  { rewrite <- pow2_inject by lia. rewrite <- Zlt_Qlt. replace (b + 1)%Z with (Z.succ b) by lia. exact Hb2. }
  assert (Hup : n # d < pow2 (a - b + 1)).
  { rewrite Hqd. apply Qlt_shift_div_r; [exact Hd|].
    apply Qlt_le_trans with (pow2 (a + 1)); [exact Ha2q|].
    replace (a + 1)%Z with ((a - b + 1) + b)%Z by ring. rewrite pow2_add.
    apply Qmult_le_l; [apply pow2_pos | exact Hb1q]. }
  assert (Hlo : pow2 (a - b - 1) <= n # d).
  { rewrite Hqd. apply Qle_shift_div_l; [exact Hd|].
    apply Qle_trans with (pow2 (a - b - 1) * pow2 (b + 1)).
    - apply Qmult_le_l; [apply pow2_pos | apply Qlt_le_weak; exact Hb2q].
    - rewrite <- pow2_add. replace (a - b - 1 + (b + 1))%Z with a by ring. exact Ha1q. }
  destruct (Qle_bool (pow2 (a - b)) (n # d)) eqn:E.
  - apply Qle_bool_iff in E. split; assumption.
  - split; [exact Hlo|]. replace (a - b - 1 + 1)%Z with (a - b)%Z by ring.
    apply Qnot_le_lt. intros C. apply Qle_bool_iff in C. congruence.
Qed.

Lemma Qilog2_unique q e : pow2 e <= q < pow2 (e + 1) -> Qilog2 q = e.
Proof.
  intros [H1 H2].
  assert (Hq : 0 < q) by (eapply Qlt_le_trans; [apply pow2_pos | exact H1]).
  destruct (Qilog2_spec q Hq) as [H3 H4].
  assert (Qilog2 q < e + 1)%Z.
  { apply pow2_lt_inv. eapply Qle_lt_trans; eassumption. }
  assert (e < Qilog2 q + 1)%Z.
  { apply pow2_lt_inv. eapply Qle_lt_trans; eassumption. }
  lia.
Qed.

Lemma Qilog2_le x y : 0 < x -> x <= y -> (Qilog2 x <= Qilog2 y)%Z.
Proof.
  intros Hx Hxy.
  assert (Hy : 0 < y) by (eapply Qlt_le_trans; eassumption).
  destruct (Qilog2_spec x Hx) as [H1 _]. destruct (Qilog2_spec y Hy) as [_ H2].
  assert (Qilog2 x < Qilog2 y + 1)%Z; [|lia].
  apply pow2_lt_inv. eapply Qle_lt_trans; [|exact H2].
  eapply Qle_trans; eassumption.
Qed.

Lemma Qilog2_eq x y : 0 < x -> x == y -> Qilog2 x = Qilog2 y.
Proof.
  intros Hx E. symmetry. apply Qilog2_unique.
  destruct (Qilog2_spec x Hx) as [H1 H2]. rewrite <- E. split; assumption.
Qed.

(** ** Rounding to the nearest integer, ties to even *)

Lemma Qround_ne_floor q : (Qfloor q <= Qround_ne q <= Qfloor q + 1)%Z.
Proof.
  unfold Qround_ne. destruct (Qcompare _ _); [destruct (Z.even _)| |]; lia.
Qed.

Lemma Qround_ne_Z n : Qround_ne (inject_Z n) = n.
Proof.
  unfold Qround_ne. rewrite Qfloor_Z.
  assert (E : inject_Z n - inject_Z n == 0) by ring.
  rewrite E. reflexivity.
Qed.

#[global] Instance Qround_ne_comp : Proper (Qeq ==> eq) Qround_ne.
Proof.
  intros x y E. unfold Qround_ne. rewrite (Qfloor_comp x y E).
  assert (E' : x - inject_Z (Qfloor y) == y - inject_Z (Qfloor y)) by (rewrite E; reflexivity).
  rewrite E'. reflexivity.
Qed.

Lemma Qround_ne_ge_Z n q : inject_Z n <= q -> (n <= Qround_ne q)%Z.
Proof.
  intros H. apply Qfloor_resp_le in H. rewrite Qfloor_Z in H.
  pose proof (Qround_ne_floor q). lia.
Qed.

Lemma Qround_ne_le_Z n q : q <= inject_Z n -> (Qround_ne q <= n)%Z.
Proof.
  intros H. pose proof (Qround_ne_floor q) as Hf.
  pose proof (Qfloor_resp_le _ _ H) as Hfl. rewrite Qfloor_Z in Hfl.
  destruct (Z.eq_dec (Qfloor q) n) as [E | NE]; [|lia].
  assert (Eq : q == inject_Z n).
  { apply Qle_antisym; [exact H|]. rewrite <- E. apply Qfloor_le. }
  rewrite Eq. rewrite Qround_ne_Z. lia.
Qed.

Lemma Qround_ne_mono x y : x <= y -> (Qround_ne x <= Qround_ne y)%Z.
Proof.
  intros H. pose proof (Qfloor_resp_le _ _ H) as Hf.
  pose proof (Qround_ne_floor x) as Hx. pose proof (Qround_ne_floor y) as Hy.
  destruct (Z.eq_dec (Qfloor x) (Qfloor y)) as [E | NE]; [|lia].
  unfold Qround_ne. rewrite E.
  destruct (Qcompare_spec (x - inject_Z (Qfloor y)) (1 # 2)) as [Cx | Cx | Cx];
    destruct (Qcompare_spec (y - inject_Z (Qfloor y)) (1 # 2)) as [Cy | Cy | Cy];
    try (destruct (Z.even (Qfloor y))); try lia; exfalso; lra.
Qed.

(** ** Rounding a rational to a binary floating-point format *)

Section Rounding.
Variables prec emin : Z.
Hypothesis prec_pos : (0 < prec)%Z.

Lemma pow2_neq0 e : ~ pow2 e == 0.
Proof. intros E. pose proof (pow2_pos e) as H. rewrite E in H. inversion H. Qed.

Lemma fexp_le x y : 0 < x -> x <= y -> (fexp prec emin x <= fexp prec emin y)%Z.
Proof. intros Hx Hxy. unfold fexp. pose proof (Qilog2_le x y Hx Hxy). lia. Qed.

Lemma round_pos_eq x y : 0 < x -> x == y -> round_pos prec emin x == round_pos prec emin y.
Proof.
  intros Hx E. unfold round_pos, fexp. rewrite (Qilog2_eq x y Hx E).
  rewrite E. reflexivity.
Qed.

Lemma round_pos_nonneg q : 0 < q -> 0 <= round_pos prec emin q.
Proof.
  intros Hq. unfold round_pos. apply Qmult_le_0_compat.
  - change 0 with (inject_Z 0). rewrite <- Zle_Qle. apply Qround_ne_ge_Z.
    apply Qle_shift_div_l; [apply pow2_pos|]. change (inject_Z 0) with 0.
    rewrite Qmult_0_l. apply Qlt_le_weak. exact Hq.
  - apply Qlt_le_weak, pow2_pos.
Qed.

(** A power of two that is a multiple of the unit in the last place
    separates what lies below it from what lies above it. *)
Lemma round_pos_le_pow2 q k :
  0 < q -> q <= pow2 k -> (fexp prec emin q <= k)%Z -> round_pos prec emin q <= pow2 k.
Proof.
  intros Hq Hle Hk. unfold round_pos. set (e := fexp prec emin q) in *.
  assert (E : pow2 k == inject_Z (2 ^ (k - e)) * pow2 e).
  { rewrite pow2_inject by lia. rewrite <- pow2_add. replace (k - e + e)%Z with k by ring. reflexivity. }
  rewrite E. apply Qmult_le_compat_r; [|apply Qlt_le_weak, pow2_pos].
  rewrite <- Zle_Qle. apply Qround_ne_le_Z.
  apply Qle_shift_div_r; [apply pow2_pos|]. rewrite <- E. exact Hle.
Qed.

Lemma round_pos_ge_pow2 q k :
  0 < q -> pow2 k <= q -> (fexp prec emin q <= k)%Z -> pow2 k <= round_pos prec emin q.
Proof.
  intros Hq Hle Hk. unfold round_pos. set (e := fexp prec emin q) in *.
  assert (E : pow2 k == inject_Z (2 ^ (k - e)) * pow2 e).
  { rewrite pow2_inject by lia. rewrite <- pow2_add. replace (k - e + e)%Z with k by ring. reflexivity. }
  rewrite E. apply Qmult_le_compat_r; [|apply Qlt_le_weak, pow2_pos].
  rewrite <- Zle_Qle. apply Qround_ne_ge_Z.
  apply Qle_shift_div_l; [apply pow2_pos|]. rewrite <- E. exact Hle.
Qed.

Lemma round_pos_mono x y :
  0 < x -> x <= y -> round_pos prec emin x <= round_pos prec emin y.
Proof.
  intros Hx Hxy.
  assert (Hy : 0 < y) by (eapply Qlt_le_trans; eassumption).
  pose proof (fexp_le x y Hx Hxy) as He.
  destruct (Z.eq_dec (fexp prec emin x) (fexp prec emin y)) as [E | NE].
  - unfold round_pos. rewrite E.
    apply Qmult_le_compat_r; [|apply Qlt_le_weak, pow2_pos].
    rewrite <- Zle_Qle. apply Qround_ne_mono.
    apply Qmult_le_compat_r; [exact Hxy|].
    apply Qlt_le_weak, Qinv_lt_0_compat, pow2_pos.
  - destruct (Qilog2_spec x Hx) as [_ Hx2]. destruct (Qilog2_spec y Hy) as [Hy1 _].
    assert (Hl : (Qilog2 x < Qilog2 y)%Z) by (unfold fexp in *; lia).
    apply Qle_trans with (pow2 (Qilog2 y)).
    + apply round_pos_le_pow2; [exact Hx | | unfold fexp in *; lia].
      apply Qlt_le_weak. eapply Qlt_le_trans; [exact Hx2|]. apply pow2_le. lia.
    + apply round_pos_ge_pow2; [exact Hy | exact Hy1 | unfold fexp in *; lia].
Qed.

Lemma round_float_nonneg q : 0 <= q -> 0 <= round_float prec emin q.
Proof.
  intros Hq. unfold round_float. destruct (Qcompare_spec q 0) as [E | L | G].
  - apply Qle_refl.
  - exfalso. lra.
  - apply round_pos_nonneg. exact G.
Qed.

Lemma round_float_nonpos q : q <= 0 -> round_float prec emin q <= 0.
Proof.
  intros Hq. unfold round_float. destruct (Qcompare_spec q 0) as [E | L | G].
  - apply Qle_refl.
  - assert (H : 0 <= round_pos prec emin (- q)) by (apply round_pos_nonneg; lra). lra.
  - exfalso. lra.
Qed.

Theorem round_float_mono x y :
  x <= y -> round_float prec emin x <= round_float prec emin y.
Proof.
  intros Hxy. destruct (Qlt_le_dec 0 x) as [Hx | Hx].
  - assert (Hy : 0 < y) by (eapply Qlt_le_trans; eassumption).
    unfold round_float.
    destruct (Qcompare_spec x 0) as [? | ? | _]; [exfalso; lra | exfalso; lra |].
    destruct (Qcompare_spec y 0) as [? | ? | _]; [exfalso; lra | exfalso; lra |].
    apply round_pos_mono; assumption.
  - destruct (Qlt_le_dec y 0) as [Hy | Hy].
    + unfold round_float.
      destruct (Qcompare_spec x 0) as [? | _ | ?]; [exfalso; lra | | exfalso; lra].
      destruct (Qcompare_spec y 0) as [? | _ | ?]; [exfalso; lra | | exfalso; lra].
      apply Qopp_le_compat. apply round_pos_mono; lra.
    + apply Qle_trans with 0; [apply round_float_nonpos | apply round_float_nonneg]; assumption.
Qed.

#[global] Instance round_float_comp : Proper (Qeq ==> Qeq) (round_float prec emin).
Proof.
  intros x y E. unfold round_float. rewrite <- E.
  destruct (Qcompare_spec x 0) as [_ | L | G].
  - reflexivity.
  - apply Qopp_comp. apply round_pos_eq; [lra | rewrite E; reflexivity].
  - apply round_pos_eq; assumption.
Qed.

Lemma round_float_opp q : round_float prec emin (- q) == - round_float prec emin q.
Proof.
  unfold round_float.
  destruct (Qcompare_spec q 0) as [E | L | G];
    destruct (Qcompare_spec (- q) 0) as [E' | L' | G']; try (exfalso; lra).
  - ring.
  - ring.
  - apply Qopp_comp. apply round_pos_eq; [lra | ring].
Qed.

(** Numbers [m * 2^e] with a mantissa of at most [prec] bits and an
    exponent in range are left unchanged: they are the format's values. *)
Lemma round_pos_exact m e :
  (0 < m < 2 ^ prec)%Z -> (emin <= e)%Z ->
  round_pos prec emin (inject_Z m * pow2 e) == inject_Z m * pow2 e.
Proof.
  intros [Hm1 Hm2] He. set (q := inject_Z m * pow2 e).
  assert (Hq : 0 < q).
  { apply Qmult_lt_0_compat; [|apply pow2_pos]. change 0 with (inject_Z 0). rewrite <- Zlt_Qlt. exact Hm1. }
  destruct (Qilog2_spec q Hq) as [Hl _].
  assert (Hup : q < pow2 (prec + e)).
  { unfold q. rewrite pow2_add. apply Qmult_lt_compat_r; [apply pow2_pos|].
    rewrite <- pow2_inject by lia. rewrite <- Zlt_Qlt. exact Hm2. }
  assert (Hlt : (Qilog2 q < prec + e)%Z).
  { apply pow2_lt_inv. eapply Qle_lt_trans; eassumption. }
  unfold round_pos. set (f := fexp prec emin q).
  assert (Hf : (f <= e)%Z) by (unfold f, fexp; lia).
  assert (E : q / pow2 f == inject_Z (m * 2 ^ (e - f))).
  { unfold q. rewrite inject_Z_mult, pow2_inject by lia.
    replace e with ((e - f) + f)%Z at 1 by ring. rewrite pow2_add.
    field. apply pow2_neq0. }
  rewrite E, Qround_ne_Z. unfold q.
  rewrite inject_Z_mult, pow2_inject by lia.
  replace e with ((e - f) + f)%Z at 2 by ring. rewrite pow2_add. ring.
Qed.

Theorem round_float_exact m e :
  (Z.abs m < 2 ^ prec)%Z -> (emin <= e)%Z ->
  round_float prec emin (inject_Z m * pow2 e) == inject_Z m * pow2 e.
Proof.
  intros Hm He. destruct (Z.lt_trichotomy m 0) as [L | [E | G]].
  - assert (Eo : inject_Z m * pow2 e == - (inject_Z (- m) * pow2 e)).
    { rewrite inject_Z_opp. ring. }
    rewrite Eo, round_float_opp. apply Qopp_comp.
    assert (Hq : 0 < inject_Z (- m) * pow2 e).
    { apply Qmult_lt_0_compat; [|apply pow2_pos]. change 0 with (inject_Z 0). rewrite <- Zlt_Qlt. lia. }
    unfold round_float. destruct (Qcompare_spec (inject_Z (- m) * pow2 e) 0) as [? | ? | _];
      [exfalso; lra | exfalso; lra |].
    apply round_pos_exact; lia.
  - subst m. assert (Ez : inject_Z 0 * pow2 e == 0) by ring. rewrite Ez. reflexivity.
  - assert (Hq : 0 < inject_Z m * pow2 e).
    { apply Qmult_lt_0_compat; [|apply pow2_pos]. change 0 with (inject_Z 0). rewrite <- Zlt_Qlt. lia. }
    unfold round_float. destruct (Qcompare_spec (inject_Z m * pow2 e) 0) as [? | ? | _];
      [exfalso; lra | exfalso; lra |].
    apply round_pos_exact; lia.
Qed.

Corollary round_float_Z n :
  (Z.abs n < 2 ^ prec)%Z -> (emin <= 0)%Z ->
  round_float prec emin (inject_Z n) == inject_Z n.
Proof.
  intros Hn He. assert (E : inject_Z n == inject_Z n * pow2 0) by (unfold pow2; cbn; ring).
  rewrite E at 1. rewrite round_float_exact by assumption. symmetry. exact E.
Qed.

End Rounding.

(** ** Truncation toward zero *)

Lemma Qtrunc_mono x y : x <= y -> (Qtrunc x <= Qtrunc y)%Z.
Proof.
  intros H. unfold Qtrunc.
  destruct (Qle_bool 0 x) eqn:Ex; destruct (Qle_bool 0 y) eqn:Ey.
  - apply Qfloor_resp_le. exact H.
  - apply Qle_bool_iff in Ex. exfalso.
    assert (~ 0 <= y) by (intros C; apply Qle_bool_iff in C; congruence). lra.
  - apply Z.le_trans with 0%Z.
    + assert (Hx : x <= inject_Z 0).
      { apply Qlt_le_weak, Qnot_le_lt. intros C. change (inject_Z 0) with 0 in C.
        apply Qle_bool_iff in C. congruence. }
      apply Qceiling_resp_le in Hx. rewrite Qceiling_Z in Hx. exact Hx.
    + apply Qle_bool_iff in Ey. change 0 with (inject_Z 0) in Ey.
      apply Qfloor_resp_le in Ey. rewrite Qfloor_Z in Ey. exact Ey.
  - apply Qceiling_resp_le. exact H.
Qed.

Lemma Qtrunc_Z n : Qtrunc (inject_Z n) = n.
Proof. unfold Qtrunc. destruct (Qle_bool 0 (inject_Z n)); [apply Qfloor_Z | apply Qceiling_Z]. Qed.

#[global] Instance Qtrunc_comp : Proper (Qeq ==> eq) Qtrunc.
Proof.
  intros x y E. unfold Qtrunc. rewrite E. destruct (Qle_bool 0 y).
  - apply Qfloor_comp. exact E.
  - apply Qceiling_comp. exact E.
Qed.

End FloatFacts.

(** * Facts about slicing and [np.where] *)

Section SliceFacts.
Local Open Scope Z_scope.
Context {A : Type}.
Implicit Types (a : list A) (n i start stop : Z).

Lemma slice_bound_range n i : 0 <= n -> 0 <= slice_bound n i <= n.
Proof. intros Hn. unfold slice_bound. destruct (i <? 0) eqn:E; lia. Qed.

Lemma slice_bound_inside n i : 0 <= i <= n -> slice_bound n i = i.
Proof. intros Hi. unfold slice_bound. destruct (Z.ltb_spec i 0); lia. Qed.

Lemma slice_len_inside n start stop :
  0 <= start <= stop -> stop <= n -> slice_len n start stop = stop - start.
Proof.
  intros H1 H2. unfold slice_len. rewrite !slice_bound_inside by lia. lia.
Qed.

Lemma length_slice start stop a :
  length (slice start stop a) = Z.to_nat (slice_len (Z.of_nat (length a)) start stop).
Proof.
  unfold slice. rewrite length_take, length_drop.
  pose proof (slice_bound_range (Z.of_nat (length a)) start ltac:(lia)).
  pose proof (slice_bound_range (Z.of_nat (length a)) stop ltac:(lia)).
  unfold slice_len. lia.
Qed.

Lemma lookup_slice start stop a (i : nat) :
  (i < length (slice start stop a))%nat ->
  slice start stop a !! i
  = a !! (Z.to_nat (slice_bound (Z.of_nat (length a)) start) + i)%nat.
Proof.
  intros Hi. rewrite length_slice in Hi. unfold slice.
  rewrite lookup_take_lt by exact Hi. apply lookup_drop.
Qed.

End SliceFacts.

Section ShapeFacts.
Context {A : Type}.

Lemma is_shape_spec (h w : nat) (a : list (list A)) :
  is_shape h w a = true <->
  length a = h /\ forall i row, a !! i = Some row -> length row = w.
Proof.
  unfold is_shape. rewrite andb_true_iff, Nat.eqb_eq, forallb_forall. split.
  - intros [Hl Hr]. split; [exact Hl|]. intros i row Hi.
    apply Nat.eqb_eq, Hr. apply list_elem_of_In. eapply list_elem_of_lookup_2. exact Hi.
  - intros [Hl Hr]. split; [exact Hl|]. intros row Hin.
    apply list_elem_of_In, list_elem_of_lookup_1 in Hin. destruct Hin as [i Hi].
    apply Nat.eqb_eq. eapply Hr. exact Hi.
Qed.

Lemma at2_Some (a : list (list A)) i j x :
  at2 a i j = Some x <-> exists row, a !! i = Some row /\ row !! j = Some x.
Proof.
  unfold at2. destruct (a !! i) as [row|].
  - split; [intros H; exists row; auto | intros (r & E & H); congruence].
  - split; [discriminate | intros (r & E & _); discriminate].
Qed.

Lemma at2_is_Some (h w : nat) (a : list (list A)) i j :
  is_shape h w a = true -> (i < h)%nat -> (j < w)%nat -> is_Some (at2 a i j).
Proof.
  intros Hs Hi Hj. apply is_shape_spec in Hs. destruct Hs as [Hl Hr].
  destruct (lookup_lt_is_Some_2 a i ltac:(lia)) as [row Hrow].
  unfold at2. rewrite Hrow. apply lookup_lt_is_Some_2. rewrite (Hr i row Hrow). exact Hj.
Qed.

(** The crop [a[y1:y2, x1:x2]] has the lengths of the two slices, and its
    entry (i, j) is the entry of [a] at the slices' starts plus (i, j). *)
Lemma slice2_shape (h w : nat) (a : list (list A)) y1 y2 x1 x2 :
  is_shape h w a = true ->
  is_shape (Z.to_nat (slice_len (Z.of_nat h) y1 y2))
           (Z.to_nat (slice_len (Z.of_nat w) x1 x2)) (slice2 y1 y2 x1 x2 a) = true.
Proof.
  intros Hs. apply is_shape_spec in Hs. destruct Hs as [Hl Hr].
  apply is_shape_spec. unfold slice2. split.
  - rewrite length_map, length_slice, Hl. reflexivity.
  - intros i row Hi. rewrite list_lookup_fmap in Hi.
    destruct (slice y1 y2 a !! i) as [r|] eqn:Er; [|discriminate].
    injection Hi as <-. rewrite length_slice.
    assert (Hin : r ∈ a).
    { unfold slice in Er. apply lookup_take_Some in Er. destruct Er as [Er _].
      rewrite lookup_drop in Er. eapply list_elem_of_lookup_2. exact Er. }
    apply list_elem_of_lookup_1 in Hin. destruct Hin as [k Hk].
    rewrite (Hr k r Hk). reflexivity.
Qed.

Lemma slice2_at2 (h w : nat) (a : list (list A)) y1 y2 x1 x2 i j :
  is_shape h w a = true ->
  (i < Z.to_nat (slice_len (Z.of_nat h) y1 y2))%nat ->
  (j < Z.to_nat (slice_len (Z.of_nat w) x1 x2))%nat ->
  at2 (slice2 y1 y2 x1 x2 a) i j
  = at2 a (Z.to_nat (slice_bound (Z.of_nat h) y1) + i)
          (Z.to_nat (slice_bound (Z.of_nat w) x1) + j).
Proof.
  intros Hs Hi Hj. apply is_shape_spec in Hs. destruct Hs as [Hl Hr].
  unfold at2, slice2. rewrite list_lookup_fmap.
  rewrite lookup_slice by (rewrite length_slice, Hl; exact Hi).
  rewrite Hl. destruct (a !! _) as [row|] eqn:Erow; [|reflexivity].
  cbn. pose proof (Hr _ _ Erow) as Hrow.
  rewrite lookup_slice by (rewrite length_slice, Hrow; exact Hj).
  rewrite Hrow. reflexivity.
Qed.

End ShapeFacts.

Section ZipFacts.
Context {A B C : Type} (f : A -> B -> option C).

Lemma zip_with_shape_Some l k r :
  zip_with_shape f l k = Some r ->
  length r = length l /\ length k = length l /\
  forall i a b, l !! i = Some a -> k !! i = Some b ->
    exists c, f a b = Some c /\ r !! i = Some c.
Proof.
  revert k r. induction l as [|a l IH]; intros [|b k] r; cbn; try discriminate.
  - intros E. injection E as <-. repeat split. intros i ? ? Hi. discriminate.
  - destruct (f a b) as [c|] eqn:Ef; [|discriminate].
    destruct (zip_with_shape f l k) as [r'|] eqn:Ez; [|discriminate].
    intros E. injection E as <-. destruct (IH k r' Ez) as (Hl & Hk & Hr).
    split; [cbn; lia|]. split; [lia|]. intros [|i] a' b' Ha Hb; cbn in *.
    + injection Ha as <-. injection Hb as <-. exists c. split; [exact Ef | reflexivity].
    + apply Hr; assumption.
Qed.

Lemma zip_with_shape_is_Some l k :
  length l = length k ->
  (forall i a b, l !! i = Some a -> k !! i = Some b -> is_Some (f a b)) ->
  is_Some (zip_with_shape f l k).
Proof.
  revert k. induction l as [|a l IH]; intros [|b k] Hl Hf; cbn in *; try discriminate.
  - eexists. reflexivity.
  - destruct (Hf 0%nat a b eq_refl eq_refl) as [c Hc]. rewrite Hc.
    destruct (IH k) as [r Hr]; [lia | | rewrite Hr; eexists; reflexivity].
    intros i a' b' Ha Hb. apply (Hf (S i)); assumption.
Qed.

End ZipFacts.

Section WhereFacts.

Lemma truthy_scaled_binary v :
  (v == 0 \/ v == 1)%Q -> truthy (binary32 (v * 255)) = negb (Qeq_bool v 0).
Proof.
  unfold truthy, binary32. intros [E | E].
  - assert (E0 : (v * 255 == 0)%Q) by (rewrite E; ring).
    rewrite (round_float_comp 24 (-149) _ _ E0).
    rewrite (proj2 (Qeq_bool_iff v 0) E). reflexivity.
  - assert (E1 : (v * 255 == 255)%Q) by (rewrite E; ring).
    rewrite (round_float_comp 24 (-149) _ _ E1).
    destruct (Qeq_bool v 0) eqn:Ev.
    + apply Qeq_bool_iff in Ev. rewrite Ev in E. discriminate E.
    + reflexivity.
Qed.

Lemma is_binary_at2 m i j v :
  is_binary m = true -> at2 m i j = Some v -> (v == 0 \/ v == 1)%Q.
Proof.
  unfold is_binary. rewrite forallb_forall. intros Hb Hat.
  apply at2_Some in Hat. destruct Hat as (row & Hrow & Hv).
  assert (Hin : In row m) by (apply list_elem_of_In; eapply list_elem_of_lookup_2; exact Hrow).
  specialize (Hb row Hin). rewrite forallb_forall in Hb.
  assert (Hinv : In v row) by (apply list_elem_of_In; eapply list_elem_of_lookup_2; exact Hv).
  specialize (Hb v Hinv). apply orb_true_iff in Hb.
  destruct Hb as [E | E]; apply Qeq_bool_iff in E; auto.
Qed.

Lemma where_pixel_composited v px :
  (v == 0 \/ v == 1)%Q ->
  where_pixel [binary32 (v * 255)] px = Some (composited_pixel v px).
Proof.
  intros Hv. unfold where_pixel, composited_pixel. rewrite (truthy_scaled_binary v Hv).
  destruct (Qeq_bool v 0); cbn; [reflexivity|]. rewrite map_id. reflexivity.
Qed.

Lemma scaled_mask_lookup (m : mask) i :
  expand_dims_last (mul_scalar m 255) !! i
  = (fun row => map (fun v => [binary32 (v * 255)]) row) <$> (m !! i).
Proof.
  unfold expand_dims_last, mul_scalar.
  rewrite !list_lookup_fmap. destruct (m !! i) as [row|]; [|reflexivity].
  cbn. rewrite map_map. reflexivity.
Qed.

(** The masked image exists as soon as the mask has the image's shape;
    it has that shape too. *)
Lemma where0_is_Some (h w : nat) (img : image) (m : mask) :
  is_shape h w img = true -> is_shape h w m = true ->
  is_Some (where0 (expand_dims_last (mul_scalar m 255)) img).
Proof.
  intros Hi Hm. apply is_shape_spec in Hi. destruct Hi as [Hil Hir].
  apply is_shape_spec in Hm. destruct Hm as [Hml Hmr].
  unfold where0. apply zip_with_shape_is_Some.
  - unfold expand_dims_last, mul_scalar. rewrite !length_map. lia.
  - intros i crow irow Hc Hrow. rewrite scaled_mask_lookup in Hc.
    destruct (m !! i) as [mrow|] eqn:Em; [|discriminate]. injection Hc as <-.
    apply zip_with_shape_is_Some.
    + rewrite length_map. rewrite (Hmr i mrow Em), (Hir i irow Hrow). reflexivity.
    + intros j c px Hc Hpx. rewrite list_lookup_fmap in Hc.
      destruct (mrow !! j) as [v|]; [|discriminate]. injection Hc as <-.
      eexists. reflexivity.
Qed.

Lemma where0_shape (h w : nat) (img : image) cond out :
  is_shape h w img = true -> where0 cond img = Some out -> is_shape h w out = true.
Proof.
  intros Hi Ho. apply is_shape_spec in Hi. destruct Hi as [Hil Hir].
  unfold where0 in Ho. destruct (zip_with_shape_Some _ _ _ _ Ho) as (Hl & Hk & Hr).
  apply is_shape_spec. split; [lia|].
  intros i orow Horow.
  assert (Hlt : (i < length cond)%nat) by (rewrite <- Hl; eapply lookup_lt_Some; exact Horow).
  destruct (lookup_lt_is_Some_2 cond i Hlt) as [crow Hcrow].
  destruct (lookup_lt_is_Some_2 img i ltac:(lia)) as [irow Hirow].
  destruct (Hr i crow irow Hcrow Hirow) as (c & Hc & Hoc).
  rewrite Horow in Hoc. injection Hoc as <-.
  destruct (zip_with_shape_Some _ _ _ _ Hc) as (Hl' & Hk' & _).
  rewrite <- (Hir i irow Hirow). lia.
Qed.

Lemma where0_at2 (img : image) (m : mask) out i j v px :
  is_binary m = true ->
  where0 (expand_dims_last (mul_scalar m 255)) img = Some out ->
  at2 m i j = Some v -> at2 img i j = Some px ->
  at2 out i j = Some (composited_pixel v px).
Proof.
  intros Hb Ho Hv Hpx.
  pose proof (is_binary_at2 m i j v Hb Hv) as Hbin.
  apply at2_Some in Hv. destruct Hv as (mrow & Hmrow & Hv).
  apply at2_Some in Hpx. destruct Hpx as (irow & Hirow & Hpx).
  unfold where0 in Ho. destruct (zip_with_shape_Some _ _ _ _ Ho) as (_ & _ & Hr).
  destruct (Hr i (map (fun v => [binary32 (v * 255)]) mrow) irow) as (orow & Horow & Hout).
  { rewrite scaled_mask_lookup, Hmrow. reflexivity. }
  { exact Hirow. }
  destruct (zip_with_shape_Some _ _ _ _ Horow) as (_ & _ & Hr').
  destruct (Hr' j [binary32 (v * 255)] px) as (c & Hc & Hoc).
  { rewrite list_lookup_fmap, Hv. reflexivity. }
  { exact Hpx. }
  rewrite (where_pixel_composited v px Hbin) in Hc. injection Hc as <-.
  apply at2_Some. exists orow. split; assumption.
Qed.

End WhereFacts.

(** * Facts about the artifact names *)

Section StringFacts.

Lemma append_cons x a s : String x a +:+ s = String x (a +:+ s).
Proof. reflexivity. Qed.

Lemma append_nil s : EmptyString +:+ s = s.
Proof. reflexivity. Qed.

Lemma contains_app c a b : contains c (a +:+ b) = contains c a || contains c b.
Proof.
  induction a as [|x a IH]; [reflexivity|].
  rewrite append_cons. cbn [contains]. rewrite IH, orb_assoc. reflexivity.
Qed.

Lemma length_append a b : String.length (a +:+ b) = (String.length a + String.length b)%nat.
Proof.
  induction a as [|x a IH]; [reflexivity|].
  rewrite append_cons. cbn [String.length]. rewrite IH. reflexivity.
Qed.

Lemma append_assoc a b c : (a +:+ b) +:+ c = a +:+ b +:+ c.
Proof.
  induction a as [|x a IH]; [reflexivity|].
  rewrite !append_cons, IH. reflexivity.
Qed.

Lemma append_inj_r a b s : a +:+ s = b +:+ s -> a = b.
Proof.
  revert b. induction a as [|x a IH]; intros [|y b] E.
  - reflexivity.
  - apply (f_equal String.length) in E. rewrite append_nil, append_cons in E.
    cbn [String.length] in E. rewrite length_append in E. lia.
  - apply (f_equal String.length) in E. rewrite append_nil, append_cons in E.
    cbn [String.length] in E. rewrite length_append in E. lia.
  - rewrite !append_cons in E. injection E as -> E. f_equal. apply IH. exact E.
Qed.

Lemma pretty_N_char_no_slash x : Ascii.eqb (pretty_N_char x) "/" = false.
Proof. unfold pretty_N_char. repeat (case_match; try reflexivity). Qed.

Lemma pretty_N_go_no_slash x s :
  contains "/" s = false -> contains "/" (pretty_N_go x s) = false.
Proof.
  revert s. induction (N.lt_wf_0 x) as [x _ IH]. intros s Hs.
  destruct (decide (x = 0%N)) as [-> | Hx].
  - rewrite pretty_N_go_0. exact Hs.
  - rewrite pretty_N_go_step by lia. apply IH.
    + apply N.div_lt; lia.
    + cbn. rewrite pretty_N_char_no_slash. exact Hs.
Qed.

Lemma pretty_nat_no_slash (n : nat) : contains "/" (pretty n) = false.
Proof.
  unfold pretty, pretty_nat, pretty, pretty_N.
  destruct (decide _); [reflexivity|]. apply pretty_N_go_no_slash. reflexivity.
Qed.

Lemma rfind_from_absent c s i last :
  contains c s = false -> rfind_from c s i last = last.
Proof.
  revert i last. induction s as [|a s IH]; intros i last H; cbn in *; [reflexivity|].
  apply orb_false_iff in H. destruct H as [Ha Hs]. rewrite Ha. apply IH. exact Hs.
Qed.

Lemma substring_0_0 s : substring 0 0 s = EmptyString.
Proof. destruct s; reflexivity. Qed.

Lemma contains_prefix c n s :
  contains c s = false -> contains c (substring 0 n s) = false.
Proof.
  revert n. induction s as [|a s IH]; intros [|n] H; cbn in *; try reflexivity.
  apply orb_false_iff in H. destruct H as [Ha Hs]. rewrite Ha. cbn. apply IH. exact Hs.
Qed.

Lemma endswith_app suffix a : endswith suffix (a +:+ suffix) = true.
Proof.
  induction a as [|x a IH].
  - change (EmptyString +:+ suffix) with suffix.
    destruct suffix; cbn [endswith]; rewrite String.eqb_refl; reflexivity.
  - change (String x a +:+ suffix) with (String x (a +:+ suffix)).
    cbn [endswith]. rewrite IH. apply orb_true_r.
Qed.

Lemma split_slash_plain name : contains "/" name = false -> split_slash name = [name].
Proof.
  induction name as [|c r IH]; intros H; [reflexivity|]. cbn [contains] in H.
  apply orb_false_iff in H. destruct H as [Hc Hr]. cbn [split_slash].
  rewrite Hc, (IH Hr). reflexivity.
Qed.

Lemma split_slash_not_nil s : split_slash s <> [].
Proof.
  destruct s as [|c r]; [discriminate|]. cbn [split_slash].
  destruct (Ascii.eqb c "/"); [discriminate|]. destruct (split_slash r); discriminate.
Qed.

(** The components of a path cut at a slash are those of the two parts. *)
Lemma split_slash_app a b :
  split_slash (a +:+ String "/" b) = split_slash a ++ split_slash b.
Proof.
  induction a as [|c a IH]; [reflexivity|]. rewrite append_cons. cbn [split_slash].
  destruct (Ascii.eqb c "/"); [rewrite IH; reflexivity|]. rewrite IH.
  destruct (split_slash a) as [|x l] eqn:E; [destruct (split_slash_not_nil a E)|].
  reflexivity.
Qed.

Lemma split_slash_tempdir name :
  contains "/" name = false -> split_slash ("tempdir/" +:+ name) = ["tempdir"; name].
Proof.
  intros H. change ("tempdir/" +:+ name) with ("tempdir" +:+ String "/" name).
  rewrite split_slash_app, (split_slash_plain name H). reflexivity.
Qed.

Lemma glob_tempdir_png_name name :
  glob_tempdir_png ("tempdir/" +:+ name)
  = negb (contains "/" name) && negb (is_hidden name) && endswith ".png" name.
Proof. reflexivity. Qed.

(** The stem [os.path.splitext(p)[0]] is [p] or a prefix of [p]. *)
Lemma stem_prefix p : exists n, (splitext p).1 = substring 0 n p.
Proof.
  unfold splitext. destruct (_ <? _)%Z.
  - destruct (all_chars _ _).
    + exists (String.length p). cbn. clear. induction p as [|a p IH]; cbn; congruence.
    + eexists. cbn. unfold between. reflexivity.
  - exists (String.length p). cbn. clear. induction p as [|a p IH]; cbn; congruence.
Qed.

Lemma stem_no_slash p : contains "/" p = false -> contains "/" (splitext p).1 = false.
Proof. intros H. destruct (stem_prefix p) as [n ->]. apply contains_prefix. exact H. Qed.

Lemma stem_not_hidden p rest :
  is_hidden p = false -> is_hidden ((splitext p).1 +:+ "_" +:+ rest) = false.
Proof.
  intros H. destruct (stem_prefix p) as [n ->].
  destruct p as [|a p]; destruct n as [|n]; cbn in *; try reflexivity.
  destruct a as [[] [] [] [] [] [] [] []]; try reflexivity; discriminate.
Qed.

Lemma image_path_name p idx :
  image_path p idx = "tempdir/" +:+ ((splitext p).1 +:+ "_" +:+ pretty idx +:+ ".png").
Proof. reflexivity. Qed.

Lemma image_path_split p idx :
  contains "/" p = false ->
  split_slash (image_path p idx)
  = ["tempdir"; (splitext p).1 +:+ "_" +:+ pretty idx +:+ ".png"].
Proof.
  intros H. rewrite image_path_name. apply split_slash_tempdir.
  rewrite !contains_app, (stem_no_slash p H), pretty_nat_no_slash. reflexivity.
Qed.

Lemma image_path_glob p idx :
  plain_name p = true -> glob_tempdir_png (image_path p idx) = true.
Proof.
  unfold plain_name. rewrite andb_true_iff, !negb_true_iff. intros [Hs Hh].
  rewrite image_path_name, glob_tempdir_png_name.
  assert (He : endswith ".png" ((splitext p).1 +:+ "_" +:+ pretty idx +:+ ".png") = true).
  { rewrite <- (append_assoc "_" (pretty idx) ".png").
    rewrite <- (append_assoc (splitext p).1). apply endswith_app. }
  rewrite He, (stem_not_hidden p _ Hh).
  rewrite !contains_app, (stem_no_slash p Hs), pretty_nat_no_slash. reflexivity.
Qed.

Lemma image_path_inj p i j : image_path p i = image_path p j -> i = j.
Proof.
  unfold image_path. intros E.
  apply (inj (String.app "tempdir/")) in E.
  apply (inj (String.app (splitext p).1)) in E.
  apply (inj (String.app "_")) in E.
  apply append_inj_r in E. apply (inj pretty) in E. exact E.
Qed.

End StringFacts.

(** * The parts of a path *)

Section SplitFacts.

Lemma pretty_N_char_no_underscore x : Ascii.eqb (pretty_N_char x) "_" = false.
Proof. unfold pretty_N_char. repeat (case_match; try reflexivity). Qed.

Lemma pretty_N_go_no_underscore x s :
  contains "_" s = false -> contains "_" (pretty_N_go x s) = false.
Proof.
  revert s. induction (N.lt_wf_0 x) as [x _ IH]. intros s Hs.
  destruct (decide (x = 0%N)) as [-> | Hx].
  - rewrite pretty_N_go_0. exact Hs.
  - rewrite pretty_N_go_step by lia. apply IH.
    + apply N.div_lt; lia.
    + cbn. rewrite pretty_N_char_no_underscore. exact Hs.
Qed.

Lemma pretty_nat_no_underscore (n : nat) : contains "_" (pretty n) = false.
Proof.
  unfold pretty, pretty_nat, pretty, pretty_N.
  destruct (decide _); [reflexivity|]. apply pretty_N_go_no_underscore. reflexivity.
Qed.

(** The last underscore of a name cuts it in one way only. *)
Lemma split_at_last_underscore a b d1 d2 :
  contains "_" d1 = false -> contains "_" d2 = false ->
  a +:+ String "_" d1 = b +:+ String "_" d2 -> a = b /\ d1 = d2.
Proof.
  intros H1 H2. revert b. induction a as [|x a IH]; intros [|y b] E.
  - rewrite !append_nil in E. injection E as E. auto.
  - exfalso. rewrite append_nil, append_cons in E. injection E as _ E.
    rewrite E, contains_app in H1.
    cbn [contains] in H1. rewrite Ascii.eqb_refl, orb_true_r in H1. discriminate.
  - exfalso. rewrite append_nil, append_cons in E. injection E as _ E.
    rewrite <- E, contains_app in H2.
    cbn [contains] in H2. rewrite Ascii.eqb_refl, orb_true_r in H2. discriminate.
  - rewrite !append_cons in E. injection E as -> E.
    destruct (IH b E) as [-> ->]. auto.
Qed.

(** [rfind] finds the last occurrence: what follows it holds no other. *)
Lemma rfind_from_spec c s i last :
  (contains c s = false /\ rfind_from c s i last = last) \/
  (exists pre post,
      s = pre +:+ String c post /\ contains c post = false /\
      rfind_from c s i last = (i + Z.of_nat (String.length pre))%Z).
Proof.
  revert i last. induction s as [|a s IH]; intros i last; cbn [rfind_from contains].
  - left. auto.
  - destruct (IH (i + 1)%Z (if Ascii.eqb a c then i else last)) as [[Hn Hr] | (pre & post & Hs & Hp & Hr)].
    + destruct (Ascii.eqb a c) eqn:Ea.
      * right. apply Ascii.eqb_eq in Ea. subst a. exists EmptyString, s.
        rewrite append_nil. cbn [String.length]. rewrite Hr, Z.add_0_r. auto.
      * left. rewrite Hn, Hr. auto.
    + right. exists (String a pre), post. rewrite append_cons, <- Hs.
      split; [reflexivity|]. split; [exact Hp|]. rewrite Hr. cbn [String.length]. lia.
Qed.

Lemma substring_prefix pre rest :
  substring 0 (String.length pre) (pre +:+ rest) = pre.
Proof.
  induction pre as [|a pre IH]; [rewrite append_nil; apply substring_0_0|].
  rewrite append_cons. cbn [String.length substring]. rewrite IH. reflexivity.
Qed.

Lemma substring_whole s : substring 0 (String.length s) s = s.
Proof. induction s as [|a s IH]; cbn [String.length substring]; congruence. Qed.

Lemma substring_suffix pre rest :
  substring (String.length pre) (String.length rest) (pre +:+ rest) = rest.
Proof.
  induction pre as [|a pre IH]; [rewrite append_nil; apply substring_whole|].
  rewrite append_cons. cbn [String.length substring]. exact IH.
Qed.

(** Two ways of cutting one string: the shorter head is a head of the
    longer one. *)
Lemma append_overlap a x b y :
  a +:+ x = b +:+ y -> (String.length b < String.length a)%nat ->
  exists m, a = b +:+ m /\ y = m +:+ x /\ m <> EmptyString.
Proof.
  revert a. induction b as [|c b IH]; intros a E Hl.
  - rewrite append_nil in E. exists a. rewrite append_nil. split; [reflexivity|].
    split; [auto|]. intros ->. cbn in Hl. lia.
  - destruct a as [|d a]; [cbn in Hl; lia|].
    rewrite !append_cons in E. injection E as -> E.
    destruct (IH a E) as (m & -> & -> & Hm); [cbn [String.length] in Hl; lia|].
    exists m. rewrite append_cons. auto.
Qed.

Lemma all_chars_empty c s : all_chars c s = false -> s <> EmptyString.
Proof. intros H ->. discriminate. Qed.

(** The two cases of [splitext]: no extension, or a name cut at its last
    dot, which comes after the last slash and after a character that is
    not a dot. *)
Lemma splitext_cases p :
  splitext p = (p, EmptyString) \/
  exists stem ext,
    splitext p = (stem, String "." ext) /\ p = stem +:+ String "." ext /\
    contains "." ext = false /\ contains "/" ext = false /\ stem <> EmptyString.
Proof.
  unfold splitext. destruct (Z.ltb_spec (rfind "/" p) (rfind "." p)) as [Hlt | Hge]; [|left; reflexivity].
  destruct (all_chars "." (between (rfind "/" p + 1) (rfind "." p) p)) eqn:Hall; [left; reflexivity|].
  right. unfold rfind in *.
  destruct (rfind_from_spec "." p 0 (-1)) as [[Hn Hr] | (pre & post & Hp & Hpost & Hr)].
  { exfalso. rewrite Hr in Hlt.
    destruct (rfind_from_spec "/" p 0 (-1)) as [[_ Hs] | (pre' & post' & _ & _ & Hs)]; rewrite Hs in Hlt; lia. }
  rewrite Hr in *. rewrite Z.add_0_l in *.
  exists pre, post.
  assert (Hstem : between 0 (Z.of_nat (String.length pre)) p = pre).
  { unfold between. rewrite Z.sub_0_r, Nat2Z.id. change (Z.to_nat 0) with 0%nat.
    rewrite Hp. apply substring_prefix. }
  assert (Hext : between (Z.of_nat (String.length pre)) (Z.of_nat (String.length p)) p
                 = String "." post).
  { unfold between. rewrite Nat2Z.id.
    replace (Z.to_nat (Z.of_nat (String.length p) - Z.of_nat (String.length pre)))
      with (String.length (String "." post)).
    - rewrite Hp. apply substring_suffix.
    - rewrite Hp, length_append. lia. }
  rewrite Hstem, Hext. split; [reflexivity|]. split; [exact Hp|]. split; [exact Hpost|].
  split.
  - (* a slash in the extension would be a slash after the last dot *)
    destruct (rfind_from_spec "/" p 0 (-1)) as [[Hn _] | (pre' & post' & Hp' & Hpost' & Hs)].
    + rewrite Hp, contains_app in Hn. cbn [contains] in Hn.
      apply orb_false_iff in Hn. destruct Hn as [_ Hn].
      apply orb_false_iff in Hn. apply Hn.
    + rewrite Hs, Z.add_0_l in Hlt.
      destruct (append_overlap pre (String "." post) pre' (String "/" post')) as (m & Hm & Hy & _).
      { rewrite <- Hp. exact Hp'. }
      { lia. }
      destruct m as [|x m]; [rewrite append_nil in Hy; discriminate|].
      rewrite append_cons in Hy. injection Hy as _ Hy.
      rewrite Hy, contains_app in Hpost'. apply orb_false_iff in Hpost'.
      destruct Hpost' as [_ Hpost']. cbn [contains] in Hpost'.
      apply orb_false_iff in Hpost'. apply Hpost'.
  - intros ->. cbn [String.length] in Hall.
    unfold between in Hall.
    replace (Z.to_nat (Z.of_nat 0 - (rfind_from "/" p 0 (-1) + 1))) with 0%nat in Hall.
    + assert (Hz : forall n s, substring n 0 s = EmptyString) by (intros n s; revert n; induction s; intros [|n]; cbn; auto). rewrite Hz in Hall. discriminate.
    + destruct (rfind_from_spec "/" p 0 (-1)) as [[_ Hs] | (pre' & post' & _ & _ & Hs)];
        rewrite Hs; lia.
Qed.

(** [rfind] runs over a concatenation part by part. *)
Lemma rfind_from_app c a b i last :
  rfind_from c (a +:+ b) i last
  = rfind_from c b (i + Z.of_nat (String.length a)) (rfind_from c a i last).
Proof.
  revert i last. induction a as [|x a IH]; intros i last.
  - rewrite append_nil. cbn [String.length rfind_from]. rewrite Z.add_0_r. reflexivity.
  - rewrite append_cons. cbn [String.length rfind_from]. rewrite IH. f_equal. lia.
Qed.

Lemma rfind_app c a b :
  rfind c (a +:+ b) = rfind_from c b (Z.of_nat (String.length a)) (rfind c a).
Proof. unfold rfind. rewrite rfind_from_app. reflexivity. Qed.

Lemma rfind_from_bound c s i last :
  (last < i)%Z -> (rfind_from c s i last < i + Z.of_nat (String.length s))%Z.
Proof.
  revert i last. induction s as [|a s IH]; intros i last H; cbn [rfind_from String.length]; [lia|].
  specialize (IH (i + 1)%Z (if Ascii.eqb a c then i else last)).
  destruct (Ascii.eqb a c); lia.
Qed.

Lemma rfind_slash_prefix d :
  is_prefix_dir d -> rfind "/" d = (Z.of_nat (String.length d) - 1)%Z.
Proof.
  intros [-> | [d' ->]]; [reflexivity|].
  rewrite rfind_app, length_append. cbn [rfind_from String.length Ascii.eqb Bool.eqb]. lia.
Qed.

Lemma substring_skip pre n rest :
  substring (String.length pre) n (pre +:+ rest) = substring 0 n rest.
Proof.
  induction pre as [|a pre IH]; [rewrite append_nil; reflexivity|].
  rewrite append_cons. cbn [String.length substring]. exact IH.
Qed.

Lemma between_middle d s rest :
  between (Z.of_nat (String.length d))
          (Z.of_nat (String.length d) + Z.of_nat (String.length s)) (d +:+ s +:+ rest) = s.
Proof.
  unfold between. rewrite Nat2Z.id.
  replace (Z.to_nat (Z.of_nat (String.length d) + Z.of_nat (String.length s) - Z.of_nat (String.length d)))
    with (String.length s) by lia.
  rewrite substring_skip. apply substring_prefix.
Qed.

Lemma between_head a rest :
  between 0 (Z.of_nat (String.length a)) (a +:+ rest) = a.
Proof.
  unfold between. rewrite Z.sub_0_r, Nat2Z.id. change (Z.to_nat 0) with 0%nat.
  apply substring_prefix.
Qed.

Lemma between_tail a rest :
  between (Z.of_nat (String.length a)) (Z.of_nat (String.length (a +:+ rest))) (a +:+ rest)
  = rest.
Proof.
  unfold between. rewrite Nat2Z.id, length_append.
  replace (Z.to_nat (Z.of_nat (String.length a + String.length rest) - Z.of_nat (String.length a)))
    with (String.length rest) by lia.
  apply substring_suffix.
Qed.

(** [os.path.splitext] on a name with an extension: behind a directory
    prefix [d], a name [s] that is not made of dots only, a dot, and an
    extension [e] without dot or slash. *)
Lemma splitext_ext d s e :
  is_prefix_dir d -> contains "/" s = false -> all_chars "." s = false ->
  contains "." e = false -> contains "/" e = false ->
  splitext (d +:+ s +:+ String "." e) = (d +:+ s, String "." e).
Proof.
  intros Hd Hs Hdots He1 He2. unfold splitext.
  assert (Hsep : rfind "/" (d +:+ s +:+ String "." e) = (Z.of_nat (String.length d) - 1)%Z).
  { rewrite rfind_app, rfind_from_absent; [apply rfind_slash_prefix; exact Hd|].
    rewrite contains_app. cbn [contains]. rewrite Hs, He2. reflexivity. }
  assert (Hdot : rfind "." (d +:+ s +:+ String "." e)
                 = (Z.of_nat (String.length d) + Z.of_nat (String.length s))%Z).
  { rewrite rfind_app, rfind_from_app. cbn [rfind_from]. rewrite Ascii.eqb_refl.
    apply rfind_from_absent. exact He1. }
  rewrite Hsep, Hdot.
  destruct (Z.ltb_spec (Z.of_nat (String.length d) - 1)
              (Z.of_nat (String.length d) + Z.of_nat (String.length s))) as [_ | C]; [|lia].
  replace (Z.of_nat (String.length d) - 1 + 1)%Z with (Z.of_nat (String.length d)) by lia.
  rewrite between_middle, Hdots.
  rewrite <- (append_assoc d s (String "." e)).
  replace (Z.of_nat (String.length d) + Z.of_nat (String.length s))%Z
    with (Z.of_nat (String.length (d +:+ s))) by (rewrite length_append; lia).
  rewrite between_head, between_tail. reflexivity.
Qed.

Lemma substring_prefix_app n s r :
  (n <= String.length s)%nat -> substring 0 n (s +:+ r) = substring 0 n s.
Proof.
  revert s. induction n as [|n IH]; intros s Hn; [rewrite !substring_0_0; reflexivity|].
  destruct s as [|a s]; [cbn in Hn; lia|]. rewrite append_cons.
  cbn [substring]. rewrite IH by (cbn in Hn; lia). reflexivity.
Qed.

Lemma all_chars_prefix c n s : all_chars c s = true -> all_chars c (substring 0 n s) = true.
Proof.
  revert n. induction s as [|a s IH]; intros [|n] H; cbn in *; try reflexivity.
  apply andb_true_iff in H. destruct H as [Ha Hs]. rewrite Ha. cbn. apply IH. exact Hs.
Qed.

Lemma rfind_from_lower c s i last : (last <= rfind_from c s i last)%Z \/ (i <= rfind_from c s i last)%Z.
Proof.
  revert i last. induction s as [|a s IH]; intros i last; cbn [rfind_from]; [left; lia|].
  destruct (IH (i + 1)%Z (if Ascii.eqb a c then i else last)) as [H | H];
    destruct (Ascii.eqb a c); lia.
Qed.

(** [os.path.splitext] on a name without extension: behind a directory
    prefix, dots only and then a name without dot. *)
Lemma splitext_no_ext d s0 r :
  is_prefix_dir d -> all_chars "." s0 = true ->
  contains "." r = false -> contains "/" r = false ->
  splitext (d +:+ s0 +:+ r) = (d +:+ s0 +:+ r, EmptyString).
Proof.
  intros Hd H0 Hr1 Hr2. unfold splitext.
  assert (Hs0 : contains "/" s0 = false).
  { clear -H0. induction s0 as [|a s0 IH]; [reflexivity|]. cbn in *.
    apply andb_true_iff in H0. destruct H0 as [Ha H0]. apply Ascii.eqb_eq in Ha. subst a.
    cbn. apply IH. exact H0. }
  assert (Hsep : rfind "/" (d +:+ s0 +:+ r) = (Z.of_nat (String.length d) - 1)%Z).
  { rewrite rfind_app, rfind_from_absent; [apply rfind_slash_prefix; exact Hd|].
    rewrite contains_app, Hs0, Hr2. reflexivity. }
  assert (Hdot : rfind "." (d +:+ s0 +:+ r)
                 = rfind_from "." s0 (Z.of_nat (String.length d)) (rfind "." d)).
  { rewrite rfind_app, rfind_from_app. apply rfind_from_absent. exact Hr1. }
  rewrite Hsep, Hdot.
  destruct (Z.ltb_spec (Z.of_nat (String.length d) - 1)
              (rfind_from "." s0 (Z.of_nat (String.length d)) (rfind "." d))) as [L | _];
    [|reflexivity].
  replace (Z.of_nat (String.length d) - 1 + 1)%Z with (Z.of_nat (String.length d)) by lia.
  assert (Hb : (rfind_from "." s0 (Z.of_nat (String.length d)) (rfind "." d)
                < Z.of_nat (String.length d) + Z.of_nat (String.length s0))%Z).
  { apply rfind_from_bound. unfold rfind.
    pose proof (rfind_from_bound "." d 0 (-1) ltac:(lia)). lia. }
  set (k := rfind_from "." s0 (Z.of_nat (String.length d)) (rfind "." d)) in *.
  assert (E : between (Z.of_nat (String.length d)) k (d +:+ s0 +:+ r)
              = substring 0 (Z.to_nat (k - Z.of_nat (String.length d))) s0).
  { unfold between. rewrite Nat2Z.id, substring_skip. apply substring_prefix_app. lia. }
  rewrite E, (all_chars_prefix "." _ s0 H0). reflexivity.
Qed.

End SplitFacts.

(** * Box Normalizer *)

Section BoxNormalizerFacts.
Local Open Scope Q_scope.

Lemma box_normalizer_with_map rnd W H boxes :
  box_normalizer_with rnd W H boxes = map (pixel_box_rounded rnd W H) boxes.
Proof.
  unfold box_normalizer_with, astype_int, box_convert_cxcywh_xyxy, mul_rows, tensor4.
  rewrite !map_map. apply map_ext. intros [[[cx cy] w] h]. reflexivity.
Qed.

(** Without rounding, scaling first and offsetting afterwards is the
    formula of the specification. *)
Lemma pixel_box_rounded_id W H b :
  pixel_box_rounded (fun q => q) W H b = pixel_box_exact W H b.
Proof.
  destruct b as [[[cx cy] w] h]. unfold pixel_box_rounded, pixel_box_exact.
  f_equal; [f_equal; [f_equal |] |]; apply Qtrunc_comp; field.
Qed.

Lemma half_extent_nonneg w W :
  0 <= w -> (0 <= W)%Z -> 0 <= binary32 ((1 # 2) * binary32 (w * binary32 (inject_Z W))).
Proof.
  intros Hw HW. unfold binary32.
  assert (H0 : 0 <= inject_Z W) by (change 0 with (inject_Z 0); rewrite <- Zle_Qle; exact HW).
  assert (H1 : 0 <= round_float 24 (-149) (inject_Z W)) by (apply round_float_nonneg; exact H0).
  assert (H2 : 0 <= round_float 24 (-149) (w * round_float 24 (-149) (inject_Z W))).
  { apply round_float_nonneg. apply Qmult_le_0_compat; assumption. }
  apply round_float_nonneg. lra.
Qed.

Lemma corner_order a e :
  0 <= e -> (Qtrunc (binary32 (a - e)) <= Qtrunc (binary32 (a + e)))%Z.
Proof.
  intros He. apply Qtrunc_mono. unfold binary32. apply round_float_mono; [lia | lra].
Qed.

Lemma pixel_box_rounded_ordered W H cx cy w h x1 y1 x2 y2 :
  (0 <= W)%Z -> (0 <= H)%Z -> 0 <= w -> 0 <= h ->
  pixel_box_rounded binary32 W H (cx, cy, w, h) = (x1, y1, x2, y2) ->
  (x1 <= x2)%Z /\ (y1 <= y2)%Z.
Proof.
  intros HW HH Hw Hh E. unfold pixel_box_rounded in E.
  injection E as <- <- <- <-.
  split; apply corner_order; apply half_extent_nonneg; assumption.
Qed.

(** Rounding and truncation stay between integer bounds. *)
Lemma binary32_between lo hi q :
  (Z.abs lo < 2 ^ 24)%Z -> (Z.abs hi < 2 ^ 24)%Z ->
  inject_Z lo <= q <= inject_Z hi ->
  inject_Z lo <= binary32 q <= inject_Z hi.
Proof.
  intros Hlo Hhi [H1 H2]. unfold binary32. split.
  - rewrite <- (round_float_Z 24 (-149) ltac:(lia) lo) by lia. apply round_float_mono; [lia | exact H1].
  - rewrite <- (round_float_Z 24 (-149) ltac:(lia) hi) by lia. apply round_float_mono; [lia | exact H2].
Qed.

Lemma Qtrunc_between lo hi q :
  inject_Z lo <= q <= inject_Z hi -> (lo <= Qtrunc q <= hi)%Z.
Proof.
  intros [H1 H2]. split.
  - rewrite <- (Qtrunc_Z lo). apply Qtrunc_mono. exact H1.
  - rewrite <- (Qtrunc_Z hi). apply Qtrunc_mono. exact H2.
Qed.

(** The two corners along one axis of length [n], for a centre [c] and an
    extent [e] in [0, 1]: the low corner is in [-n, n], the high one in
    [0, 2n]. *)
Lemma corner_range c e n :
  (0 < n < 2 ^ 23)%Z -> 0 <= c <= 1 -> 0 <= e <= 1 ->
  let a := binary32 (c * binary32 (inject_Z n)) in
  let d := binary32 ((1 # 2) * binary32 (e * binary32 (inject_Z n))) in
  (- n <= Qtrunc (binary32 (a - d)) <= n)%Z /\
  (0 <= Qtrunc (binary32 (a + d)) <= 2 * n)%Z.
Proof.
  intros Hn Hc He a d.
  assert (Hn0 : 0 < inject_Z n) by (change 0 with (inject_Z 0); rewrite <- Zlt_Qlt; lia).
  assert (En : binary32 (inject_Z n) == inject_Z n) by (apply round_float_Z; lia).
  assert (Ha : inject_Z 0 <= a <= inject_Z n).
  { apply binary32_between; [lia | lia |]. rewrite En. change (inject_Z 0) with 0. nra. }
  assert (Hs : inject_Z 0 <= binary32 (e * binary32 (inject_Z n)) <= inject_Z n).
  { apply binary32_between; [lia | lia |]. rewrite En. change (inject_Z 0) with 0. nra. }
  assert (Hd : inject_Z 0 <= d <= inject_Z n).
  { apply binary32_between; [lia | lia |]. change (inject_Z 0) with 0 in *. lra. }
  change (inject_Z 0) with 0 in *.
  split; apply Qtrunc_between; apply binary32_between; try lia.
  - rewrite inject_Z_opp. lra.
  - change (inject_Z 0) with 0. rewrite inject_Z_mult. change (inject_Z 2) with 2. lra.
Qed.

(** The Pixel Boxes of normalized boxes on an image below 2^23 pixels a
    side are within the exact range of the Region Filter. *)
Lemma box_normalizer_exact_sides W H boxes :
  (0 < W < 2 ^ 23)%Z -> (0 < H < 2 ^ 23)%Z ->
  Forall normalized boxes -> Forall exact_sides (box_normalizer W H boxes).
Proof.
  intros HW HH Hall. unfold box_normalizer. rewrite box_normalizer_with_map.
  apply Forall_fmap. eapply Forall_impl; [exact Hall|].
  intros [[[cx cy] w] h] (Hcx & Hcy & Hw & Hh).
  change ((exact_sides ∘ pixel_box_rounded binary32 W H) (cx, cy, w, h))
    with (exact_sides (pixel_box_rounded binary32 W H (cx, cy, w, h))).
  unfold pixel_box_rounded, exact_sides.
  destruct (corner_range cx w W HW Hcx Hw) as [Hx1 Hx2].
  destruct (corner_range cy h H HH Hcy Hh) as [Hy1 Hy2].
  cbv zeta in Hx1, Hx2, Hy1, Hy2. lia.
Qed.

End BoxNormalizerFacts.

(** C1 (the claim as stated fails): the box below has float32 components in
    [0,1].  On a 1000 x 1000 image the exact value of (cx - w/2) * W is
    551.99995..., which truncates to 551.  The cell computes
    cx * W = 700.847412109375 and 0.5 * (w * W) = 148.8474273681640625 in
    float32; their difference 552 - 2^-16 is not a float32 and rounds to
    552.0, so the cell yields x1 = 552.  Evaluating the specification's
    formula as written in float32 gives 551 as well. *)
Lemma box_normalizer_not_exact_formula :
  let cx := (2939567 # 4194304)%Q in
  let w := (4994491 # 16777216)%Q in
  let b : box := (cx, 1 # 2, w, 1 # 2)%Q in
  (binary32 cx == cx /\ binary32 w == w)%Q /\
  (0 <= cx <= 1 /\ 0 <= w <= 1)%Q /\
  ((cx - w / 2) * 1000 == 2315255625 # 4194304)%Q /\
  (binary32 (cx * 1000) == 2870671 # 4096)%Q /\
  (binary32 ((1 # 2) * binary32 (w * 1000)) == 9754865 # 65536)%Q /\
  ((2870671 # 4096) - (9754865 # 65536) == 552 - (1 # 65536))%Q /\
  (binary32 (552 - (1 # 65536)) == 552)%Q /\
  box_normalizer 1000 1000 [b] = [(552, 250, 849, 750)%Z] /\
  map (pixel_box_exact 1000 1000) [b] = [(551, 250, 849, 750)%Z] /\
  map (pixel_box_formula32 1000 1000) [b] = [(551, 250, 849, 750)%Z] /\
  box_normalizer 1000 1000 [b] <> map (pixel_box_exact 1000 1000) [b].
Proof.
  cbv zeta. repeat split; try (vm_compute; reflexivity); try (vm_compute; discriminate).
Qed.

(** C1 (amended): the Box Normalizer returns one Pixel Box per Detection, in
    the order of the input; each is the truncation toward zero of the
    float32 results of scaling the components by the image dimensions and
    then taking the half extent off and adding it to the centre; in exact
    arithmetic this computation is the formula of the specification;
    x1 <= x2 and y1 <= y2 whenever w, h >= 0; no box in, no box out. *)
Theorem box_normalizer_rounded (W H : Z) (boxes : list box) :
  (0 < W)%Z -> (0 < H)%Z ->
  box_normalizer W H boxes = map (pixel_box_rounded binary32 W H) boxes /\
  box_normalizer_with (fun q => q) W H boxes = map (pixel_box_exact W H) boxes /\
  length (box_normalizer W H boxes) = length boxes /\
  (boxes = [] -> box_normalizer W H boxes = []) /\
  (forall i cx cy w h, boxes !! i = Some (cx, cy, w, h) ->
     (0 <= w)%Q -> (0 <= h)%Q ->
     exists x1 y1 x2 y2,
       box_normalizer W H boxes !! i = Some (x1, y1, x2, y2) /\
       (x1 <= x2)%Z /\ (y1 <= y2)%Z).
Proof.
  intros HW HH.
  assert (E : box_normalizer W H boxes = map (pixel_box_rounded binary32 W H) boxes)
    by apply box_normalizer_with_map.
  repeat split.
  - exact E.
  - rewrite box_normalizer_with_map. apply map_ext. intros b. apply pixel_box_rounded_id.
  - rewrite E. apply length_map.
  - intros ->. reflexivity.
  - intros i cx cy w h Hi Hw Hh.
    destruct (pixel_box_rounded binary32 W H (cx, cy, w, h)) as [[[x1 y1] x2] y2] eqn:Ep.
    exists x1, y1, x2, y2. split.
    + rewrite E, list_lookup_fmap, Hi. exact (f_equal Some Ep).
    + eapply pixel_box_rounded_ordered; [| | exact Hw | exact Hh | exact Ep]; lia.
Qed.

Lemma box_normalizer_rounded_witness :
  (0 < 1000)%Z /\ (0 < 1000)%Z /\
  box_normalizer 1000 1000 [(1 # 2, 1 # 2, 1 # 10, 1 # 10)%Q]
  = map (pixel_box_rounded binary32 1000 1000) [(1 # 2, 1 # 2, 1 # 10, 1 # 10)%Q].
Proof.
  split; [lia | split; [lia |]].
  apply (box_normalizer_rounded 1000 1000 [(1 # 2, 1 # 2, 1 # 10, 1 # 10)%Q]); lia.
Defined.

(** * Region Filter *)

Section RegionFilterFacts.

Lemma wrap64_small z : (- 2 ^ 63 <= z < 2 ^ 63)%Z -> wrap64 z = z.
Proof. intros H. unfold wrap64. rewrite Z.mod_small; lia. Qed.

Lemma box_area_exact x1 y1 x2 y2 :
  (Z.abs (x2 - x1) < 2 ^ 26)%Z -> (Z.abs (y2 - y1) < 2 ^ 26)%Z ->
  box_area (x1, y1, x2, y2) = ((x2 - x1) * (y2 - y1))%Z /\
  (Z.abs ((x2 - x1) * (y2 - y1)) < 2 ^ 53)%Z.
Proof.
  intros Hx Hy. unfold box_area.
  assert (Hp : (Z.abs ((x2 - x1) * (y2 - y1)) < 2 ^ 52)%Z).
  { rewrite Z.abs_mul. change (2 ^ 52)%Z with (2 ^ 26 * 2 ^ 26)%Z.
    apply Z.mul_lt_mono_nonneg; lia. }
  rewrite (wrap64_small (x2 - x1)) by lia.
  rewrite (wrap64_small (y2 - y1)) by lia.
  rewrite wrap64_small by lia. split; [reflexivity | lia].
Qed.

Lemma image_area img :
  (Z.of_nat (width img) < 2 ^ 26)%Z -> (Z.of_nat (height img) < 2 ^ 26)%Z ->
  math_prod (image_size img) = (Z.of_nat (width img) * Z.of_nat (height img))%Z /\
  (Z.abs (Z.of_nat (width img) * Z.of_nat (height img)) < 2 ^ 53)%Z.
Proof.
  intros Hw Hh. split.
  - unfold math_prod, image_size. cbn [fold_left]. lia.
  - rewrite Z.abs_mul.
    assert ((Z.abs (Z.of_nat (width img)) * Z.abs (Z.of_nat (height img)) < 2 ^ 26 * 2 ^ 26)%Z).
    { apply Z.mul_lt_mono_nonneg; lia. }
    change (2 ^ 53)%Z with (2 * (2 ^ 26 * 2 ^ 26))%Z. lia.
Qed.

Lemma binary64_Z n : (Z.abs n < 2 ^ 53)%Z -> (binary64 (inject_Z n) == inject_Z n)%Q.
Proof. intros H. unfold binary64. apply round_float_Z; lia. Qed.

Lemma binary64_quarter n :
  (Z.abs n < 2 ^ 53)%Z -> (binary64 ((1 # 4) * inject_Z n) == (1 # 4) * inject_Z n)%Q.
Proof.
  intros H. assert (E : ((1 # 4) * inject_Z n == inject_Z n * pow2 (-2))%Q).
  { assert (E4 : (pow2 (-2) == 1 # 4)%Q) by reflexivity. rewrite E4. ring. }
  unfold binary64. rewrite E. apply round_float_exact; lia.
Qed.

Lemma Qlt_bool_iff x y : Qlt_bool x y = true <-> (x < y)%Q.
Proof.
  unfold Qlt_bool. rewrite negb_true_iff. split.
  - intros E. apply Qnot_le_lt. intros C. apply Qle_bool_iff in C. congruence.
  - intros L. destruct (Qle_bool y x) eqn:E; [|reflexivity].
    apply Qle_bool_iff in E. exfalso. apply (Qlt_not_le _ _ L E).
Qed.

(** Within the range where int64 and float64 are exact, the condition of
    the [if] is the comparison of the two areas. *)
Lemma region_filter_true_iff img x1 y1 x2 y2 :
  (Z.abs (x2 - x1) < 2 ^ 26)%Z -> (Z.abs (y2 - y1) < 2 ^ 26)%Z ->
  (Z.of_nat (width img) < 2 ^ 26)%Z -> (Z.of_nat (height img) < 2 ^ 26)%Z ->
  region_filter (image_size img) (x1, y1, x2, y2) = true <->
  (inject_Z ((x2 - x1) * (y2 - y1))
   < (1 # 4) * inject_Z (Z.of_nat (width img) * Z.of_nat (height img)))%Q.
Proof.
  intros Hx Hy Hw Hh. unfold region_filter.
  destruct (box_area_exact x1 y1 x2 y2 Hx Hy) as [Ea Ba].
  destruct (image_area img Hw Hh) as [Ei Bi].
  rewrite Ea, Ei, Qlt_bool_iff.
  rewrite (binary64_Z _ Ba). rewrite (binary64_Z _ Bi). rewrite (binary64_quarter _ Bi).
  reflexivity.
Qed.

(** A write that returns has put the content under one path and changed
    nothing else. *)
Lemma write_file_inr path content w w' :
  write_file path content w = inr w' ->
  exists key,
    w' = {| dirs := dirs w; files := <[key := content]> (files w);
            sam2_calls := sam2_calls w |}.
Proof.
  unfold write_file. destruct (walk _ _ _) as [d|]; [|discriminate].
  intros E. injection E as <-. eexists. reflexivity.
Qed.

Lemma write_file_calls path content w w' :
  write_file path content w = inr w' -> sam2_calls w' = sam2_calls w.
Proof. intros E. destruct (write_file_inr _ _ _ _ E) as [key ->]. reflexivity. Qed.

Lemma crop_and_save_inr M P img m idx b w w' :
  crop_and_save M P img m idx b w = inr w' ->
  exists key content,
    w' = {| dirs := dirs w; files := <[key := content]> (files w);
            sam2_calls := sam2_calls w |}.
Proof.
  unfold crop_and_save. destruct (masked_object img m b); [|discriminate].
  destruct (no_pixel _); [discriminate|].
  destruct (png_save M _) as [content|]; [|discriminate].
  intros E. destruct (write_file_inr _ _ _ _ E) as [key ->]. eauto.
Qed.

Lemma crop_and_save_calls M P img m idx b w w' :
  crop_and_save M P img m idx b w = inr w' -> sam2_calls w' = sam2_calls w.
Proof. intros E. destruct (crop_and_save_inr _ _ _ _ _ _ _ _ E) as (key & content & ->). reflexivity. Qed.

(** A box that passes the filter is handed to the segmenter: the step
    cannot leave the world as it found it. *)
Lemma detection_step_retained M P img idx b w w' :
  region_filter (image_size img) b = true ->
  detection_step M P img idx b w = inr w' ->
  sam2_calls w' = sam2_calls w ++ [b].
Proof.
  intros Hf. unfold detection_step. rewrite Hf.
  destruct (sam2_predict M img b !! 0%nat); [|discriminate].
  intros E. apply crop_and_save_calls in E. exact E.
Qed.

Lemma detection_step_rejected M P img idx b w :
  region_filter (image_size img) b = false ->
  detection_step M P img idx b w = inr w.
Proof. intros Hf. unfold detection_step. rewrite Hf. reflexivity. Qed.

End RegionFilterFacts.

(** C2: a Pixel Box is rejected exactly when its area is at least 0.25 times
    the pixel area of the source image (within the range where the int64
    area and the float64 threshold are exact: sides below 2^26); a rejected
    box is skipped, that is the step returns the world it was given, with
    no segmenter call and no file written, and only a rejected box is. *)
Theorem region_filter_rule (M : adapters) (P : string) (img : image)
    (x1 y1 x2 y2 : Z) (idx : nat) (w : world) :
  (Z.abs (x2 - x1) < 2 ^ 26)%Z -> (Z.abs (y2 - y1) < 2 ^ 26)%Z ->
  (Z.of_nat (width img) < 2 ^ 26)%Z -> (Z.of_nat (height img) < 2 ^ 26)%Z ->
  (region_filter (image_size img) (x1, y1, x2, y2) = false <->
   ((1 # 4) * inject_Z (Z.of_nat (width img) * Z.of_nat (height img))
    <= inject_Z ((x2 - x1) * (y2 - y1)))%Q) /\
  (detection_step M P img idx (x1, y1, x2, y2) w = inr w <->
   region_filter (image_size img) (x1, y1, x2, y2) = false).
Proof.
  intros Hx Hy Hw Hh.
  pose proof (region_filter_true_iff img x1 y1 x2 y2 Hx Hy Hw Hh) as Ht.
  split.
  - destruct (region_filter (image_size img) (x1, y1, x2, y2)).
    + split; [discriminate|]. intros Hle. exfalso.
      apply (Qlt_not_le _ _ (proj1 Ht eq_refl) Hle).
    + split; [|reflexivity]. intros _. apply Qnot_lt_le. intros C.
      apply Ht in C. discriminate.
  - split.
    + intros E. destruct (region_filter (image_size img) (x1, y1, x2, y2)) eqn:Hf; [|reflexivity].
      apply (detection_step_retained M P img idx _ w w Hf) in E.
      exfalso. apply (f_equal length) in E. rewrite length_app in E. cbn in E. lia.
    + apply detection_step_rejected.
Qed.

Lemma region_filter_rule_witness :
  (region_filter (image_size (uniform_image 1000 1000 [0; 0; 0]%Z)) (200, 200, 800, 800)%Z = false <->
   ((1 # 4) * inject_Z (Z.of_nat (width (uniform_image 1000 1000 [0; 0; 0]%Z))
                        * Z.of_nat (height (uniform_image 1000 1000 [0; 0; 0]%Z)))
    <= inject_Z ((800 - 200) * (800 - 200)))%Q) /\
  (detection_step (sample_models lenient_save) IMAGE_PATH (uniform_image 1000 1000 [0; 0; 0]%Z)
     0 (200, 200, 800, 800)%Z empty_world = inr empty_world <->
   region_filter (image_size (uniform_image 1000 1000 [0; 0; 0]%Z)) (200, 200, 800, 800)%Z = false).
Proof.
  apply (region_filter_rule (sample_models lenient_save) IMAGE_PATH
           (uniform_image 1000 1000 [0; 0; 0]%Z) 200 200 800 800 0%nat empty_world);
    vm_compute; reflexivity.
Defined.

(** C3 (the claim as stated fails): on a 1000 x 1000 image the box
    (0, 0, 500, 500) has exactly 25% of the image area; the condition of
    the [if] is false for it, and the step skips it. *)
Lemma quarter_area_box_is_rejected :
  let img := uniform_image 1000 1000 [0; 0; 0]%Z in
  (4 * ((500 - 0) * (500 - 0)) = Z.of_nat (width img) * Z.of_nat (height img))%Z /\
  region_filter (image_size img) (0, 0, 500, 500)%Z = false /\
  detection_step (sample_models lenient_save) IMAGE_PATH img 0 (0, 0, 500, 500)%Z empty_world
  = inr empty_world.
Proof. vm_compute. repeat split; reflexivity. Qed.

(** C3 (amended): a Pixel Box is retained exactly when its area is strictly
    less than 25% of the image area; a box whose area is exactly 25% of
    the image area is rejected, and so is a box at 26% (same exactness
    range as for the filter rule). *)
Theorem region_filter_boundary (img : image) (x1 y1 x2 y2 : Z) :
  (Z.abs (x2 - x1) < 2 ^ 26)%Z -> (Z.abs (y2 - y1) < 2 ^ 26)%Z ->
  (Z.of_nat (width img) < 2 ^ 26)%Z -> (Z.of_nat (height img) < 2 ^ 26)%Z ->
  let area := ((x2 - x1) * (y2 - y1))%Z in
  let total := (Z.of_nat (width img) * Z.of_nat (height img))%Z in
  (region_filter (image_size img) (x1, y1, x2, y2) = true <-> (4 * area < total)%Z) /\
  ((4 * area = total)%Z -> region_filter (image_size img) (x1, y1, x2, y2) = false) /\
  ((0 < total)%Z -> (100 * area = 26 * total)%Z ->
   region_filter (image_size img) (x1, y1, x2, y2) = false).
Proof.
  intros Hx Hy Hw Hh area total.
  assert (Ht : region_filter (image_size img) (x1, y1, x2, y2) = true <-> (4 * area < total)%Z).
  { rewrite (region_filter_true_iff img x1 y1 x2 y2 Hx Hy Hw Hh).
    fold area total. rewrite (Zlt_Qlt (4 * area) total), inject_Z_mult.
    change (inject_Z 4) with 4%Q. split; intros H; lra. }
  split; [exact Ht|]. split.
  - intros E. destruct (region_filter _ _); [|reflexivity]. assert (4 * area < total)%Z by (apply Ht; reflexivity). lia.
  - intros Hpos E. destruct (region_filter _ _); [|reflexivity]. assert (4 * area < total)%Z by (apply Ht; reflexivity). lia.
Qed.

Lemma region_filter_boundary_witness :
  let img := uniform_image 1000 1000 [0; 0; 0]%Z in
  (region_filter (image_size img) (0, 0, 500, 500)%Z = true <->
   (4 * ((500 - 0) * (500 - 0)) < Z.of_nat (width img) * Z.of_nat (height img))%Z) /\
  ((4 * ((500 - 0) * (500 - 0)) = Z.of_nat (width img) * Z.of_nat (height img))%Z ->
   region_filter (image_size img) (0, 0, 500, 500)%Z = false) /\
  ((0 < Z.of_nat (width img) * Z.of_nat (height img))%Z ->
   (100 * ((500 - 0) * (500 - 0)) = 26 * (Z.of_nat (width img) * Z.of_nat (height img)))%Z ->
   region_filter (image_size img) (0, 0, 500, 500)%Z = false).
Proof.
  apply (region_filter_boundary (uniform_image 1000 1000 [0; 0; 0]%Z) 0 0 500 500);
    vm_compute; reflexivity.
Defined.

(** * Crop Compositor *)

Section CropFacts.

Lemma masked_object_Some (h w : nat) (img : image) (m : mask) x1 y1 x2 y2 :
  is_shape h w img = true -> is_shape h w m = true ->
  exists a, where0 (expand_dims_last (mul_scalar m 255)) img = Some a /\
            is_shape h w a = true /\
            masked_object img m (x1, y1, x2, y2) = Some (slice2 y1 y2 x1 x2 a).
Proof.
  intros Hi Hm. destruct (where0_is_Some h w img m Hi Hm) as [a Ha].
  exists a. split; [exact Ha|]. split; [eapply where0_shape; eassumption|].
  unfold masked_object. rewrite Ha. reflexivity.
Qed.

Lemma slice_window (n : nat) start stop (i : nat) :
  (i < Z.to_nat (slice_len (Z.of_nat n) start stop))%nat ->
  (Z.to_nat (slice_bound (Z.of_nat n) start) + i < n)%nat.
Proof.
  intros Hi. unfold slice_len in Hi.
  pose proof (slice_bound_range (Z.of_nat n) start ltac:(lia)).
  pose proof (slice_bound_range (Z.of_nat n) stop ltac:(lia)). lia.
Qed.

(** On the side of the origin a bound is clipped only when it is not
    negative; on the far side every bound is. *)
Lemma slice_clips_far_edge n start stop :
  (0 <= n)%Z -> (0 <= start)%Z -> (0 <= stop)%Z ->
  slice_bound n start = Z.min start n /\ slice_len n start stop = clipped_len n (Z.min start n) stop.
Proof.
  intros Hn H1 H2. unfold slice_len, slice_bound, clipped_len.
  destruct (Z.ltb_spec start 0); destruct (Z.ltb_spec stop 0); lia.
Qed.



End CropFacts.




(** C5 (the code at a failing input): the detection (0.1, 0.5, 0.3, 0.2) on a
    1000 x 1000 image has the Pixel Box (-50, 400, 250, 600), which
    overhangs the left edge.  Clipped to the image it covers the columns
    0 to 249; the crop the cell produces has 200 rows and no column,
    because the slice reads the bound -50 as 50 columns before the right
    edge. *)
Theorem crop_wraps_negative_corner (img : image) (m : mask) :
  is_shape 1000 1000 img = true -> is_shape 1000 1000 m = true ->
  box_normalizer 1000 1000 [tensor_row (1 # 10) (1 # 2) (3 # 10) (1 # 5)] = [(-50, 400, 250, 600)%Z] /\
  clipped_len 1000 (-50) 250 = 250%Z /\
  slice_bound 1000 (-50) = 950%Z /\
  exists out,
    masked_object img m (-50, 400, 250, 600)%Z = Some out /\
    is_shape 200 0 out = true.
Proof.
  intros Hi Hm. split; [vm_compute; reflexivity|].
  split; [reflexivity|]. split; [reflexivity|].
  destruct (masked_object_Some 1000 1000 img m (-50) 400 250 600 Hi Hm) as (a & _ & Hsa & Hout).
  exists (slice2 400 600 (-50) 250 a). split; [exact Hout|].
  exact (slice2_shape 1000 1000 a 400 600 (-50) 250 Hsa).
Qed.

Lemma crop_wraps_negative_corner_witness :
  is_shape 1000 1000 (uniform_image 1000 1000 [10; 20; 30]%Z) = true /\
  is_shape 1000 1000 (full_mask 1000 1000) = true /\
  exists out,
    masked_object (uniform_image 1000 1000 [10; 20; 30]%Z) (full_mask 1000 1000)
      (-50, 400, 250, 600)%Z = Some out /\
    is_shape 200 0 out = true.
Proof.
  assert (Hi : is_shape 1000 1000 (uniform_image 1000 1000 [10; 20; 30]%Z) = true)
    by (vm_compute; reflexivity).
  assert (Hm : is_shape 1000 1000 (full_mask 1000 1000) = true)
    by (vm_compute; reflexivity).
  split; [exact Hi|]. split; [exact Hm|].
  apply (crop_wraps_negative_corner _ _ Hi Hm).
Defined.

(** * Facts about the loop over the detections *)

Section LoopFacts.
Context (M : adapters) (P : string) (img : image).
Implicit Types (w : world) (fs : gmap string (list Byte.byte)) (xyxy : list bbox).

Hypothesis P_local : contains "/" P = false.

Lemma write_file_tempdir idx content w :
  "tempdir" ∈ dirs w ->
  write_file (image_path P idx) content w
  = inr {| dirs := dirs w; files := <[image_path P idx := content]> (files w);
           sam2_calls := sam2_calls w |}.
Proof.
  intros Hd. unfold write_file. rewrite (image_path_split P idx P_local).
  cbn [removelast walk String.eqb Ascii.eqb Bool.eqb orb app join_slash List.last].
  destruct (decide _) as [_ | C]; [|contradiction].
  rewrite image_path_name. reflexivity.
Qed.

Lemma write_file_no_tempdir idx content w :
  "tempdir" ∉ dirs w ->
  write_file (image_path P idx) content w = inl FileNotFoundError.
Proof.
  intros Hd. unfold write_file. rewrite (image_path_split P idx P_local).
  cbn [removelast walk String.eqb Ascii.eqb Bool.eqb orb app join_slash List.last].
  destruct (decide _) as [C | _]; [contradiction | reflexivity].
Qed.

Lemma detection_step_writes idx b w content :
  "tempdir" ∈ dirs w ->
  region_filter (image_size img) b = true ->
  crop_content M img b = Some content ->
  detection_step M P img idx b w
  = inr {| dirs := dirs w; files := <[image_path P idx := content]> (files w);
           sam2_calls := sam2_calls w ++ [b] |}.
Proof.
  intros Hd Hf Hc. unfold detection_step, crop_and_save. rewrite Hf.
  unfold crop_content in Hc.
  destruct (sam2_predict M img b !! 0%nat) as [mask0|]; [|discriminate].
  destruct (masked_object img mask0 b) as [crop|]; [|discriminate].
  destruct (no_pixel crop); [discriminate|].
  rewrite Hc. apply (write_file_tempdir idx content
    {| dirs := dirs w; files := files w; sam2_calls := sam2_calls w ++ [b] |} Hd).
Qed.

(** The loop, when every retained box gets its crop. *)
Lemma detection_loop_writes idx xyxy w :
  "tempdir" ∈ dirs w ->
  (forall b, b ∈ xyxy -> region_filter (image_size img) b = true ->
             is_Some (crop_content M img b)) ->
  detection_loop M P img idx xyxy w
  = inr {| dirs := dirs w;
           files := written_files M P img idx xyxy (files w);
           sam2_calls := sam2_calls w ++ retained img xyxy |}.
Proof.
  intros Hd Hc. revert idx w Hd.
  induction xyxy as [|b rest IH]; intros idx w Hd; cbn [detection_loop written_files].
  - unfold retained. rewrite filter_nil, app_nil_r. destruct w; reflexivity.
  - assert (Hrest : forall b', b' ∈ rest -> region_filter (image_size img) b' = true ->
                               is_Some (crop_content M img b')).
    { intros b' Hb'. apply Hc. right. exact Hb'. }
    destruct (region_filter (image_size img) b) eqn:Hf.
    + destruct (Hc b ltac:(left) Hf) as [content Hcontent].
      rewrite (detection_step_writes idx b w content Hd Hf Hcontent), Hcontent.
      rewrite (IH Hrest) by exact Hd. cbn [dirs files sam2_calls].
      unfold retained. rewrite filter_cons_True by exact Hf.
      rewrite <- app_assoc. reflexivity.
    + rewrite (detection_step_rejected M P img idx b w Hf).
      rewrite (IH Hrest) by exact Hd.
      unfold retained. rewrite filter_cons_False by (rewrite Hf; discriminate).
      reflexivity.
Qed.

(** A path that no later index names keeps its content. *)
Lemma written_files_other idx xyxy fs p :
  (forall j, (idx <= j)%nat -> p <> image_path P j) ->
  written_files M P img idx xyxy fs !! p = fs !! p.
Proof.
  revert idx fs. induction xyxy as [|b rest IH]; intros idx fs Hp; cbn [written_files].
  - reflexivity.
  - rewrite IH by (intros j Hj; apply Hp; lia).
    destruct (region_filter (image_size img) b); [|reflexivity].
    destruct (crop_content M img b); [|reflexivity].
    apply lookup_insert_ne. intros E. apply (Hp idx (Nat.le_refl _)). symmetry. exact E.
Qed.

Lemma written_files_ext idx xyxy fs fs' p :
  fs !! p = fs' !! p ->
  written_files M P img idx xyxy fs !! p = written_files M P img idx xyxy fs' !! p.
Proof.
  revert idx fs fs'. induction xyxy as [|b rest IH]; intros idx fs fs' E; cbn [written_files].
  - exact E.
  - apply IH. destruct (region_filter (image_size img) b); [|exact E].
    destruct (crop_content M img b); [|exact E].
    rewrite !lookup_insert. destruct (decide _); [reflexivity | exact E].
Qed.

(** The crop of the retained box at position [i] is at the path of its
    index. *)
Lemma written_files_retained idx xyxy fs i b content :
  xyxy !! i = Some b ->
  region_filter (image_size img) b = true ->
  crop_content M img b = Some content ->
  written_files M P img idx xyxy fs !! image_path P (idx + i) = Some content.
Proof.
  revert idx fs i. induction xyxy as [|b' rest IH]; intros idx fs i Hi Hf Hc; [discriminate|].
  cbn [written_files]. destruct i as [|i].
  - injection Hi as ->. rewrite Hf, Hc, Nat.add_0_r.
    rewrite written_files_other.
    + apply lookup_insert_eq.
    + intros j Hj E. apply image_path_inj in E. lia.
  - replace (idx + S i)%nat with (S idx + i)%nat by lia. apply IH; assumption.
Qed.

Lemma written_files_keeps idx xyxy fs p :
  is_Some (fs !! p) -> is_Some (written_files M P img idx xyxy fs !! p).
Proof.
  revert idx fs. induction xyxy as [|b rest IH]; intros idx fs Hp; cbn [written_files].
  - exact Hp.
  - apply IH. destruct (region_filter (image_size img) b); [|exact Hp].
    destruct (crop_content M img b); [|exact Hp].
    rewrite lookup_insert. destruct (decide _); [eexists; reflexivity | exact Hp].
Qed.

(** Writing the same crops a second time changes nothing. *)
Lemma written_files_again idx xyxy fs :
  written_files M P img idx xyxy (written_files M P img idx xyxy fs)
  = written_files M P img idx xyxy fs.
Proof.
  apply map_eq. intros p. revert idx fs.
  induction xyxy as [|b rest IH]; intros idx fs; [reflexivity|].
  cbn [written_files].
  destruct (region_filter (image_size img) b); [|apply IH].
  destruct (crop_content M img b) as [content|]; [|apply IH].
  destruct (decide (p = image_path P idx)) as [-> | Hp].
  - rewrite !written_files_other by (intros j Hj E; apply image_path_inj in E; lia).
    rewrite !lookup_insert_eq. reflexivity.
  - rewrite <- (IH (S idx) (<[image_path P idx := content]> fs)).
    apply written_files_ext. apply lookup_insert_ne. intros E. apply Hp. symmetry. exact E.
Qed.

End LoopFacts.

Section UnwritableFacts.
Context (M : adapters) (P : string) (img : image).

(** When the artifact paths cannot be written, the loop stops at the
    first box that passes the filter. *)
Lemma detection_loop_unwritable idx xyxy (w : world) :
  (forall i content w', dirs w' = dirs w ->
     write_file (image_path P i) content w' = inl FileNotFoundError) ->
  (forall b, b ∈ retained img xyxy -> is_Some (crop_content M img b)) ->
  match retained img xyxy with
  | [] => detection_loop M P img idx xyxy w = inr w
  | b :: _ =>
      detection_loop M P img idx xyxy w = inl FileNotFoundError /\
      detection_loop_state M P img idx xyxy w
      = ({| dirs := dirs w; files := files w; sam2_calls := sam2_calls w ++ [b] |},
         Some FileNotFoundError)
  end.
Proof.
  intros Hw. revert idx. induction xyxy as [|b rest IH]; intros idx Hc; [reflexivity|].
  unfold retained in *. cbn [detection_loop detection_loop_state].
  destruct (region_filter (image_size img) b) eqn:Hf.
  - rewrite filter_cons_True in * by exact Hf.
    destruct (Hc b ltac:(left)) as [content Hcontent].
    unfold crop_content in Hcontent.
    unfold detection_step, detection_step_state, crop_and_save. rewrite Hf.
    destruct (sam2_predict M img b !! 0%nat) as [mask0|]; [|discriminate].
    destruct (masked_object img mask0 b) as [crop|]; [|discriminate].
    destruct (no_pixel crop); [discriminate|].
    rewrite Hcontent, Hw by reflexivity. auto.
  - rewrite filter_cons_False in * by (rewrite Hf; discriminate).
    rewrite (detection_step_rejected M P img idx b w Hf).
    unfold detection_step_state. rewrite Hf. apply IH. exact Hc.
Qed.

End UnwritableFacts.

Section SubdirectoryFacts.

Lemma String_eqb_false a b : a <> b -> String.eqb a b = false.
Proof. intros H. apply String.eqb_neq. exact H. Qed.

(** A path into a subdirectory of [tempdir] that does not exist. *)
Lemma write_file_no_subdir d name content (w : world) :
  contains "/" d = false -> d <> EmptyString -> d <> "." -> d <> ".." ->
  contains "/" name = false ->
  ("tempdir/" +:+ d) ∉ dirs w ->
  write_file ("tempdir/" +:+ d +:+ "/" +:+ name) content w = inl FileNotFoundError.
Proof.
  intros Hd H0 H1 H2 Hn Hdir. unfold write_file.
  assert (E : split_slash ("tempdir/" +:+ d +:+ "/" +:+ name) = ["tempdir"; d; name]).
  { change ("tempdir/" +:+ d +:+ "/" +:+ name) with ("tempdir" +:+ String "/" (d +:+ String "/" name)).
    rewrite !split_slash_app, (split_slash_plain d Hd), (split_slash_plain name Hn). reflexivity. }
  rewrite E. cbn [removelast].
  change (walk (dirs w) [] ["tempdir"; d])
    with (if decide ("tempdir" ∈ dirs w) then walk (dirs w) ["tempdir"] [d] else None).
  destruct (decide ("tempdir" ∈ dirs w)); [|reflexivity].
  cbn [walk]. rewrite (String_eqb_false d EmptyString H0), (String_eqb_false d "." H1),
    (String_eqb_false d ".." H2). cbn [orb app join_slash].
  destruct (decide _) as [C | _]; [contradiction | reflexivity].
Qed.

End SubdirectoryFacts.

Section ModelFacts.
Context (M : adapters) (img : image).
Hypothesis img_rect : is_shape (height img) (width img) img = true.
Hypothesis segmenter_ok : segmenter_responds M img.
Hypothesis writer_ok : forall a, is_Some (png_save M a).

(** An array with a row and a column has a pixel. *)
Lemma shaped_has_pixel {A} (r c : nat) (a : list (list A)) :
  is_shape (S r) (S c) a = true -> no_pixel a = false.
Proof.
  intros Hs. apply is_shape_spec in Hs. destruct Hs as [Hl Hr].
  destruct a as [|row a]; [discriminate|].
  pose proof (Hr 0%nat row eq_refl) as Hrow.
  destruct row as [|x row]; [discriminate|]. reflexivity.
Qed.

(** An array without row or without column has none. *)
Lemma unshaped_no_pixel {A} (r c : nat) (a : list (list A)) :
  is_shape r c a = true -> r = 0%nat \/ c = 0%nat -> no_pixel a = true.
Proof.
  intros Hs Hz. apply is_shape_spec in Hs. destruct Hs as [Hl Hr]. unfold no_pixel.
  assert (E : concat a = []).
  { destruct Hz as [-> | ->].
    - apply length_zero_iff_nil in Hl. subst a. reflexivity.
    - clear Hl. induction a as [|row a IH]; [reflexivity|]. cbn [concat].
      pose proof (Hr 0%nat row eq_refl) as Hrow. apply length_zero_iff_nil in Hrow. subst row.
      apply IH. intros i row Hi. apply (Hr (S i) row). exact Hi. }
  rewrite E. reflexivity.
Qed.

(** A box whose window has a row and a column gets its crop written. *)
Lemma crop_content_is_Some x1 y1 x2 y2 :
  (0 < slice_len (Z.of_nat (height img)) y1 y2)%Z ->
  (0 < slice_len (Z.of_nat (width img)) x1 x2)%Z ->
  is_Some (crop_content M img (x1, y1, x2, y2)).
Proof.
  intros Hrows Hcols.
  destruct (segmenter_ok (x1, y1, x2, y2)) as (mask0 & Hm & Hshape).
  destruct (masked_object_Some _ _ img mask0 x1 y1 x2 y2 img_rect Hshape) as (a & _ & Hsa & Ha).
  unfold crop_content. rewrite Hm. cbn [lookup list_lookup]. rewrite Ha.
  pose proof (slice2_shape _ _ a y1 y2 x1 x2 Hsa) as Hso.
  destruct (Z.to_nat (slice_len (Z.of_nat (height img)) y1 y2)) as [|r] eqn:Er; [lia|].
  destruct (Z.to_nat (slice_len (Z.of_nat (width img)) x1 x2)) as [|c] eqn:Ec; [lia|].
  rewrite (shaped_has_pixel r c _ Hso). apply writer_ok.
Qed.

End ModelFacts.

Section DirectoryFacts.

Lemma makedirs_tempdir w :
  "tempdir" ∉ dom (files w) ->
  makedirs_exist_ok "tempdir" w
  = inr {| dirs := {["tempdir"]} ∪ dirs w; files := files w; sam2_calls := sam2_calls w |}.
Proof.
  intros H. unfold makedirs_exist_ok. destruct (decide _); [contradiction | reflexivity].
Qed.

(** The listing holds each matching file once. *)
Lemma glob_png_spec w p :
  p ∈ glob_png w <-> is_Some (files w !! p) /\ glob_tempdir_png p = true.
Proof.
  unfold glob_png. rewrite list_elem_of_filter, list_elem_of_fmap. split.
  - intros [Hg ([k v] & -> & Hin)]. apply elem_of_map_to_list in Hin.
    split; [eexists; exact Hin | exact Hg].
  - intros [[v Hv] Hg]. split; [exact Hg|]. exists (p, v). split; [reflexivity|].
    apply elem_of_map_to_list. exact Hv.
Qed.

Lemma glob_png_NoDup w : NoDup (glob_png w).
Proof. unfold glob_png. apply NoDup_filter. apply NoDup_fst_map_to_list. Qed.

Lemma classify_loop_map M w images :
  (forall p, p ∈ images ->
     exists content, files w !! p = Some content /\ is_Some (imread M content)) ->
  exists answers,
    classify_loop M w images = inr answers /\
    map fst answers = images /\
    forall p content, p ∈ images -> files w !! p = Some content ->
      (p, chat M prompt content) ∈ answers.
Proof.
  induction images as [|q rest IH]; intros Hall; cbn [classify_loop].
  - exists []. repeat split. intros p content Hp. inversion Hp.
  - destruct (Hall q ltac:(left)) as (c & Hc & [decoded Hd]). rewrite Hc, Hd.
    destruct IH as (answers & Ha & Hfst & Hin).
    { intros p Hp. apply Hall. right. exact Hp. }
    rewrite Ha. exists ((q, chat M prompt c) :: answers). split; [reflexivity|].
    split; [cbn; rewrite Hfst; reflexivity|].
    intros p content Hp Hcontent. apply elem_of_cons in Hp. destruct Hp as [-> | Hp].
    + rewrite Hc in Hcontent. injection Hcontent as <-. left.
    + right. eapply Hin; eassumption.
Qed.

Lemma classify_cell_spec M w :
  listed_files_decode M w ->
  exists answers,
    classify_cell M w = inr answers /\
    map fst answers = glob_png w /\
    forall p content, p ∈ glob_png w -> files w !! p = Some content ->
      (p, chat M prompt content) ∈ answers.
Proof.
  intros Hdec. unfold classify_cell. apply classify_loop_map.
  intros p Hp. pose proof Hp as Hg. apply glob_png_spec in Hg. destruct Hg as [[c Hc] _].
  exists c. split; [exact Hc|]. exact (Hdec p c Hp Hc).
Qed.

(** The cell stops at the first listed file that does not decode. *)
Lemma classify_loop_undecodable M w images p content :
  (forall q, q ∈ images -> is_Some (files w !! q)) ->
  p ∈ images -> files w !! p = Some content -> imread M content = None ->
  classify_loop M w images = inl Cv2Error.
Proof.
  induction images as [|q rest IH]; intros Hall Hp Hc Hn; [inversion Hp|].
  cbn [classify_loop]. destruct (Hall q ltac:(left)) as [c Hq]. rewrite Hq.
  destruct (imread M c) as [decoded|] eqn:Hd; [|reflexivity].
  rewrite IH; [reflexivity | | | exact Hc | exact Hn].
  - intros q' Hq'. apply Hall. right. exact Hq'.
  - apply elem_of_cons in Hp. destruct Hp as [-> | Hp]; [|exact Hp].
    rewrite Hq in Hc. injection Hc as ->. rewrite Hn in Hd. discriminate.
Qed.

Lemma NoDup_all_equal {A} (l : list A) a :
  NoDup l -> a ∈ l -> (forall x, x ∈ l -> x = a) -> l = [a].
Proof.
  intros Hnd Ha Hall. destruct l as [|x l]; [inversion Ha|].
  assert (x = a) by (apply Hall; left). subst x.
  destruct l as [|y l]; [reflexivity|].
  assert (y = a) by (apply Hall; right; left). subst y.
  apply NoDup_cons in Hnd. destruct Hnd as [Hn _]. exfalso. apply Hn. left.
Qed.

End DirectoryFacts.

(** * Orchestration *)

Section EmptyCropFacts.



End EmptyCropFacts.




Section ScenarioFacts.

Lemma shape_dims (h w : nat) (img : image) :
  is_shape (S h) w img = true -> height img = S h /\ width img = w.
Proof.
  intros Hs. apply is_shape_spec in Hs. destruct Hs as [Hl Hr].
  split; [exact Hl|]. destruct img as [|row img]; [discriminate|].
  apply (Hr 0%nat row). reflexivity.
Qed.

Lemma single_answer (answers : list (string * string)) p a :
  map fst answers = [p] -> (p, a) ∈ answers -> answers = [(p, a)].
Proof.
  intros Hf Hin. destruct answers as [|x [|y l]]; try discriminate.
  apply list_elem_of_singleton in Hin. subst x. reflexivity.
Qed.

Lemma pretty_0 : pretty 0%nat = "0".
Proof. vm_compute. reflexivity. Qed.

Lemma image_path_0 p : image_path p 0 = "tempdir/" +:+ (splitext p).1 +:+ "_0.png".
Proof. unfold image_path. rewrite pretty_0. reflexivity. Qed.

End ScenarioFacts.

(** C7: on a 1000 x 1000 image named by a visible file of the working
    directory, with the single Detection (0.5, 0.5, 0.1, 0.1), as the
    float32 row the detector returns: the Pixel Box is
    (450, 450, 550, 550), of area 10,000; it passes the filter; the
    segmenter is asked once, for that box; its 100 x 100 crop is the one
    file the run writes, [tempdir/{stem}_0.png] (the segmenter returning a
    mask of the image's shape and the writer encoding a 100 x 100 array);
    the classification holds
    exactly one answer for that file, and no other answer when the
    directory held no .png file before (the image reader decoding what
    the writer encoded, and the .png files the directory held before). *)
Theorem end_to_end_retained (M : adapters) (P : string) (img : image) (w0 : world) :
  plain_name P = true ->
  is_shape 1000 1000 img = true ->
  segmenter_responds M img ->
  writer_accepts M 100 100 ->
  reader_decodes_writer M ->
  "tempdir" ∉ dom (files w0) ->
  listed_files_decode M w0 ->
  let b : bbox := (450, 450, 550, 550)%Z in
  let path := "tempdir/" +:+ (splitext P).1 +:+ "_0.png" in
  exists mask0 crop content answers w2,
    notebook M P img [tensor_row (1 # 2) (1 # 2) (1 # 10) (1 # 10)] w0 = inr (answers, w2) /\
    box_normalizer 1000 1000 [tensor_row (1 # 2) (1 # 2) (1 # 10) (1 # 10)] = [b] /\
    box_normalizer 1000 1000 [(1 # 2, 1 # 2, 1 # 10, 1 # 10)%Q] = [b] /\
    ((550 - 450) * (550 - 450) = 10000)%Z /\
    region_filter (image_size img) b = true /\
    sam2_calls w2 = sam2_calls w0 ++ [b] /\
    sam2_predict M img b = [mask0] /\
    masked_object img mask0 b = Some crop /\
    is_shape 100 100 crop = true /\
    png_save M crop = Some content /\
    files w2 = <[path := content]> (files w0) /\
    (path, chat M prompt content) ∈ answers /\
    NoDup (map fst answers) /\
    (glob_png w0 = [] -> answers = [(path, chat M prompt content)]).
Proof.
  intros HP Hs Hsam Hsave Hread Hdir Hdec0 b path.
  destruct (shape_dims 999 1000 img Hs) as [Hh Hw].
  assert (Hslash : contains "/" P = false).
  { unfold plain_name in HP. apply andb_true_iff in HP. destruct HP as [HP _].
    apply negb_true_iff in HP. exact HP. }
  assert (Hrect : is_shape (height img) (width img) img = true) by (rewrite Hh, Hw; exact Hs).
  assert (Hsize : image_size img = [1000; 1000]%Z).
  { unfold image_size. rewrite Hh, Hw. reflexivity. }
  assert (Hf : region_filter (image_size img) b = true) by (rewrite Hsize; vm_compute; reflexivity).
  assert (Hbox : box_normalizer 1000 1000 [tensor_row (1 # 2) (1 # 2) (1 # 10) (1 # 10)] = [b])
    by (vm_compute; reflexivity).
  destruct (Hsam b) as (mask0 & Hmask & Hmshape).
  rewrite Hh, Hw in Hmshape.
  destruct (masked_object_Some 1000 1000 img mask0 450 450 550 550 Hs Hmshape)
    as (a & _ & Hsa & Hcrop).
  pose proof (slice2_shape 1000 1000 a 450 550 450 550 Hsa) as Hcshape.
  destruct (Hsave (slice2 450 550 450 550 a) Hcshape) as [content Hcontent].
  assert (Hcc : crop_content M img b = Some content).
  { unfold crop_content. rewrite Hmask. cbn [lookup list_lookup]. unfold b. rewrite Hcrop.
    rewrite (shaped_has_pixel 99 99 _ Hcshape). exact Hcontent. }
  set (w2 := {| dirs := {["tempdir"]} ∪ dirs w0;
                files := <[path := content]> (files w0);
                sam2_calls := sam2_calls w0 ++ [b] |}).
  assert (Hloop : detection_loop M P img 0 [b]
                    {| dirs := {["tempdir"]} ∪ dirs w0; files := files w0;
                       sam2_calls := sam2_calls w0 |} = inr w2).
  { cbn [detection_loop].
    rewrite (detection_step_writes M P img Hslash 0 b _ content);
      [rewrite (image_path_0 P); reflexivity | | exact Hf | exact Hcc].
    cbn [dirs]. apply elem_of_union_l, elem_of_singleton_2. reflexivity. }
  assert (Hdec2 : listed_files_decode M w2).
  { intros p c Hp Hc. cbn [files w2] in Hc.
    destruct (decide (p = path)) as [-> | Hne].
    - rewrite lookup_insert_eq in Hc. injection Hc as <-. exact (Hread _ _ Hcontent).
    - rewrite lookup_insert_ne in Hc by (intros E; apply Hne; symmetry; exact E).
      apply (Hdec0 p c); [|exact Hc].
      apply glob_png_spec in Hp. apply glob_png_spec. split; [eexists; exact Hc | apply Hp]. }
  destruct (classify_cell_spec M w2 Hdec2) as (answers & Hans & Hfst & Hin).
  assert (Hpath : path ∈ glob_png w2).
  { apply glob_png_spec. split.
    - cbn [files w2]. rewrite lookup_insert_eq. eexists. reflexivity.
    - unfold path. rewrite <- (image_path_0 P). exact (image_path_glob P 0 HP). }
  exists mask0, (slice2 450 550 450 550 a), content, answers, w2.
  split.
  { unfold notebook, convert_cell. rewrite (makedirs_tempdir w0 Hdir), Hh, Hw.
    change (Z.of_nat 1000) with 1000%Z. rewrite Hbox, Hloop, Hans. reflexivity. }
  split; [exact Hbox|]. split; [vm_compute; reflexivity|]. split; [reflexivity|]. split; [exact Hf|].
  split; [reflexivity|]. split; [exact Hmask|]. split; [exact Hcrop|].
  split; [exact Hcshape|].
  split; [exact Hcontent|]. split; [reflexivity|].
  split; [apply Hin; [exact Hpath | cbn [files w2]; apply lookup_insert_eq]|].
  split; [rewrite Hfst; apply glob_png_NoDup|].
  intros Hfresh. apply single_answer.
  - rewrite Hfst. apply NoDup_all_equal; [apply glob_png_NoDup | exact Hpath |].
    intros p Hp. apply glob_png_spec in Hp. destruct Hp as [Hsome Hg].
    destruct (decide (p = path)) as [-> | Hne]; [reflexivity|]. exfalso.
    cbn [files w2] in Hsome. rewrite lookup_insert_ne in Hsome by (intros E; apply Hne; symmetry; exact E).
    assert (Hold : p ∈ glob_png w0) by (apply glob_png_spec; split; assumption).
    rewrite Hfresh in Hold. inversion Hold.
  - apply Hin; [exact Hpath | cbn [files w2]; apply lookup_insert_eq].
Qed.

Lemma end_to_end_retained_witness :
  exists content answers w2,
    notebook (sample_models lenient_save) IMAGE_PATH (uniform_image 1000 1000 [10; 20; 30]%Z)
      [tensor_row (1 # 2) (1 # 2) (1 # 10) (1 # 10)] empty_world = inr (answers, w2) /\
    files w2 = <["tempdir/IMG_6509_0.png" := content]> ∅ /\
    answers = [("tempdir/IMG_6509_0.png",
                chat (sample_models lenient_save) prompt content)].
Proof.
  assert (Hs : is_shape 1000 1000 (uniform_image 1000 1000 [10; 20; 30]%Z) = true)
    by (vm_compute; reflexivity).
  assert (Hm : segmenter_responds (sample_models lenient_save)
                 (uniform_image 1000 1000 [10; 20; 30]%Z)).
  { intros b. eexists. split; [reflexivity|]. vm_compute. reflexivity. }
  assert (Hw : writer_accepts (sample_models lenient_save) 100 100).
  { intros a _. eexists. reflexivity. }
  assert (Hr : reader_decodes_writer (sample_models lenient_save)).
  { intros a content E. injection E as <-. eexists. reflexivity. }
  assert (Hd : "tempdir" ∉ dom (files empty_world)).
  { cbn [files empty_world]. rewrite dom_empty_L. apply not_elem_of_empty. }
  assert (Hl : listed_files_decode (sample_models lenient_save) empty_world).
  { intros p c Hp. apply glob_png_spec in Hp. destruct Hp as [[x Hx] _].
    cbn [files empty_world] in Hx. rewrite lookup_empty in Hx. discriminate. }
  destruct (end_to_end_retained (sample_models lenient_save) IMAGE_PATH
              (uniform_image 1000 1000 [10; 20; 30]%Z) empty_world eq_refl Hs Hm Hw Hr Hd Hl)
    as (mask0 & crop & content & answers & w2 & Hrun & _ & _ & _ & _ & _ & _ & _ & _ & _ & Hfiles & _ & _ & Hone).
  exists content, answers, w2. split; [exact Hrun|]. split; [exact Hfiles|].
  apply Hone. reflexivity.
Defined.

Section ArtifactNameFacts.

Lemma image_path_plain s e idx :
  contains "/" s = false -> all_chars "." s = false ->
  contains "." e = false -> contains "/" e = false ->
  image_path (s +:+ "." +:+ e) idx = "tempdir/" +:+ s +:+ "_" +:+ pretty idx +:+ ".png".
Proof.
  intros Hs Hd He1 He2. unfold image_path.
  change (s +:+ "." +:+ e) with (EmptyString +:+ s +:+ String "." e).
  rewrite (splitext_ext EmptyString s e (or_introl eq_refl) Hs Hd He1 He2). reflexivity.
Qed.

Lemma image_path_subdir d s e idx :
  contains "/" s = false -> all_chars "." s = false ->
  contains "." e = false -> contains "/" e = false ->
  image_path (d +:+ "/" +:+ s +:+ "." +:+ e) idx
  = "tempdir/" +:+ d +:+ "/" +:+ (s +:+ "_" +:+ pretty idx +:+ ".png").
Proof.
  intros Hs Hd He1 He2. unfold image_path.
  assert (E : d +:+ "/" +:+ s +:+ "." +:+ e = (d +:+ "/") +:+ s +:+ String "." e)
    by (rewrite append_assoc; reflexivity).
  rewrite E, (splitext_ext (d +:+ "/") s e (or_intror (ex_intro _ d eq_refl)) Hs Hd He1 He2).
  cbn [fst]. rewrite !append_assoc. reflexivity.
Qed.

Lemma plain_no_slash s e :
  contains "/" s = false -> contains "/" e = false -> contains "/" (s +:+ "." +:+ e) = false.
Proof. intros Hs He. rewrite !contains_app, Hs, He. reflexivity. Qed.

(** What the loop leaves for an image named by a file of the working
    directory, in terms of the stem [os.path.splitext] returns. *)
Lemma loop_writes_stem_names (M : adapters) (P : string) (img : image)
    (boxes : list box) (w0 : world) :
  contains "/" P = false ->
  "tempdir" ∉ dom (files w0) ->
  (forall b,
     b ∈ box_normalizer (Z.of_nat (width img)) (Z.of_nat (height img)) boxes ->
     region_filter (image_size img) b = true -> is_Some (crop_content M img b)) ->
  exists xyxy w1 w2,
    convert_cell img boxes w0 = inr (xyxy, w1) /\
    detection_loop M P img 0 xyxy w1 = inr w2 /\
    dirs w2 = {["tempdir"]} ∪ dirs w0 /\
    (forall idx b, xyxy !! idx = Some b -> region_filter (image_size img) b = true ->
       exists content,
         crop_content M img b = Some content /\
         files w2 !! image_path P idx = Some content) /\
    (forall p, is_Some (files w0 !! p) -> is_Some (files w2 !! p)) /\
    (forall p, (forall idx, p <> image_path P idx) -> files w2 !! p = files w0 !! p) /\
    detection_loop M P img 0 xyxy w2
    = inr {| dirs := dirs w2; files := files w2;
             sam2_calls := sam2_calls w2 ++ retained img xyxy |}.
Proof.
  intros HP Hdir Hcc.
  set (xyxy := box_normalizer (Z.of_nat (width img)) (Z.of_nat (height img)) boxes) in *.
  set (w1 := {| dirs := {["tempdir"]} ∪ dirs w0; files := files w0;
                sam2_calls := sam2_calls w0 |}).
  assert (Hd1 : "tempdir" ∈ dirs w1).
  { cbn [dirs w1]. apply elem_of_union_l, elem_of_singleton_2. reflexivity. }
  pose proof (detection_loop_writes M P img HP 0 xyxy w1 Hd1 Hcc) as Hloop.
  set (w2 := {| dirs := dirs w1;
                files := written_files M P img 0 xyxy (files w1);
                sam2_calls := sam2_calls w1 ++ retained img xyxy |}) in Hloop.
  exists xyxy, w1, w2.
  split; [unfold convert_cell; rewrite (makedirs_tempdir w0 Hdir); reflexivity|].
  split; [exact Hloop|]. split; [reflexivity|]. split; [|split; [|split]].
  - intros idx b Hb Hf.
    destruct (Hcc b (list_elem_of_lookup_2 _ _ _ Hb) Hf) as [content Hcontent].
    exists content. split; [exact Hcontent|].
    exact (written_files_retained M P img 0 xyxy (files w0) idx b content Hb Hf Hcontent).
  - intros p Hp. apply written_files_keeps. exact Hp.
  - intros p Hp. apply written_files_other. intros j _. apply Hp.
  - rewrite (detection_loop_writes M P img HP 0 xyxy w2 Hd1 Hcc).
    cbn [files w2]. rewrite written_files_again. reflexivity.
Qed.

Lemma tempdir_subdir_neq d : "tempdir/" +:+ d <> "tempdir".
Proof. intros E. apply (f_equal String.length) in E. rewrite length_append in E. cbn in E. lia. Qed.

End ArtifactNameFacts.

(** C8 (the code at a failing input): the artifact name is built from
    [os.path.splitext(IMAGE_PATH)[0]], the whole path without its
    extension, not from the base name of the image.

    For an image named by a file of the working directory, [s.e] with a
    name [s] and an extension [e], the two agree, and the claim holds: the
    conversion cell creates [tempdir] when it is absent, and the loop
    leaves the crop of every retained Detection in the file
    [tempdir/s_{index}.png], whatever the directory held under that name
    before; the index is the position in the detector's output and
    different indexes give different names; no file that was there is
    removed, a file not named by an index keeps its content, and a second
    pass over the same boxes writes the same files with the same content.

    For the same image named with a directory in front, [d/s.e], the path
    built is [tempdir/d/s_{index}.png]: when nothing named [tempdir/d]
    exists, the writer raises FileNotFoundError at the first retained
    Detection, and no artifact is written. *)
Theorem artifact_naming (M : adapters) (s e : string) (img : image)
    (boxes : list box) (w0 : world) :
  contains "/" s = false -> all_chars "." s = false ->
  contains "." e = false -> contains "/" e = false ->
  "tempdir" ∉ dom (files w0) ->
  (forall b,
     b ∈ box_normalizer (Z.of_nat (width img)) (Z.of_nat (height img)) boxes ->
     region_filter (image_size img) b = true -> is_Some (crop_content M img b)) ->
  let name := fun idx : nat => "tempdir/" +:+ s +:+ "_" +:+ pretty idx +:+ ".png" in
  (exists xyxy w1 w2,
     convert_cell img boxes w0 = inr (xyxy, w1) /\
     detection_loop M (s +:+ "." +:+ e) img 0 xyxy w1 = inr w2 /\
     dirs w2 = {["tempdir"]} ∪ dirs w0 /\
     (forall idx b, xyxy !! idx = Some b -> region_filter (image_size img) b = true ->
        exists content,
          crop_content M img b = Some content /\ files w2 !! name idx = Some content) /\
     (forall i j, name i = name j -> i = j) /\
     (forall p, is_Some (files w0 !! p) -> is_Some (files w2 !! p)) /\
     (forall p, (forall idx, p <> name idx) -> files w2 !! p = files w0 !! p) /\
     detection_loop M (s +:+ "." +:+ e) img 0 xyxy w2
     = inr {| dirs := dirs w2; files := files w2;
              sam2_calls := sam2_calls w2 ++ retained img xyxy |}) /\
  (forall d b rest,
     contains "/" d = false -> d <> EmptyString -> d <> "." -> d <> ".." ->
     ("tempdir/" +:+ d) ∉ dirs w0 -> ("tempdir/" +:+ d) ∉ dom (files w0) ->
     retained img (box_normalizer (Z.of_nat (width img)) (Z.of_nat (height img)) boxes)
     = b :: rest ->
     notebook M (d +:+ "/" +:+ s +:+ "." +:+ e) img boxes w0 = inl FileNotFoundError /\
     detection_loop_state M (d +:+ "/" +:+ s +:+ "." +:+ e) img 0
       (box_normalizer (Z.of_nat (width img)) (Z.of_nat (height img)) boxes)
       {| dirs := {["tempdir"]} ∪ dirs w0; files := files w0; sam2_calls := sam2_calls w0 |}
     = ({| dirs := {["tempdir"]} ∪ dirs w0; files := files w0;
           sam2_calls := sam2_calls w0 ++ [b] |}, Some FileNotFoundError)).
Proof.
  intros Hs Hdots He1 He2 Hdir Hcc name.
  assert (Hname : forall idx, image_path (s +:+ "." +:+ e) idx = name idx)
    by (intros idx; apply image_path_plain; assumption).
  split.
  - destruct (loop_writes_stem_names M (s +:+ "." +:+ e) img boxes w0
                (plain_no_slash s e Hs He2) Hdir Hcc)
      as (xyxy & w1 & w2 & Hc & Hl & Hd & Hw & Hk & Ho & Ha).
    exists xyxy, w1, w2. split; [exact Hc|]. split; [exact Hl|]. split; [exact Hd|].
    split; [|split; [|split; [|split]]].
    + intros idx b Hb Hf. destruct (Hw idx b Hb Hf) as (content & H1 & H2).
      exists content. rewrite <- Hname. auto.
    + intros i j E. rewrite <- !Hname in E. exact (image_path_inj _ i j E).
    + exact Hk.
    + intros p Hp. apply Ho. intros idx. rewrite Hname. apply Hp.
    + exact Ha.
  - intros d b rest Hd H0 H1 H2 Hsub _ Hret.
    set (P' := d +:+ "/" +:+ s +:+ "." +:+ e).
    set (w1 := {| dirs := {["tempdir"]} ∪ dirs w0; files := files w0;
                  sam2_calls := sam2_calls w0 |}).
    assert (Hfail : forall i content w', dirs w' = dirs w1 ->
                      write_file (image_path P' i) content w' = inl FileNotFoundError).
    { intros i content w' Hw'. unfold P'.
      rewrite (image_path_subdir d s e i Hs Hdots He1 He2).
      apply write_file_no_subdir; try assumption.
      - rewrite !contains_app, Hs, pretty_nat_no_slash. reflexivity.
      - rewrite Hw'. cbn [dirs w1]. rewrite elem_of_union, elem_of_singleton.
        intros [C | C]; [exact (tempdir_subdir_neq d C) | exact (Hsub C)]. }
    pose proof (detection_loop_unwritable M P' img 0
                  (box_normalizer (Z.of_nat (width img)) (Z.of_nat (height img)) boxes)
                  w1 Hfail) as Hloop.
    rewrite Hret in Hloop. destruct Hloop as [Hl Hst].
    { intros b' Hb'. rewrite <- Hret in Hb'. unfold retained in Hb'.
      apply list_elem_of_filter in Hb'. destruct Hb' as [Hf Hin].
      apply Hcc; assumption. }
    split; [|exact Hst].
    unfold notebook, convert_cell. rewrite (makedirs_tempdir w0 Hdir). fold w1. rewrite Hl.
    reflexivity.
Qed.

Lemma artifact_naming_witness :
  let img := uniform_image 8 8 [10; 20; 30]%Z in
  let boxes : list box :=
    [(1 # 2, 1 # 2, 1 # 4, 1 # 4)%Q; (1 # 2, 1 # 2, 3 # 4, 3 # 4)%Q; (1 # 4, 1 # 4, 1 # 4, 1 # 4)%Q] in
  (exists xyxy w1 w2,
     convert_cell img boxes empty_world = inr (xyxy, w1) /\
     detection_loop (sample_models lenient_save) "IMG_6509.png" img 0 xyxy w1 = inr w2 /\
     is_Some (files w2 !! "tempdir/IMG_6509_0.png") /\
     files w2 !! "tempdir/IMG_6509_1.png" = None /\
     is_Some (files w2 !! "tempdir/IMG_6509_2.png")) /\
  notebook (sample_models lenient_save) "photos/IMG_6509.png" img boxes empty_world
  = inl FileNotFoundError.
Proof.
  intros img boxes.
  assert (Hx : box_normalizer (Z.of_nat (width img)) (Z.of_nat (height img)) boxes
               = [(3, 3, 5, 5)%Z; (1, 1, 7, 7)%Z; (1, 1, 3, 3)%Z]) by (vm_compute; reflexivity).
  assert (Hd : "tempdir" ∉ dom (files empty_world)).
  { cbn [files empty_world]. rewrite dom_empty_L. apply not_elem_of_empty. }
  assert (Hcc : forall b,
            b ∈ box_normalizer (Z.of_nat (width img)) (Z.of_nat (height img)) boxes ->
            region_filter (image_size img) b = true ->
            is_Some (crop_content (sample_models lenient_save) img b)).
  { intros b Hb Hf. rewrite Hx in Hb.
    apply elem_of_cons in Hb. destruct Hb as [-> | Hb]; [eexists; vm_compute; reflexivity|].
    apply elem_of_cons in Hb. destruct Hb as [-> | Hb]; [vm_compute in Hf; discriminate Hf|].
    apply elem_of_cons in Hb. destruct Hb as [-> | Hb]; [eexists; vm_compute; reflexivity|].
    inversion Hb. }
  pose proof (artifact_naming (sample_models lenient_save) "IMG_6509" "png" img boxes empty_world
              eq_refl eq_refl eq_refl eq_refl Hd Hcc) as H.
  destruct H as [HA HB].
  split.
  - destruct HA as (xyxy & w1 & w2 & Hc & Hl & _).
    exists xyxy, w1, w2. split; [exact Hc|]. split; [exact Hl|].
    unfold convert_cell in Hc. rewrite (makedirs_tempdir empty_world Hd), Hx in Hc.
    injection Hc as <- <-.
    change ("IMG_6509" +:+ "." +:+ "png") with "IMG_6509.png" in Hl.
    vm_compute in Hl. injection Hl as <-.
    split; [eexists; vm_compute; reflexivity|].
    split; [vm_compute; reflexivity | eexists; vm_compute; reflexivity].
  - change "photos/IMG_6509.png" with ("photos" +:+ "/" +:+ "IMG_6509" +:+ "." +:+ "png").
    refine (proj1 (HB "photos" (3, 3, 5, 5)%Z [(1, 1, 3, 3)%Z] eq_refl _ _ _ _ _ _)).
    + discriminate.
    + discriminate.
    + discriminate.
    + cbn [dirs empty_world]. apply not_elem_of_empty.
    + cbn [files empty_world]. rewrite dom_empty_L. apply not_elem_of_empty.
    + vm_compute. reflexivity.
Defined.

(** C9: composing and saving twice with the same image, mask and box gives
    the same file: when the writer encodes the crop, the second
    application returns the world the first one left, byte for byte; when
    the crop has no pixel or the writer raises, nothing is written and
    both applications stop with the same error. *)
Theorem crop_and_save_idempotent (M : adapters) (P : string) (img : image) (m : mask)
    (idx : nat) (b : bbox) (h w : nat) (w0 : world) :
  contains "/" P = false ->
  "tempdir" ∈ dirs w0 ->
  is_shape h w img = true -> is_shape h w m = true ->
  exists crop,
    masked_object img m b = Some crop /\
    if no_pixel crop then crop_and_save M P img m idx b w0 = inl ValueError
    else
      match png_save M crop with
      | Some content =>
          exists w1,
            crop_and_save M P img m idx b w0 = inr w1 /\
            files w1 !! image_path P idx = Some content /\
            crop_and_save M P img m idx b w1 = inr w1
      | None => crop_and_save M P img m idx b w0 = inl OSError
      end.
Proof.
  intros HP Hd Hi Hm. destruct b as [[[x1 y1] x2] y2].
  destruct (masked_object_Some h w img m x1 y1 x2 y2 Hi Hm) as (a & _ & _ & Hcrop).
  exists (slice2 y1 y2 x1 x2 a). split; [exact Hcrop|].
  destruct (no_pixel (slice2 y1 y2 x1 x2 a)) eqn:Hn.
  { unfold crop_and_save. rewrite Hcrop, Hn. reflexivity. }
  destruct (png_save M (slice2 y1 y2 x1 x2 a)) as [content|] eqn:Hcontent.
  - set (w1 := {| dirs := dirs w0; files := <[image_path P idx := content]> (files w0);
                  sam2_calls := sam2_calls w0 |}).
    exists w1. unfold crop_and_save. rewrite Hcrop, Hn, Hcontent.
    split; [apply (write_file_tempdir P HP idx content w0 Hd)|].
    split; [cbn [files w1]; apply lookup_insert_eq|].
    rewrite (write_file_tempdir P HP idx content w1 Hd).
    unfold w1. cbn [dirs files sam2_calls]. rewrite insert_insert_eq. reflexivity.
  - unfold crop_and_save. rewrite Hcrop, Hn, Hcontent. reflexivity.
Qed.

Lemma crop_and_save_idempotent_witness :
  exists crop w1,
    masked_object (uniform_image 8 8 [10; 20; 30]%Z) (full_mask 8 8) (2, 2, 6, 6)%Z = Some crop /\
    crop_and_save (sample_models lenient_save) IMAGE_PATH (uniform_image 8 8 [10; 20; 30]%Z)
      (full_mask 8 8) 0 (2, 2, 6, 6)%Z
      {| dirs := {["tempdir"]}; files := ∅; sam2_calls := [] |} = inr w1 /\
    files w1 !! image_path IMAGE_PATH 0 = Some (png_signature ++ raw_bytes crop) /\
    crop_and_save (sample_models lenient_save) IMAGE_PATH (uniform_image 8 8 [10; 20; 30]%Z)
      (full_mask 8 8) 0 (2, 2, 6, 6)%Z w1 = inr w1.
Proof.
  destruct (crop_and_save_idempotent (sample_models lenient_save) IMAGE_PATH
              (uniform_image 8 8 [10; 20; 30]%Z) (full_mask 8 8) 0 (2, 2, 6, 6)%Z 8 8
              {| dirs := {["tempdir"]}; files := ∅; sam2_calls := [] |}
              eq_refl ltac:(cbn [dirs]; apply elem_of_singleton_2; reflexivity) eq_refl eq_refl)
    as (crop & Hcrop & Hrest).
  assert (Hn : no_pixel crop = false).
  { pose proof Hcrop as Hc. vm_compute in Hc. injection Hc as Hc. rewrite <- Hc. reflexivity. }
  rewrite Hn in Hrest.
  cbn [png_save sample_models lenient_save] in Hrest.
  destruct Hrest as (w1 & H1 & Hf & H2).
  exists crop, w1. repeat split; assumption.
Defined.

Section StaleFacts.

Lemma write_file_keeps path content w w' p :
  write_file path content w = inr w' -> is_Some (files w !! p) -> is_Some (files w' !! p).
Proof.
  intros E Hp. destruct (write_file_inr _ _ _ _ E) as [key ->]. cbn [files].
  rewrite lookup_insert. destruct (decide _); [eexists; reflexivity | exact Hp].
Qed.

Lemma detection_step_keeps M P img idx b w w' p :
  detection_step M P img idx b w = inr w' ->
  is_Some (files w !! p) -> is_Some (files w' !! p).
Proof.
  unfold detection_step, crop_and_save.
  destruct (region_filter _ _); [|intros E; injection E as <-; auto].
  destruct (sam2_predict M img b !! 0%nat); [|discriminate].
  destruct (masked_object _ _ _); [|discriminate].
  destruct (no_pixel _); [discriminate|].
  destruct (png_save M _); [|discriminate].
  intros E Hp. exact (write_file_keeps _ _ _ _ p E Hp).
Qed.

Lemma detection_loop_keeps M P img idx xyxy w w' p :
  detection_loop M P img idx xyxy w = inr w' ->
  is_Some (files w !! p) -> is_Some (files w' !! p).
Proof.
  revert idx w. induction xyxy as [|b rest IH]; intros idx w; cbn [detection_loop].
  - intros E. injection E as <-. auto.
  - destruct (detection_step M P img idx b w) as [e | w1] eqn:Es; [discriminate|].
    intros E Hp. apply (IH (S idx) w1 E). exact (detection_step_keeps _ _ _ _ _ _ _ p Es Hp).
Qed.

Lemma strip_prefix_Some a p name : strip_prefix a p = Some name -> p = a +:+ name.
Proof.
  revert p. induction a as [|x a IH]; intros p E; cbn in E.
  - injection E as ->. reflexivity.
  - destruct p as [|y p]; [discriminate|].
    destruct (Ascii.eqb x y) eqn:Exy; [|discriminate].
    apply Ascii.eqb_eq in Exy. subst y. rewrite append_cons, (IH p E). reflexivity.
Qed.

Lemma endswith_inv suffix s : endswith suffix s = true -> exists a, s = a +:+ suffix.
Proof.
  induction s as [|x s IH]; cbn [endswith]; intros H.
  - rewrite orb_false_r in H. apply String.eqb_eq in H. subst suffix. exists EmptyString. reflexivity.
  - apply orb_true_iff in H. destruct H as [H | H].
    + apply String.eqb_eq in H. subst suffix. exists EmptyString. reflexivity.
    + destruct (IH H) as [a ->]. exists (String x a). reflexivity.
Qed.

Lemma is_hidden_dot c r : is_hidden (String c r) = true <-> c = "."%char.
Proof.
  split; [|intros ->; reflexivity].
  destruct c as [[] [] [] [] [] [] [] []]; cbn; intros H; try discriminate H. reflexivity.
Qed.

(** The pattern [tempdir/*.png], spelled out: an entry of [tempdir] whose
    name ends in [.png] and does not start with a dot. *)
Lemma glob_tempdir_png_iff p :
  glob_tempdir_png p = true <->
  exists c r, p = "tempdir/" +:+ String c r +:+ ".png" /\ c <> "."%char /\
              contains "/" (String c r) = false.
Proof.
  split.
  - unfold glob_tempdir_png. destruct (strip_prefix "tempdir/" p) as [name|] eqn:E; [|discriminate].
    apply strip_prefix_Some in E. subst p.
    rewrite !andb_true_iff, !negb_true_iff. intros [[Hs Hh] He].
    destruct (endswith_inv _ _ He) as [base ->].
    destruct base as [|c r]; [discriminate Hh|].
    exists c, r. split; [reflexivity|]. split.
    + intros ->. discriminate Hh.
    + rewrite contains_app in Hs. apply orb_false_iff in Hs. apply Hs.
  - intros (c & r & -> & Hc & Hs). rewrite glob_tempdir_png_name.
    rewrite contains_app, Hs, endswith_app. rewrite append_cons.
    destruct (is_hidden (String c (r +:+ ".png"))) eqn:Hh; [|reflexivity].
    apply is_hidden_dot in Hh. contradiction.
Qed.

Lemma classify_loop_state_agrees M w images :
  classify_loop M w images
  = match classify_loop_state M w images with
    | (answers, None) => inr answers
    | (_, Some e) => inl e
    end.
Proof.
  induction images as [|p rest IH]; cbn [classify_loop classify_loop_state]; [reflexivity|].
  destruct (files w !! p); [|reflexivity].
  destruct (imread M _); [|reflexivity].
  rewrite IH. destruct (classify_loop_state M w rest) as [answers [e|]]; reflexivity.
Qed.

(** What the cell has printed when a listed file does not decode: the
    answers for the files listed before the first such file. *)
Lemma classify_loop_state_undecodable M w images p content :
  (forall q, q ∈ images -> is_Some (files w !! q)) ->
  p ∈ images -> files w !! p = Some content -> imread M content = None ->
  exists printed q bad after,
    classify_loop_state M w images = (printed, Some Cv2Error) /\
    images = map fst printed ++ q :: after /\
    files w !! q = Some bad /\ imread M bad = None /\
    forall x a, (x, a) ∈ printed ->
      exists c, files w !! x = Some c /\ a = chat M prompt c /\ is_Some (imread M c).
Proof.
  induction images as [|q rest IH]; intros Hall Hp Hc Hn; [inversion Hp|].
  cbn [classify_loop_state]. destruct (Hall q ltac:(left)) as [c Hq]. rewrite Hq.
  destruct (imread M c) as [decoded|] eqn:Hd.
  - destruct IH as (printed & q' & bad & after & Hst & Him & Hbad & Hnbad & Hpr).
    + intros q' Hq'. apply Hall. right. exact Hq'.
    + apply elem_of_cons in Hp. destruct Hp as [-> | Hp]; [|exact Hp].
      rewrite Hq in Hc. injection Hc as ->. rewrite Hn in Hd. discriminate.
    + exact Hc.
    + exact Hn.
    + rewrite Hst. exists ((q, chat M prompt c) :: printed), q', bad, after.
      split; [reflexivity|]. split; [cbn; rewrite Him; reflexivity|].
      split; [exact Hbad|]. split; [exact Hnbad|].
      intros x a Hx. apply elem_of_cons in Hx. destruct Hx as [Hx | Hx].
      * injection Hx as -> ->. exists c. split; [exact Hq|]. split; [reflexivity|].
        rewrite Hd. eexists. reflexivity.
      * apply Hpr. exact Hx.
  - exists [], q, c, rest. split; [reflexivity|]. split; [reflexivity|].
    split; [exact Hq|]. split; [exact Hd|]. intros x a Hx. inversion Hx.
Qed.

End StaleFacts.

(** C10 (the claim as stated fails): a .png file of the crop directory
    whose name starts with a dot gets no Classification Result, and a
    .png file that is not an image gets none either.
    The run over the image [.IMG_6509.png] retains one Detection and
    writes its crop to [tempdir/.IMG_6509_0.png]; the listing leaves that
    file out, so the classification returns no result for one .png file.
    And in a directory that holds the single file [tempdir/bad.png], of
    four bytes, the file is listed, the chat model is called, the decoding
    fails and the cell stops with an error: one .png file, no result. *)
Lemma png_files_without_result :
  let img := uniform_image 8 8 [10; 20; 30]%Z in
  let boxes : list box := [(1 # 2, 1 # 2, 1 # 4, 1 # 4)%Q] in
  let bad := {| dirs := {["tempdir"]};
                files := {["tempdir/bad.png" := [Byte.x89; Byte.x50; Byte.x4e; Byte.x47]]};
                sam2_calls := [] |} in
  (exists w2 content,
      notebook (sample_models lenient_save) ".IMG_6509.png" img boxes empty_world = inr ([], w2) /\
      length (retained img (box_normalizer 8 8 boxes)) = 1%nat /\
      map fst (map_to_list (files w2)) = ["tempdir/.IMG_6509_0.png"] /\
      files w2 !! "tempdir/.IMG_6509_0.png" = Some content /\
      signature_imread content = Some [[[0; 0; 0]%Z]] /\
      classify_cell (sample_models lenient_save) w2 = inr []) /\
  glob_png bad = ["tempdir/bad.png"] /\
  classify_cell (sample_models lenient_save) bad = inl Cv2Error /\
  classify_loop_state (sample_models lenient_save) bad (glob_png bad) = ([], Some Cv2Error).
Proof.
  cbv zeta. split; [|split; [|split]]; try (vm_compute; reflexivity).
  eexists. eexists. split; [vm_compute; reflexivity|].
  split; [vm_compute; reflexivity|]. split; [vm_compute; reflexivity|].
  split; [vm_compute; reflexivity|]. split; vm_compute; reflexivity.
Qed.

(** C10 (amended): the classification cell takes its inputs from the
    listing of [tempdir/*.png] at the time it runs, not from the
    Detections of the current run.  The listing holds, once each, the
    files of [tempdir] whose name ends in [.png] and does not start with a
    dot, whichever run wrote them.  When every listed file decodes as an
    image, the cell returns exactly one answer per listed file, in the
    order of the listing, so the number of answers is the number of listed
    files.  When a listed file does not decode, the cell stops with
    cv2.error at the first such file, after the chat call for it, having
    printed the answers of the files listed before it.  The loop over the
    detections removes no file, so the crops of earlier runs are listed
    too, and the number of answers can exceed the number of Detections
    the current run retained. *)
Theorem classification_follows_directory :
  (forall (w : world) p,
     p ∈ glob_png w <->
     is_Some (files w !! p) /\
     exists c r, p = "tempdir/" +:+ String c r +:+ ".png" /\ c <> "."%char /\
                 contains "/" (String c r) = false) /\
  (forall (M : adapters) (w : world),
     listed_files_decode M w ->
     exists answers,
       classify_cell M w = inr answers /\
       map fst answers = glob_png w /\
       length answers = length (glob_png w) /\
       NoDup (map fst answers) /\
       (forall p content, p ∈ glob_png w -> files w !! p = Some content ->
                          (p, chat M prompt content) ∈ answers)) /\
  (forall (M : adapters) (w : world) p content,
     p ∈ glob_png w -> files w !! p = Some content -> imread M content = None ->
     classify_cell M w = inl Cv2Error /\
     exists printed q bad after,
       classify_loop_state M w (glob_png w) = (printed, Some Cv2Error) /\
       glob_png w = map fst printed ++ q :: after /\
       files w !! q = Some bad /\ imread M bad = None /\
       forall x a, (x, a) ∈ printed ->
         exists c, files w !! x = Some c /\ a = chat M prompt c /\ is_Some (imread M c)) /\
  (forall (M : adapters) (P : string) (img : image) idx xyxy (w w' : world) p,
     detection_loop M P img idx xyxy w = inr w' ->
     is_Some (files w !! p) -> is_Some (files w' !! p)) /\
  (exists (M : adapters) (P : string) (img : image) (boxes : list box) (w0 w2 : world) answers,
     notebook M P img boxes w0 = inr (answers, w2) /\
     (length (retained img (box_normalizer (Z.of_nat (width img)) (Z.of_nat (height img)) boxes))
      < length answers)%nat).
Proof.
  split; [|split; [|split; [|split]]].
  - intros w p. rewrite glob_png_spec, glob_tempdir_png_iff. reflexivity.
  - intros M w Hdec. destruct (classify_cell_spec M w Hdec) as (answers & Ha & Hfst & Hin).
    exists answers. split; [exact Ha|]. split; [exact Hfst|].
    split; [rewrite <- Hfst; symmetry; apply length_map|].
    split; [rewrite Hfst; apply glob_png_NoDup|]. exact Hin.
  - intros M w p content Hp Hc Hn.
    assert (Hall : forall q, q ∈ glob_png w -> is_Some (files w !! q)).
    { intros q Hq. apply glob_png_spec in Hq. apply Hq. }
    split.
    + unfold classify_cell. eapply classify_loop_undecodable; eassumption.
    + eapply classify_loop_state_undecodable; eassumption.
  - intros M P img idx xyxy w w' p. apply detection_loop_keeps.
  - exists (sample_models lenient_save), IMAGE_PATH, (uniform_image 8 8 [10; 20; 30]%Z),
      [(1 # 2, 1 # 2, 1 # 4, 1 # 4)%Q], stale_world.
    eexists. eexists. split; [vm_compute; reflexivity|]. vm_compute. lia.
Qed.

(** * More on the loop over the detections *)

Section LoopComposition.
Context (M : adapters) (P : string) (img : image).

Lemma detection_step_dirs idx b w w' :
  detection_step M P img idx b w = inr w' -> dirs w' = dirs w.
Proof.
  unfold detection_step.
  destruct (region_filter _ _); [|intros E; injection E as <-; reflexivity].
  destruct (sam2_predict M img b !! 0%nat); [|discriminate].
  intros E. destruct (crop_and_save_inr _ _ _ _ _ _ _ _ E) as (key & content & ->).
  reflexivity.
Qed.


End LoopComposition.

(** X1: the loop over a list of boxes cut in two is the loop over the first
    part followed by the loop over the second part, the index running on
    from the length of the first part; an exception in the first part is
    the exception of the whole, and the second part is not started. *)
Theorem detection_loop_app (M : adapters) (P : string) (img : image)
    (idx : nat) (pre post : list bbox) (w : world) :
  detection_loop M P img idx (pre ++ post) w
  = match detection_loop M P img idx pre w with
    | inl e => inl e
    | inr w1 => detection_loop M P img (idx + length pre) post w1
    end.
Proof.
  revert idx w. induction pre as [|b pre IH]; intros idx w; cbn [detection_loop app length].
  - rewrite Nat.add_0_r. reflexivity.
  - destruct (detection_step M P img idx b w) as [e | w1]; [reflexivity|].
    rewrite IH. replace (S idx + length pre)%nat with (idx + S (length pre))%nat by lia.
    reflexivity.
Qed.

(** X2: when the loop returns, the segmenter has been asked exactly once for
    every box that passes the filter, in the order of the detector's
    output, and for no other box; the set of directories is the one the
    loop started with. *)
Theorem detection_loop_calls (M : adapters) (P : string) (img : image)
    (idx : nat) (xyxy : list bbox) (w w' : world) :
  detection_loop M P img idx xyxy w = inr w' ->
  sam2_calls w' = sam2_calls w ++ retained img xyxy /\ dirs w' = dirs w.
Proof.
  revert idx w. induction xyxy as [|b rest IH]; intros idx w; cbn [detection_loop].
  - intros E. injection E as <-. unfold retained. rewrite filter_nil, app_nil_r. auto.
  - destruct (detection_step M P img idx b w) as [e | w1] eqn:Es; [discriminate|].
    intros E. destruct (IH _ _ E) as [Hc Hd].
    rewrite Hd, (detection_step_dirs M P img idx b w w1 Es). split; [|reflexivity].
    rewrite Hc. unfold retained.
    destruct (region_filter (image_size img) b) eqn:Hf.
    + rewrite (detection_step_retained M P img idx b w w1 Hf Es).
      rewrite filter_cons_True by exact Hf. rewrite <- app_assoc. reflexivity.
    + rewrite (detection_step_rejected M P img idx b w Hf) in Es. injection Es as <-.
      rewrite filter_cons_False by (rewrite Hf; discriminate). reflexivity.
Qed.

Lemma detection_loop_calls_witness :
  exists w',
    detection_loop (sample_models lenient_save) IMAGE_PATH (uniform_image 8 8 [10; 20; 30]%Z) 0
      [(3, 3, 5, 5)%Z; (1, 1, 7, 7)%Z; (0, 0, 2, 2)%Z]
      {| dirs := {["tempdir"]}; files := ∅; sam2_calls := [] |} = inr w' /\
    sam2_calls w'
    = [] ++ retained (uniform_image 8 8 [10; 20; 30]%Z)
              [(3, 3, 5, 5)%Z; (1, 1, 7, 7)%Z; (0, 0, 2, 2)%Z] /\
    dirs w' = {["tempdir"]}.
Proof.
  destruct (detection_loop (sample_models lenient_save) IMAGE_PATH
              (uniform_image 8 8 [10; 20; 30]%Z) 0
              [(3, 3, 5, 5)%Z; (1, 1, 7, 7)%Z; (0, 0, 2, 2)%Z]
              {| dirs := {["tempdir"]}; files := ∅; sam2_calls := [] |}) as [e | w'] eqn:E.
  - exfalso. vm_compute in E. discriminate E.
  - exists w'. split; [reflexivity|].
    exact (detection_loop_calls _ _ _ _ _ _ _ E).
Defined.

Section StateFacts.
Context (M : adapters) (P : string) (img : image).


Lemma detection_loop_rejected idx xyxy w :
  retained img xyxy = [] -> detection_loop M P img idx xyxy w = inr w.
Proof.
  revert idx. induction xyxy as [|b rest IH]; intros idx Hr; cbn [detection_loop]; [reflexivity|].
  unfold retained in Hr.
  destruct (region_filter (image_size img) b) eqn:Hf.
  - rewrite filter_cons_True in Hr by exact Hf. discriminate.
  - rewrite filter_cons_False in Hr by (rewrite Hf; discriminate).
    rewrite (detection_step_rejected M P img idx b w Hf). apply IH. exact Hr.
Qed.

Lemma classify_loop_files w w' images :
  files w = files w' -> classify_loop M w images = classify_loop M w' images.
Proof.
  intros E. induction images as [|p rest IH]; cbn [classify_loop]; [reflexivity|].
  rewrite E, IH. reflexivity.
Qed.

Lemma classify_cell_files w w' :
  files w = files w' -> classify_cell M w = classify_cell M w'.
Proof.
  intros E. unfold classify_cell, glob_png. rewrite E. apply classify_loop_files. exact E.
Qed.

Lemma image_path_not_tempdir idx : "tempdir" <> image_path P idx.
Proof.
  intros E. rewrite image_path_name in E. apply (f_equal String.length) in E.
  rewrite length_append in E. cbn [String.length] in E. lia.
Qed.

Lemma retained_paths_elem idx xyxy p :
  p ∈ retained_paths P img idx xyxy <->
  exists i b, xyxy !! i = Some b /\ region_filter (image_size img) b = true /\
              p = image_path P (idx + i).
Proof.
  revert idx. induction xyxy as [|b rest IH]; intros idx; cbn [retained_paths].
  - split; [intros H; inversion H | intros (i & b & Hi & _); discriminate].
  - assert (Hrest : p ∈ retained_paths P img (S idx) rest <->
                    exists i b', rest !! i = Some b' /\ region_filter (image_size img) b' = true /\
                                 p = image_path P (idx + S i)).
    { rewrite IH. split; intros (i & b' & Hi & Hf & Hp); exists i, b';
        (split; [exact Hi|]; split; [exact Hf|]); rewrite Hp; f_equal; lia. }
    destruct (region_filter (image_size img) b) eqn:Hf.
    + rewrite elem_of_cons, Hrest. split.
      * intros [-> | (i & b' & Hi & Hf' & Hp)].
        -- exists 0%nat, b. rewrite Nat.add_0_r. auto.
        -- exists (S i), b'. auto.
      * intros ([|i] & b' & Hi & Hf' & Hp).
        -- left. rewrite Nat.add_0_r in Hp. exact Hp.
        -- right. exists i, b'. auto.
    + rewrite Hrest. split.
      * intros (i & b' & Hi & Hf' & Hp). exists (S i), b'. auto.
      * intros ([|i] & b' & Hi & Hf' & Hp).
        -- cbn in Hi. injection Hi as <-. congruence.
        -- exists i, b'. auto.
Qed.

Lemma retained_paths_NoDup idx xyxy : NoDup (retained_paths P img idx xyxy).
Proof.
  revert idx. induction xyxy as [|b rest IH]; intros idx; cbn [retained_paths].
  - apply NoDup_nil_2.
  - destruct (region_filter (image_size img) b); [|apply IH].
    apply NoDup_cons. split; [|apply IH].
    intros Hin. apply retained_paths_elem in Hin. destruct Hin as (i & b' & _ & _ & E).
    apply image_path_inj in E. lia.
Qed.

Lemma retained_paths_length idx xyxy :
  length (retained_paths P img idx xyxy) = length (retained img xyxy).
Proof.
  revert idx. induction xyxy as [|b rest IH]; intros idx; cbn [retained_paths]; [reflexivity|].
  unfold retained. destruct (region_filter (image_size img) b) eqn:Hf.
  - rewrite filter_cons_True by exact Hf. cbn [length]. f_equal. apply IH.
  - rewrite filter_cons_False by (rewrite Hf; discriminate). apply IH.
Qed.

(** A file in the directory after the loop was there before or is the
    crop of a retained box. *)
Lemma written_files_origin idx xyxy fs p :
  is_Some (written_files M P img idx xyxy fs !! p) ->
  is_Some (fs !! p) \/ p ∈ retained_paths P img idx xyxy.
Proof.
  revert idx fs. induction xyxy as [|b rest IH]; intros idx fs; cbn [written_files retained_paths].
  - auto.
  - intros H. apply IH in H. destruct (region_filter (image_size img) b).
    + destruct H as [H | H]; [|right; right; exact H].
      destruct (crop_content M img b); [|left; exact H].
      rewrite lookup_insert in H. destruct (decide _) as [<- | _]; [right; left | left; exact H].
    + exact H.
Qed.

End StateFacts.


(** X4: when no box passes the filter, and so when the detector returns no
    box at all, the notebook does what the classification cell does on
    the directory as it was: [tempdir] is created, the segmenter is not
    asked, no file is written or changed, and the run ends as the
    classification of the .png files [tempdir] already held ends: with
    one answer per listed file when they all decode, and with no answer
    when there is none. *)
Theorem run_without_retained_box (M : adapters) (P : string) (img : image)
    (boxes : list box) (w0 : world) :
  "tempdir" ∉ dom (files w0) ->
  retained img (box_normalizer (Z.of_nat (width img)) (Z.of_nat (height img)) boxes) = [] ->
  let w1 := {| dirs := {["tempdir"]} ∪ dirs w0; files := files w0;
               sam2_calls := sam2_calls w0 |} in
  notebook M P img boxes w0
  = match classify_cell M w0 with
    | inl e => inl e
    | inr answers => inr (answers, w1)
    end /\
  (listed_files_decode M w0 ->
   exists answers,
     notebook M P img boxes w0 = inr (answers, w1) /\
     map fst answers = glob_png w0 /\
     forall p content, p ∈ glob_png w0 -> files w0 !! p = Some content ->
                       (p, chat M prompt content) ∈ answers) /\
  (glob_png w0 = [] -> notebook M P img boxes w0 = inr ([], w1)).
Proof.
  intros Hdir Hr w1.
  assert (Hrun : notebook M P img boxes w0
                 = match classify_cell M w0 with
                   | inl e => inl e
                   | inr answers => inr (answers, w1)
                   end).
  { unfold notebook, convert_cell. rewrite (makedirs_tempdir w0 Hdir).
    fold w1. rewrite (detection_loop_rejected M P img 0 _ w1 Hr).
    rewrite (classify_cell_files M w1 w0 eq_refl). reflexivity. }
  split; [exact Hrun|]. split.
  - intros Hdec. destruct (classify_cell_spec M w0 Hdec) as (answers & Ha & Hfst & Hin).
    exists answers. rewrite Hrun, Ha. auto.
  - intros Hg. rewrite Hrun. unfold classify_cell. rewrite Hg. reflexivity.
Qed.

Lemma run_without_retained_box_witness :
  notebook (sample_models lenient_save) IMAGE_PATH (uniform_image 8 8 [10; 20; 30]%Z) [] stale_world
  = inr ([("tempdir/IMG_0001_4.png", "yes")],
         {| dirs := {["tempdir"]} ∪ dirs stale_world; files := files stale_world;
            sam2_calls := sam2_calls stale_world |}).
Proof.
  assert (Hd : "tempdir" ∉ dom (files stale_world)).
  { vm_compute. intros H. discriminate H. }
  rewrite (proj1 (run_without_retained_box (sample_models lenient_save) IMAGE_PATH
                    (uniform_image 8 8 [10; 20; 30]%Z) [] stale_world Hd eq_refl)).
  assert (E : classify_cell (sample_models lenient_save) stale_world
              = inr [("tempdir/IMG_0001_4.png", "yes")]) by (vm_compute; reflexivity).
  rewrite E. reflexivity.
Defined.

Section RerunFacts.
Context (M : adapters) (P : string) (img : image).

Lemma crop_content_encoded b content :
  crop_content M img b = Some content -> exists crop, png_save M crop = Some content.
Proof.
  unfold crop_content. destruct (sam2_predict M img b !! 0%nat); [|discriminate].
  destruct (masked_object img _ b) as [crop|]; [|discriminate].
  destruct (no_pixel crop); [discriminate|]. intros E. exists crop. exact E.
Qed.

(** The content of a file after the loop is what it was or what the
    writer encoded. *)
Lemma written_files_content idx xyxy fs p c :
  written_files M P img idx xyxy fs !! p = Some c ->
  fs !! p = Some c \/ exists crop, png_save M crop = Some c.
Proof.
  revert idx fs. induction xyxy as [|b rest IH]; intros idx fs; cbn [written_files]; [auto|].
  intros H. apply IH in H. destruct H as [H | H]; [|right; exact H].
  destruct (region_filter (image_size img) b); [|left; exact H].
  destruct (crop_content M img b) as [content|] eqn:Ec; [|left; exact H].
  rewrite lookup_insert in H. destruct (decide _) as [_ | _]; [|left; exact H].
  injection H as <-. right. exact (crop_content_encoded b content Ec).
Qed.

Lemma written_files_decode idx xyxy (w w' : world) :
  reader_decodes_writer M -> listed_files_decode M w ->
  files w' = written_files M P img idx xyxy (files w) ->
  listed_files_decode M w'.
Proof.
  intros Hread Hdec E p c Hp Hc. rewrite E in Hc.
  destruct (written_files_content idx xyxy (files w) p c Hc) as [Hold | [crop Hcrop]].
  - apply (Hdec p c); [|exact Hold]. apply glob_png_spec in Hp. apply glob_png_spec.
    split; [eexists; exact Hold | apply Hp].
  - exact (Hread crop c Hcrop).
Qed.

(** The paths that name a file after the loop, when every retained box
    gets its crop. *)
Lemma written_files_paths idx xyxy fs p :
  contains "/" P = false ->
  (forall b, b ∈ xyxy -> region_filter (image_size img) b = true ->
             is_Some (crop_content M img b)) ->
  is_Some (written_files M P img idx xyxy fs !! p) <->
  is_Some (fs !! p) \/ p ∈ retained_paths P img idx xyxy.
Proof.
  intros HP Hcc. split; [apply written_files_origin|].
  intros [Hold | Hnew]; [apply written_files_keeps; exact Hold|].
  apply retained_paths_elem in Hnew. destruct Hnew as (i & b & Hb & Hf & ->).
  destruct (Hcc b (list_elem_of_lookup_2 _ _ _ Hb) Hf) as [content Hcontent].
  rewrite (written_files_retained M P img idx xyxy fs i b content Hb Hf Hcontent).
  eexists. reflexivity.
Qed.

End RerunFacts.

Section CodecFacts.

Lemma listed_files_decode_codec (M M' : adapters) (w w' : world) :
  imread M' = imread M -> files w' = files w ->
  listed_files_decode M w -> listed_files_decode M' w'.
Proof.
  intros Hi Hf Hdec p c Hp Hc. rewrite Hi. rewrite Hf in Hc. apply (Hdec p c); [|exact Hc].
  unfold glob_png in *. rewrite <- Hf. exact Hp.
Qed.

Lemma glob_png_same_paths (w w' : world) :
  (forall p, is_Some (files w !! p) <-> is_Some (files w' !! p)) ->
  glob_png w ≡ₚ glob_png w'.
Proof.
  intros H. apply NoDup_Permutation; try apply glob_png_NoDup.
  intros p. rewrite !glob_png_spec, H. reflexivity.
Qed.

End CodecFacts.

(** X5: from a directory without .png file, for an image named by a visible
    file and a run in which segmenter and writer return for every
    retained box and the reader decodes what the writer encoded, the
    classification gives exactly one answer per retained Detection: the
    answered paths are the artifact paths of the retained boxes, each
    once, and the answer at the path of index [idx] is the chat model's
    answer on the crop of that box. *)
Theorem fresh_directory_run (M : adapters) (P : string) (img : image)
    (boxes : list box) (w0 : world) :
  plain_name P = true ->
  "tempdir" ∉ dom (files w0) ->
  glob_png w0 = [] ->
  reader_decodes_writer M ->
  (forall b,
     b ∈ box_normalizer (Z.of_nat (width img)) (Z.of_nat (height img)) boxes ->
     region_filter (image_size img) b = true -> is_Some (crop_content M img b)) ->
  let xyxy := box_normalizer (Z.of_nat (width img)) (Z.of_nat (height img)) boxes in
  exists answers w2,
    notebook M P img boxes w0 = inr (answers, w2) /\
    map fst answers ≡ₚ retained_paths P img 0 xyxy /\
    length answers = length (retained img xyxy) /\
    (forall idx b, xyxy !! idx = Some b -> region_filter (image_size img) b = true ->
       exists content,
         crop_content M img b = Some content /\
         (image_path P idx, chat M prompt content) ∈ answers).
Proof.
  intros HP Hdir Hfresh Hread Hcc xyxy. fold xyxy in Hcc.
  assert (Hslash : contains "/" P = false).
  { unfold plain_name in HP. apply andb_true_iff in HP. destruct HP as [HP _].
    apply negb_true_iff in HP. exact HP. }
  set (w1 := {| dirs := {["tempdir"]} ∪ dirs w0; files := files w0;
                sam2_calls := sam2_calls w0 |}).
  assert (Hd1 : "tempdir" ∈ dirs w1).
  { cbn [dirs w1]. apply elem_of_union_l, elem_of_singleton_2. reflexivity. }
  pose proof (detection_loop_writes M P img Hslash 0 xyxy w1 Hd1 Hcc) as Hloop.
  set (w2 := {| dirs := dirs w1;
                files := written_files M P img 0 xyxy (files w1);
                sam2_calls := sam2_calls w1 ++ retained img xyxy |}) in Hloop.
  assert (Hdec0 : listed_files_decode M w1).
  { intros p c Hp. change (glob_png w1) with (glob_png w0) in Hp. rewrite Hfresh in Hp.
    inversion Hp. }
  assert (Hdec2 : listed_files_decode M w2)
    by (apply (written_files_decode M P img 0 xyxy w1 w2 Hread Hdec0); reflexivity).
  destruct (classify_cell_spec M w2 Hdec2) as (answers & Ha & Hfst & Hin).
  assert (Hwritten : forall idx b, xyxy !! idx = Some b ->
            region_filter (image_size img) b = true ->
            exists content, crop_content M img b = Some content /\
                            files w2 !! image_path P idx = Some content).
  { intros idx b Hb Hf.
    destruct (Hcc b (list_elem_of_lookup_2 _ _ _ Hb) Hf) as [content Hcontent].
    exists content. split; [exact Hcontent|].
    exact (written_files_retained M P img 0 xyxy (files w0) idx b content Hb Hf Hcontent). }
  assert (Hsame : forall p, p ∈ glob_png w2 <-> p ∈ retained_paths P img 0 xyxy).
  { intros p. rewrite glob_png_spec, retained_paths_elem. split.
    - intros [Hsome Hg]. cbn [files w2] in Hsome.
      apply written_files_origin in Hsome. destruct Hsome as [Hold | Hnew].
      + exfalso. assert (Hp : p ∈ glob_png w0) by (apply glob_png_spec; split; assumption).
        rewrite Hfresh in Hp. inversion Hp.
      + apply retained_paths_elem in Hnew. exact Hnew.
    - intros (i & b & Hb & Hf & ->). cbn [Nat.add]. split.
      + destruct (Hwritten i b Hb Hf) as (content & _ & Hfile). eexists. exact Hfile.
      + apply image_path_glob. exact HP. }
  assert (Hperm : map fst answers ≡ₚ retained_paths P img 0 xyxy).
  { rewrite Hfst. apply NoDup_Permutation; [apply glob_png_NoDup | apply retained_paths_NoDup | exact Hsame]. }
  exists answers, w2. split; [|split; [exact Hperm|split]].
  - unfold notebook, convert_cell. rewrite (makedirs_tempdir w0 Hdir).
    fold xyxy w1. rewrite Hloop, Ha. reflexivity.
  - rewrite <- (length_map fst answers), Hperm. apply retained_paths_length.
  - intros idx b Hb Hf. destruct (Hwritten idx b Hb Hf) as (content & Hcontent & Hfile).
    exists content. split; [exact Hcontent|]. apply Hin; [|exact Hfile].
    apply Hsame. apply retained_paths_elem. exists idx, b. auto.
Qed.

Lemma fresh_directory_run_witness :
  let img := uniform_image 8 8 [10; 20; 30]%Z in
  let boxes : list box :=
    [(1 # 2, 1 # 2, 1 # 4, 1 # 4)%Q; (1 # 2, 1 # 2, 3 # 4, 3 # 4)%Q; (1 # 4, 1 # 4, 1 # 4, 1 # 4)%Q] in
  exists answers w2,
    notebook (sample_models lenient_save) IMAGE_PATH img boxes empty_world = inr (answers, w2) /\
    length answers
    = length (retained img (box_normalizer (Z.of_nat (width img)) (Z.of_nat (height img)) boxes)).
Proof.
  intros img boxes.
  assert (Hx : box_normalizer (Z.of_nat (width img)) (Z.of_nat (height img)) boxes
               = [(3, 3, 5, 5)%Z; (1, 1, 7, 7)%Z; (1, 1, 3, 3)%Z]) by (vm_compute; reflexivity).
  assert (Hd : "tempdir" ∉ dom (files empty_world)).
  { cbn [files empty_world]. rewrite dom_empty_L. apply not_elem_of_empty. }
  assert (Hr : reader_decodes_writer (sample_models lenient_save)).
  { intros a content E. injection E as <-. eexists. reflexivity. }
  assert (Hcc : forall b,
            b ∈ box_normalizer (Z.of_nat (width img)) (Z.of_nat (height img)) boxes ->
            region_filter (image_size img) b = true ->
            is_Some (crop_content (sample_models lenient_save) img b)).
  { intros b Hb Hf. rewrite Hx in Hb.
    apply elem_of_cons in Hb. destruct Hb as [-> | Hb]; [eexists; vm_compute; reflexivity|].
    apply elem_of_cons in Hb. destruct Hb as [-> | Hb]; [vm_compute in Hf; discriminate Hf|].
    apply elem_of_cons in Hb. destruct Hb as [-> | Hb]; [eexists; vm_compute; reflexivity|].
    inversion Hb. }
  destruct (fresh_directory_run (sample_models lenient_save) IMAGE_PATH img boxes
              empty_world eq_refl Hd eq_refl Hr Hcc)
    as (answers & w2 & Hrun & _ & Hlen & _).
  exists answers, w2. split; assumption.
Defined.

(** X6: running the notebook a second time on the same image and the same
    boxes, from the directory the first run left.  The segmenter and the
    chat model of the second run may answer differently from those of the
    first; the image writer and reader are the same.  The second run
    succeeds ([tempdir] exists already), creates no directory and no new
    file: it writes the artifact paths of the first run again and leaves
    every other file as it was, so the same paths are classified and the
    number of answers is the same.  When the segmenter returns the same
    masks, the files are the same byte for byte. *)
Theorem notebook_rerun (M M' : adapters) (P : string) (img : image)
    (boxes : list box) (w0 : world) :
  contains "/" P = false ->
  "tempdir" ∉ dom (files w0) ->
  png_save M' = png_save M -> imread M' = imread M ->
  reader_decodes_writer M ->
  listed_files_decode M w0 ->
  (forall b,
     b ∈ box_normalizer (Z.of_nat (width img)) (Z.of_nat (height img)) boxes ->
     region_filter (image_size img) b = true ->
     is_Some (crop_content M img b) /\ is_Some (crop_content M' img b)) ->
  exists answers w2 answers' w3,
    notebook M P img boxes w0 = inr (answers, w2) /\
    notebook M' P img boxes w2 = inr (answers', w3) /\
    dirs w3 = dirs w2 /\
    (forall p, is_Some (files w3 !! p) <-> is_Some (files w2 !! p)) /\
    (forall p, (forall idx, p <> image_path P idx) -> files w3 !! p = files w2 !! p) /\
    map fst answers' ≡ₚ map fst answers /\
    length answers' = length answers /\
    ((forall b, sam2_predict M' img b = sam2_predict M img b) -> files w3 = files w2).
Proof.
  intros HP Hdir Hsave Hread' Hread Hdec0 Hboth.
  set (xyxy := box_normalizer (Z.of_nat (width img)) (Z.of_nat (height img)) boxes) in *.
  assert (Hcc : forall b, b ∈ xyxy -> region_filter (image_size img) b = true ->
                          is_Some (crop_content M img b))
    by (intros b Hb Hf; apply (Hboth b Hb Hf)).
  assert (Hcc' : forall b, b ∈ xyxy -> region_filter (image_size img) b = true ->
                           is_Some (crop_content M' img b))
    by (intros b Hb Hf; apply (Hboth b Hb Hf)).
  assert (Hreadw : reader_decodes_writer M').
  { intros a c Hc. rewrite Hread'. rewrite Hsave in Hc. exact (Hread a c Hc). }
  set (w1 := {| dirs := {["tempdir"]} ∪ dirs w0; files := files w0;
                sam2_calls := sam2_calls w0 |}).
  assert (Hd1 : "tempdir" ∈ dirs w1).
  { cbn [dirs w1]. apply elem_of_union_l, elem_of_singleton_2. reflexivity. }
  pose proof (detection_loop_writes M P img HP 0 xyxy w1 Hd1 Hcc) as Hloop.
  set (w2 := {| dirs := dirs w1;
                files := written_files M P img 0 xyxy (files w1);
                sam2_calls := sam2_calls w1 ++ retained img xyxy |}) in Hloop.
  assert (Hdec1 : listed_files_decode M w1)
    by (apply (listed_files_decode_codec M M w0 w1 eq_refl eq_refl Hdec0)).
  assert (Hdec2 : listed_files_decode M w2)
    by (apply (written_files_decode M P img 0 xyxy w1 w2 Hread Hdec1); reflexivity).
  destruct (classify_cell_spec M w2 Hdec2) as (answers & Ha & Hfst & _).
  assert (Hdir2 : "tempdir" ∉ dom (files w2)).
  { intros Hin. apply elem_of_dom in Hin. cbn [files w2 w1] in Hin.
    rewrite written_files_other in Hin by (intros j _; apply image_path_not_tempdir).
    apply Hdir. apply elem_of_dom. exact Hin. }
  set (w1' := {| dirs := {["tempdir"]} ∪ dirs w2; files := files w2;
                 sam2_calls := sam2_calls w2 |}).
  assert (Hd1' : "tempdir" ∈ dirs w1').
  { cbn [dirs w1']. apply elem_of_union_l, elem_of_singleton_2. reflexivity. }
  pose proof (detection_loop_writes M' P img HP 0 xyxy w1' Hd1' Hcc') as Hloop'.
  set (w3 := {| dirs := dirs w1';
                files := written_files M' P img 0 xyxy (files w1');
                sam2_calls := sam2_calls w1' ++ retained img xyxy |}) in Hloop'.
  assert (Hdec1' : listed_files_decode M' w1')
    by (apply (listed_files_decode_codec M M' w2 w1' Hread' eq_refl Hdec2)).
  assert (Hdec3 : listed_files_decode M' w3)
    by (apply (written_files_decode M' P img 0 xyxy w1' w3 Hreadw Hdec1'); reflexivity).
  destruct (classify_cell_spec M' w3 Hdec3) as (answers' & Ha' & Hfst' & _).
  assert (Hpaths : forall p, is_Some (files w3 !! p) <-> is_Some (files w2 !! p)).
  { intros p. cbn [files w3 w1'].
    rewrite (written_files_paths M' P img 0 xyxy (files w2) p HP Hcc').
    cbn [files w2 w1].
    rewrite (written_files_paths M P img 0 xyxy (files w0) p HP Hcc). tauto. }
  assert (Hperm : glob_png w3 ≡ₚ glob_png w2) by (apply glob_png_same_paths; exact Hpaths).
  exists answers, w2, answers', w3. split; [|split; [|split; [|split; [|split; [|split; [|split]]]]]].
  - unfold notebook, convert_cell. rewrite (makedirs_tempdir w0 Hdir).
    fold xyxy w1. rewrite Hloop, Ha. reflexivity.
  - unfold notebook, convert_cell. rewrite (makedirs_tempdir w2 Hdir2).
    fold xyxy w1'. rewrite Hloop', Ha'. reflexivity.
  - cbn [dirs w3 w1' w2 w1]. rewrite (assoc_L (∪)), (union_idemp_L {["tempdir"]}). reflexivity.
  - exact Hpaths.
  - intros p Hp. cbn [files w3 w1']. apply written_files_other.
    intros j _. apply Hp.
  - rewrite Hfst', Hfst. exact Hperm.
  - rewrite <- (length_map fst answers'), <- (length_map fst answers), Hfst', Hfst, Hperm.
    reflexivity.
  - intros Hsame. cbn [files w3 w1' w2 w1].
    assert (Hcrop : forall b, crop_content M' img b = crop_content M img b).
    { intros b. unfold crop_content. rewrite Hsame, Hsave. reflexivity. }
    assert (Hw : forall idx l fs, written_files M' P img idx l fs = written_files M P img idx l fs).
    { intros idx l. revert idx. induction l as [|b l IH]; intros idx fs; cbn [written_files];
        [reflexivity|]. rewrite IH, Hcrop. reflexivity. }
    rewrite Hw. apply written_files_again.
Qed.

Lemma notebook_rerun_witness :
  let img := uniform_image 8 8 [10; 20; 30]%Z in
  let boxes : list box := [(1 # 2, 1 # 2, 1 # 4, 1 # 4)%Q; (1 # 2, 1 # 2, 3 # 4, 3 # 4)%Q] in
  let M' := {| sam2_predict := fun im _ => [repeat (repeat 0%Q (width im)) (height im)];
               png_save := lenient_save;
               chat := fun _ _ => "no";
               imread := signature_imread |} in
  exists answers w2 answers' w3,
    notebook (sample_models lenient_save) IMAGE_PATH img boxes stale_world = inr (answers, w2) /\
    notebook M' IMAGE_PATH img boxes w2 = inr (answers', w3) /\
    length answers' = length answers.
Proof.
  intros img boxes M'.
  assert (Hx : box_normalizer (Z.of_nat (width img)) (Z.of_nat (height img)) boxes
               = [(3, 3, 5, 5)%Z; (1, 1, 7, 7)%Z]) by (vm_compute; reflexivity).
  assert (Hd : "tempdir" ∉ dom (files stale_world)).
  { vm_compute. intros H. discriminate H. }
  assert (Hr : reader_decodes_writer (sample_models lenient_save)).
  { intros a content E. injection E as <-. eexists. reflexivity. }
  assert (Hl : listed_files_decode (sample_models lenient_save) stale_world).
  { intros p c Hp Hc.
    assert (Hg : glob_png stale_world = ["tempdir/IMG_0001_4.png"]) by (vm_compute; reflexivity).
    rewrite Hg in Hp. apply list_elem_of_singleton in Hp. subst p.
    vm_compute in Hc. injection Hc as <-. eexists. vm_compute. reflexivity. }
  assert (Hcc : forall b,
            b ∈ box_normalizer (Z.of_nat (width img)) (Z.of_nat (height img)) boxes ->
            region_filter (image_size img) b = true ->
            is_Some (crop_content (sample_models lenient_save) img b) /\
            is_Some (crop_content M' img b)).
  { intros b Hb Hf. rewrite Hx in Hb.
    apply elem_of_cons in Hb.
    destruct Hb as [-> | Hb]; [split; eexists; vm_compute; reflexivity|].
    apply elem_of_cons in Hb. destruct Hb as [-> | Hb]; [vm_compute in Hf; discriminate Hf|].
    inversion Hb. }
  destruct (notebook_rerun (sample_models lenient_save) M' IMAGE_PATH img boxes stale_world
              eq_refl Hd eq_refl eq_refl Hr Hl Hcc)
    as (answers & w2 & answers' & w3 & H1 & H2 & _ & _ & _ & _ & Hlen & _).
  exists answers, w2, answers', w3. auto.
Defined.

Section NameFacts.

Lemma stem_ext p : (splitext p).1 +:+ (splitext p).2 = p.
Proof.
  destruct (splitext_cases p) as [-> | (stem & ext & -> & Hp & _)]; cbn [fst snd].
  - clear. induction p as [|a p IH]; [reflexivity|]. rewrite append_cons, IH. reflexivity.
  - symmetry. exact Hp.
Qed.

Lemma stem_slash p : contains "/" (splitext p).1 = contains "/" p.
Proof.
  destruct (splitext_cases p) as [-> | (stem & ext & -> & Hp & _ & Hs & _)]; cbn [fst];
    [reflexivity|].
  rewrite Hp, contains_app. cbn [contains]. rewrite Hs.
  change (Ascii.eqb "." "/") with false. cbn [orb]. rewrite orb_false_r. reflexivity.
Qed.

Lemma stem_hidden p : is_hidden (splitext p).1 = is_hidden p.
Proof.
  destruct (splitext_cases p) as [-> | (stem & ext & -> & Hp & _ & _ & Hne)]; cbn [fst];
    [reflexivity|].
  rewrite Hp. destruct stem as [|a stem]; [congruence|]. rewrite append_cons. reflexivity.
Qed.

Lemma is_hidden_app a rest : a <> EmptyString -> is_hidden (a +:+ rest) = is_hidden a.
Proof. destruct a as [|x a]; [congruence|]. intros _. rewrite append_cons. reflexivity. Qed.

Lemma artifact_suffix_no_underscore (idx : nat) : contains "_" (pretty idx +:+ ".png") = false.
Proof. rewrite contains_app, pretty_nat_no_underscore. reflexivity. Qed.

End NameFacts.

(** X7: for images named by a file of the working directory, with a
    name [s.e] whose extension [e] holds no dot, the artifact of Detection
    [i] is the file [tempdir/s_i.png], and the artifact name determines
    both the name without its extension and the index: the artifacts of
    [s.e] and [s'.e'] have the same path exactly when [s = s'] and the
    indexes are equal.  For the files: of two crops written one after the
    other, the second replaces the first exactly in that case, and else
    the first crop stays what it was.  So crops of one image never
    collide, and crops of two images collide exactly when the images
    differ in their extension only. *)
Theorem image_path_eq_iff (s e s' e' : string) (i j : nat) :
  contains "/" s = false -> all_chars "." s = false ->
  contains "." e = false -> contains "/" e = false ->
  contains "/" s' = false -> all_chars "." s' = false ->
  contains "." e' = false -> contains "/" e' = false ->
  let P := s +:+ "." +:+ e in
  let P' := s' +:+ "." +:+ e' in
  image_path P i = "tempdir/" +:+ s +:+ "_" +:+ pretty i +:+ ".png" /\
  (image_path P i = image_path P' j <-> s = s' /\ i = j) /\
  (forall (w : world) (c c' : list Byte.byte), "tempdir" ∈ dirs w ->
     exists w1 w2,
       write_file (image_path P i) c w = inr w1 /\
       write_file (image_path P' j) c' w1 = inr w2 /\
       files w2 !! image_path P i = Some (if decide (s = s' /\ i = j) then c' else c)).
Proof.
  intros Hs Hd He1 He2 Hs' Hd' He1' He2' P P'.
  assert (Hiff : image_path P i = image_path P' j <-> s = s' /\ i = j).
  { unfold P, P'. rewrite (image_path_plain s e i Hs Hd He1 He2),
      (image_path_plain s' e' j Hs' Hd' He1' He2'). split.
    - intros E. apply (inj (String.app "tempdir/")) in E.
      change ("_" +:+ pretty i +:+ ".png") with (String "_" (pretty i +:+ ".png")) in E.
      change ("_" +:+ pretty j +:+ ".png") with (String "_" (pretty j +:+ ".png")) in E.
      apply split_at_last_underscore in E; try apply artifact_suffix_no_underscore.
      destruct E as [E1 E]. split; [exact E1|].
      apply append_inj_r in E. apply (inj pretty) in E. exact E.
    - intros [-> ->]. reflexivity. }
  split; [apply image_path_plain; assumption|]. split; [exact Hiff|].
  intros w c c' Hdir.
  assert (HP : contains "/" P = false) by (apply plain_no_slash; assumption).
  assert (HP' : contains "/" P' = false) by (apply plain_no_slash; assumption).
  eexists _, _. split; [apply (write_file_tempdir P HP i c w Hdir)|].
  split; [apply (write_file_tempdir P' HP' j c'); exact Hdir|].
  cbn [files]. destruct (decide (s = s' /\ i = j)) as [Y | N].
  - apply Hiff in Y. rewrite Y. apply lookup_insert_eq.
  - rewrite lookup_insert_ne by (intros E; apply N, Hiff; symmetry; exact E).
    apply lookup_insert_eq.
Qed.

Lemma image_path_eq_iff_witness :
  image_path "IMG_6509.png" 2 = "tempdir/IMG_6509_2.png" /\
  (image_path "IMG_6509.png" 2 = image_path "IMG_6509.jpg" 2 <-> "IMG_6509" = "IMG_6509" /\ 2 = 2)%nat.
Proof.
  pose proof (image_path_eq_iff "IMG_6509" "png" "IMG_6509" "jpg" 2 2
                eq_refl eq_refl eq_refl eq_refl eq_refl eq_refl eq_refl eq_refl) as H.
  cbv zeta in H. destruct H as (H1 & H2 & _). split; [exact H1 | exact H2].
Defined.

(** X8: for an IMAGE_PATH without directory part, whether the
    classification cell's pattern tempdir/*.png lists the artifact of a
    Detection depends on the first character of IMAGE_PATH only: once
    written, the artifact is among the listed files exactly when
    IMAGE_PATH does not start with a dot. *)
Theorem artifact_listed_iff_visible (P : string) (idx : nat)
    (content : list Byte.byte) (w : world) :
  contains "/" P = false -> "tempdir" ∈ dirs w ->
  exists w',
    write_file (image_path P idx) content w = inr w' /\
    files w' !! image_path P idx = Some content /\
    (image_path P idx ∈ glob_png w' <-> forall r, P <> String "." r).
Proof.
  intros HP Hdir.
  assert (E : glob_tempdir_png (image_path P idx) = negb (is_hidden P)).
  { rewrite image_path_name, glob_tempdir_png_name.
    assert (He : endswith ".png" ((splitext P).1 +:+ "_" +:+ pretty idx +:+ ".png") = true).
    { rewrite <- (append_assoc "_" (pretty idx) ".png").
      rewrite <- (append_assoc (splitext P).1 ("_" +:+ pretty idx) ".png").
      apply endswith_app. }
    rewrite He, andb_true_r, !contains_app, pretty_nat_no_slash, stem_slash, HP.
    change (contains "/" "_") with false. change (contains "/" ".png") with false.
    cbn [orb negb andb].
    destruct (decide ((splitext P).1 = EmptyString)) as [Hs | Hs].
    - pose proof (stem_hidden P) as Hh. rewrite Hs in *. rewrite append_nil, <- Hh. reflexivity.
    - rewrite is_hidden_app by exact Hs. rewrite stem_hidden. reflexivity. }
  eexists. split; [apply (write_file_tempdir P HP idx content w Hdir)|].
  cbn [files]. split; [apply lookup_insert_eq|].
  rewrite glob_png_spec. cbn [files]. rewrite lookup_insert_eq, E. split.
  - intros [_ Hh] r ->. discriminate Hh.
  - intros Hr. split; [eexists; reflexivity|].
    destruct P as [|a r]; [reflexivity|].
    destruct (is_hidden (String a r)) eqn:Hh; [|reflexivity].
    apply is_hidden_dot in Hh. subst a. exfalso. exact (Hr r eq_refl).
Qed.

Lemma artifact_listed_iff_visible_witness :
  exists w',
    write_file (image_path ".IMG_6509.png" 0) one_pixel_png stale_world = inr w' /\
    image_path ".IMG_6509.png" 0 ∉ glob_png w'.
Proof.
  assert (Hd : "tempdir" ∈ dirs stale_world).
  { cbn [dirs stale_world]. apply elem_of_singleton_2. reflexivity. }
  destruct (artifact_listed_iff_visible ".IMG_6509.png" 0 one_pixel_png stale_world eq_refl Hd)
    as (w' & Hw & _ & Hl).
  exists w'. split; [exact Hw|]. intros Hin.
  exact (proj1 Hl Hin "IMG_6509.png" eq_refl).
Defined.

(** X9: what [os.path.splitext] returns.  For a path made of a directory
    part [d] (nothing, or a path that ends with a slash), a file name [s]
    that is not made of dots only, a dot and an extension [e] without dot
    and slash, the stem is [d s] and the extension [.e]: the split is at
    the last dot.  For a path whose file name is made of leading dots
    followed by a part [r] without dot, the extension is empty and the
    stem the whole path.  In every case stem and extension concatenate
    back to the path. *)
Theorem splitext_spec (d s e s0 r : string) :
  (d = EmptyString \/ exists d', d = d' +:+ "/") ->
  contains "/" s = false -> all_chars "." s = false ->
  contains "." e = false -> contains "/" e = false ->
  all_chars "." s0 = true ->
  contains "." r = false -> contains "/" r = false ->
  splitext (d +:+ s +:+ "." +:+ e) = (d +:+ s, "." +:+ e) /\
  splitext (d +:+ s0 +:+ r) = (d +:+ s0 +:+ r, EmptyString) /\
  (forall p, (splitext p).1 +:+ (splitext p).2 = p).
Proof.
  intros Hd Hs Hdots He1 He2 H0 Hr1 Hr2. split; [|split].
  - exact (splitext_ext d s e Hd Hs Hdots He1 He2).
  - exact (splitext_no_ext d s0 r Hd H0 Hr1 Hr2).
  - exact stem_ext.
Qed.

Lemma splitext_spec_witness :
  splitext "photos/IMG.6509.png" = ("photos/IMG.6509", ".png") /\
  splitext "photos/..hidden" = ("photos/..hidden", EmptyString).
Proof.
  pose proof (splitext_spec "photos/" "IMG.6509" "png" ".." "hidden"
                (or_intror (ex_intro _ "photos" eq_refl))
                eq_refl eq_refl eq_refl eq_refl eq_refl eq_refl eq_refl) as (H1 & H2 & _).
  split; [exact H1 | exact H2].
Defined.

(** * The range of the Pixel Boxes *)

Section RangeFacts.
Local Open Scope Q_scope.

Lemma Qtrunc_half_lower m q :
  (m <= 0)%Z -> inject_Z m * (1 # 2) <= q -> (m <= 2 * Qtrunc q)%Z.
Proof.
  intros Hm Hq. unfold Qtrunc. destruct (Qle_bool 0 q) eqn:E.
  - apply Qle_bool_iff in E. change 0 with (inject_Z 0) in E.
    apply Qfloor_resp_le in E. rewrite Qfloor_Z in E. lia.
  - pose proof (Qle_ceiling q) as Hc.
    assert (Hz : inject_Z m <= inject_Z (2 * Qceiling q)).
    { rewrite inject_Z_mult. change (inject_Z 2) with 2. lra. }
    rewrite <- Zle_Qle in Hz. exact Hz.
Qed.

Lemma Qtrunc_half_upper m q :
  (0 <= m)%Z -> q <= inject_Z m * (1 # 2) -> (2 * Qtrunc q <= m)%Z.
Proof.
  intros Hm Hq. unfold Qtrunc. destruct (Qle_bool 0 q) eqn:E.
  - pose proof (Qfloor_le q) as Hf.
    assert (Hz : inject_Z (2 * Qfloor q) <= inject_Z m).
    { rewrite inject_Z_mult. change (inject_Z 2) with 2. lra. }
    rewrite <- Zle_Qle in Hz. exact Hz.
  - assert (Hn : q <= inject_Z 0).
    { apply Qlt_le_weak, Qnot_le_lt. intros C. change (inject_Z 0) with 0 in C.
      apply Qle_bool_iff in C. congruence. }
    apply Qceiling_resp_le in Hn. rewrite Qceiling_Z in Hn. lia.
Qed.

(** Halves of integers below 2^24 are float32 numbers. *)
Lemma binary32_half m :
  (Z.abs m < 2 ^ 24)%Z -> binary32 (inject_Z m * (1 # 2)) == inject_Z m * (1 # 2).
Proof.
  intros Hm. assert (E : pow2 (-1) == 1 # 2) by reflexivity.
  unfold binary32. rewrite <- E. apply round_float_exact; lia.
Qed.

Lemma binary32_mono x y : x <= y -> binary32 x <= binary32 y.
Proof. apply round_float_mono. lia. Qed.

(** The two corners along one axis of length [n], for a centre and an
    extent in [0, 1]: the half extent is at most n/2, so the low corner is
    in [-n/2, n] and the high one in [0, 3n/2]. *)
Lemma corner_range_half c e n :
  (0 < n < 2 ^ 22)%Z -> 0 <= c <= 1 -> 0 <= e <= 1 ->
  let a := binary32 (c * binary32 (inject_Z n)) in
  let d := binary32 ((1 # 2) * binary32 (e * binary32 (inject_Z n))) in
  (- n <= 2 * Qtrunc (binary32 (a - d)) /\ Qtrunc (binary32 (a - d)) <= n)%Z /\
  (0 <= Qtrunc (binary32 (a + d)) /\ 2 * Qtrunc (binary32 (a + d)) <= 3 * n)%Z.
Proof.
  intros Hn Hc He a d.
  assert (Hn0 : 0 < inject_Z n) by (change 0 with (inject_Z 0); rewrite <- Zlt_Qlt; lia).
  assert (En : binary32 (inject_Z n) == inject_Z n) by (apply round_float_Z; lia).
  assert (Ha : inject_Z 0 <= a <= inject_Z n).
  { apply binary32_between; [lia | lia |]. rewrite En. change (inject_Z 0) with 0. nra. }
  assert (Hs : inject_Z 0 <= binary32 (e * binary32 (inject_Z n)) <= inject_Z n).
  { apply binary32_between; [lia | lia |]. rewrite En. change (inject_Z 0) with 0. nra. }
  change (inject_Z 0) with 0 in *.
  assert (Hd : 0 <= d <= inject_Z n * (1 # 2)).
  { split.
    - apply (round_float_nonneg 24 (-149)). lra.
    - rewrite <- (binary32_half n) by lia. apply binary32_mono. lra. }
  destruct (corner_range c e n ltac:(lia) Hc He) as [[_ Hup] [Hlo _]].
  fold a d in Hup, Hlo.
  split; split; try assumption.
  - replace (- n)%Z with (- n + 0)%Z by lia. rewrite Z.add_0_r.
    apply Qtrunc_half_lower; [lia|].
    rewrite <- (binary32_half (- n)) by lia. apply binary32_mono.
    rewrite inject_Z_opp. lra.
  - apply Qtrunc_half_upper; [lia|].
    rewrite <- (binary32_half (3 * n)) by lia. apply binary32_mono.
    rewrite inject_Z_mult. change (inject_Z 3) with 3. lra.
Qed.

End RangeFacts.

(** X10: on an image of less than 2^22 pixels a side, the Pixel Box of
    every normalized Detection (components in [0,1]) reaches at most half
    an image size beyond the image: -W/2 <= x1 <= W and 0 <= x2 <= 3W/2,
    and the same for y with H.  The float32 roundings of the cell do not
    move a corner past these bounds. *)
Theorem box_normalizer_within_half_image (W H : Z) (boxes : list box) :
  (0 < W < 2 ^ 22)%Z -> (0 < H < 2 ^ 22)%Z ->
  Forall normalized boxes ->
  Forall (within_half_image W H) (box_normalizer W H boxes).
Proof.
  intros HW HH Hall. unfold box_normalizer. rewrite box_normalizer_with_map.
  apply Forall_fmap. eapply Forall_impl; [exact Hall|].
  intros [[[cx cy] w] h] (Hcx & Hcy & Hw & Hh).
  change ((within_half_image W H ∘ pixel_box_rounded binary32 W H) (cx, cy, w, h))
    with (within_half_image W H (pixel_box_rounded binary32 W H (cx, cy, w, h))).
  unfold pixel_box_rounded, within_half_image.
  destruct (corner_range_half cx w W HW Hcx Hw) as [Hx1 Hx2].
  destruct (corner_range_half cy h H HH Hcy Hh) as [Hy1 Hy2].
  cbv zeta in Hx1, Hx2, Hy1, Hy2. lia.
Qed.

Lemma box_normalizer_within_half_image_witness :
  Forall (within_half_image 1000 1000)
         (box_normalizer 1000 1000 [tensor_row (1 # 10) (1 # 2) (3 # 10) (1 # 5)]).
Proof.
  apply box_normalizer_within_half_image; [lia | lia |].
  repeat constructor; vm_compute; discriminate.
Defined.

(** * More on the Region Filter *)

(** X11: boxes without area.  On an image that has pixels, a Pixel Box of
    zero width or height, or one that is inverted on exactly one axis (its
    area product is not positive), always passes the Region Filter and
    goes on to the segmenter.  On an image without pixels only a box of
    negative area product passes. *)
Theorem region_filter_degenerate_box (img : image) (x1 y1 x2 y2 : Z) :
  (Z.abs (x2 - x1) < 2 ^ 26)%Z -> (Z.abs (y2 - y1) < 2 ^ 26)%Z ->
  (Z.of_nat (width img) < 2 ^ 26)%Z -> (Z.of_nat (height img) < 2 ^ 26)%Z ->
  ((0 < width img)%nat -> (0 < height img)%nat ->
   ((x2 - x1) * (y2 - y1) <= 0)%Z ->
   region_filter (image_size img) (x1, y1, x2, y2) = true) /\
  ((width img = 0%nat \/ height img = 0%nat) ->
   (region_filter (image_size img) (x1, y1, x2, y2) = true <->
    ((x2 - x1) * (y2 - y1) < 0)%Z)).
Proof.
  intros Hx Hy Hw Hh.
  pose proof (region_filter_true_iff img x1 y1 x2 y2 Hx Hy Hw Hh) as Hiff.
  split.
  - intros Pw Ph Ha. apply Hiff.
    assert (Hq : (inject_Z ((x2 - x1) * (y2 - y1)) <= inject_Z 0)%Q)
      by (rewrite <- Zle_Qle; exact Ha).
    assert (Hi : (inject_Z 0 < inject_Z (Z.of_nat (width img) * Z.of_nat (height img)))%Q)
      by (rewrite <- Zlt_Qlt; nia).
    change (inject_Z 0) with 0%Q in *. lra.
  - intros Hz. rewrite Hiff.
    assert (E : (Z.of_nat (width img) * Z.of_nat (height img) = 0)%Z) by nia.
    rewrite E. change (inject_Z 0) with 0%Q.
    rewrite (Zlt_Qlt _ 0). change (inject_Z 0) with 0%Q. split; intros L; lra.
Qed.

Lemma region_filter_degenerate_box_witness :
  region_filter (image_size (uniform_image 8 8 [10; 20; 30]%Z)) (4, 4, 4, 4)%Z = true.
Proof.
  refine (proj1 (region_filter_degenerate_box (uniform_image 8 8 [10; 20; 30]%Z)
                   4 4 4 4 _ _ _ _) _ _ _);
    first [lia | vm_compute; reflexivity | vm_compute; lia].
Defined.

(** X12: the Region Filter looks at the side lengths of a box only: moving
    a box leaves its verdict unchanged, and within the range where the
    arithmetic is exact, a box whose sides are no longer than those of a
    retained box is retained, while a box whose sides are no shorter than
    those of a rejected box is rejected. *)
Theorem region_filter_side_lengths (img : image) (x1 y1 x2 y2 x1' y1' x2' y2' dx dy : Z) :
  (Z.abs (x2 - x1) < 2 ^ 26)%Z -> (Z.abs (y2 - y1) < 2 ^ 26)%Z ->
  (Z.of_nat (width img) < 2 ^ 26)%Z -> (Z.of_nat (height img) < 2 ^ 26)%Z ->
  (0 <= x2' - x1' <= x2 - x1)%Z -> (0 <= y2' - y1' <= y2 - y1)%Z ->
  region_filter (image_size img) (x1 + dx, y1 + dy, x2 + dx, y2 + dy)%Z
  = region_filter (image_size img) (x1, y1, x2, y2) /\
  (region_filter (image_size img) (x1, y1, x2, y2) = true ->
   region_filter (image_size img) (x1', y1', x2', y2') = true) /\
  (region_filter (image_size img) (x1', y1', x2', y2') = false ->
   region_filter (image_size img) (x1, y1, x2, y2) = false).
Proof.
  intros Hx Hy Hw Hh Hsx Hsy.
  assert (Hmono : region_filter (image_size img) (x1, y1, x2, y2) = true ->
                  region_filter (image_size img) (x1', y1', x2', y2') = true).
  { rewrite (region_filter_true_iff img x1 y1 x2 y2) by assumption.
    rewrite (region_filter_true_iff img x1' y1' x2' y2') by lia.
    intros L. eapply Qle_lt_trans; [|exact L]. rewrite <- Zle_Qle. nia. }
  split; [|split].
  - unfold region_filter, box_area.
    replace (x2 + dx - (x1 + dx))%Z with (x2 - x1)%Z by lia.
    replace (y2 + dy - (y1 + dy))%Z with (y2 - y1)%Z by lia. reflexivity.
  - exact Hmono.
  - intros Hr. destruct (region_filter (image_size img) (x1, y1, x2, y2)); [|reflexivity].
    rewrite Hmono in Hr by reflexivity. discriminate.
Qed.

Lemma region_filter_side_lengths_witness :
  region_filter (image_size (uniform_image 8 8 [10; 20; 30]%Z)) (1 + 2, 1 + 3, 4 + 2, 4 + 3)%Z
  = region_filter (image_size (uniform_image 8 8 [10; 20; 30]%Z)) (1, 1, 4, 4)%Z.
Proof.
  refine (proj1 (region_filter_side_lengths (uniform_image 8 8 [10; 20; 30]%Z)
                   1 1 4 4 0 0 2 2 2 3 _ _ _ _ _ _));
    first [lia | vm_compute; reflexivity | vm_compute; lia].
Defined.

(** * More on the crop and on the ways a step fails *)

Section CropEdgeFacts.

Lemma clipped_rows (n : nat) lo hi :
  (0 <= lo)%Z -> (0 <= hi)%Z ->
  slice_len (Z.of_nat n) lo hi = clipped_len (Z.of_nat n) lo hi.
Proof.
  intros Hlo Hhi. unfold slice_len, slice_bound, clipped_len.
  destruct (Z.ltb_spec lo 0); destruct (Z.ltb_spec hi 0); lia.
Qed.

Lemma clipped_start (n : nat) lo hi :
  (0 <= lo)%Z -> (0 < clipped_len (Z.of_nat n) lo hi)%Z ->
  Z.to_nat (slice_bound (Z.of_nat n) lo) = Z.to_nat lo.
Proof.
  intros Hlo Hc. unfold slice_bound, clipped_len in *.
  destruct (Z.ltb_spec lo 0); lia.
Qed.

(** [np.where] raises when the mask and the image differ in shape. *)
Lemma where0_mismatch (h w h' w' : nat) (img : image) (m : mask) :
  is_shape h w img = true -> is_shape h' w' m = true -> (0 < h)%nat ->
  h' <> h \/ w' <> w ->
  where0 (expand_dims_last (mul_scalar m 255)) img = None.
Proof.
  intros Hi Hm Hh Hne.
  destruct (where0 _ _) as [out|] eqn:E; [exfalso | reflexivity].
  apply is_shape_spec in Hi. destruct Hi as [Hil Hir].
  apply is_shape_spec in Hm. destruct Hm as [Hml Hmr].
  unfold where0 in E. destruct (zip_with_shape_Some _ _ _ _ E) as (_ & Hk & Hrows).
  assert (Hlen : h = h').
  { rewrite <- Hil, Hk. unfold expand_dims_last, mul_scalar. rewrite !length_map. exact Hml. }
  subst h'. destruct Hne as [Hne | Hne]; [congruence|].
  destruct (lookup_lt_is_Some_2 m 0%nat ltac:(lia)) as [mrow Hmrow].
  destruct (lookup_lt_is_Some_2 img 0%nat ltac:(lia)) as [irow Hirow].
  pose proof (scaled_mask_lookup m 0) as Hc. rewrite Hmrow in Hc. cbn [fmap option_fmap option_map] in Hc.
  destruct (Hrows 0%nat _ _ Hc Hirow) as (c & Hz & _).
  destruct (zip_with_shape_Some _ _ _ _ Hz) as (_ & Hk' & _).
  rewrite length_map in Hk'. rewrite (Hir _ _ Hirow), (Hmr _ _ Hmrow) in Hk'. congruence.
Qed.

End CropEdgeFacts.

(** X13: for a Pixel Box whose four coordinates are not negative the crop
    is the box clipped to the image on its far sides: its rows and columns
    are those of the box that lie in the image, its pixel (i, j) is the
    composited pixel at (y1 + i, x1 + j), and a box that is empty,
    inverted or starts past the far edge gives a crop without pixel. *)
Theorem crop_clips_far_edges (img : image) (m : mask) (x1 y1 x2 y2 : Z) (h w : nat) :
  is_shape h w img = true -> is_shape h w m = true -> is_binary m = true ->
  (0 <= x1)%Z -> (0 <= y1)%Z -> (0 <= x2)%Z -> (0 <= y2)%Z ->
  let rows := Z.to_nat (clipped_len (Z.of_nat h) y1 y2) in
  let cols := Z.to_nat (clipped_len (Z.of_nat w) x1 x2) in
  exists out,
    masked_object img m (x1, y1, x2, y2) = Some out /\
    is_shape rows cols out = true /\
    (forall i j, (i < rows)%nat -> (j < cols)%nat ->
       exists v px,
         at2 m (Z.to_nat y1 + i) (Z.to_nat x1 + j) = Some v /\
         at2 img (Z.to_nat y1 + i) (Z.to_nat x1 + j) = Some px /\
         at2 out i j = Some (composited_pixel v px)) /\
    ((x2 <= x1 \/ y2 <= y1 \/ Z.of_nat w <= x1 \/ Z.of_nat h <= y1)%Z ->
     forall i j, at2 out i j = None).
Proof.
  intros Hi Hm Hb Hx1 Hy1 Hx2 Hy2 rows cols.
  destruct (masked_object_Some h w img m x1 y1 x2 y2 Hi Hm) as (a & Ha & Hsa & Hout).
  exists (slice2 y1 y2 x1 x2 a). split; [exact Hout|].
  pose proof (slice2_shape h w a y1 y2 x1 x2 Hsa) as Hso.
  rewrite (clipped_rows h y1 y2 Hy1 Hy2), (clipped_rows w x1 x2 Hx1 Hx2) in Hso.
  fold rows cols in Hso.
  split; [exact Hso|]. split.
  - intros i j Hri Hcj.
    assert (Hri' : (i < Z.to_nat (slice_len (Z.of_nat h) y1 y2))%nat)
      by (rewrite clipped_rows by assumption; exact Hri).
    assert (Hcj' : (j < Z.to_nat (slice_len (Z.of_nat w) x1 x2))%nat)
      by (rewrite clipped_rows by assumption; exact Hcj).
    pose proof (slice_window h y1 y2 i Hri') as Hti.
    pose proof (slice_window w x1 x2 j Hcj') as Hlj.
    rewrite (clipped_start h y1 y2 Hy1) in Hti by (unfold rows in Hri; lia).
    rewrite (clipped_start w x1 x2 Hx1) in Hlj by (unfold cols in Hcj; lia).
    destruct (at2_is_Some h w m _ _ Hm Hti Hlj) as [v Hv].
    destruct (at2_is_Some h w img _ _ Hi Hti Hlj) as [px Hpx].
    exists v, px. split; [exact Hv|]. split; [exact Hpx|].
    rewrite (slice2_at2 h w a y1 y2 x1 x2 i j Hsa Hri' Hcj').
    rewrite (clipped_start h y1 y2 Hy1) by (unfold rows in Hri; lia).
    rewrite (clipped_start w x1 x2 Hx1) by (unfold cols in Hcj; lia).
    eapply where0_at2; eassumption.
  - intros Hempty i j.
    destruct (at2 (slice2 y1 y2 x1 x2 a) i j) as [px|] eqn:Hpx; [exfalso | reflexivity].
    apply is_shape_spec in Hso. destruct Hso as [Hl Hr].
    apply at2_Some in Hpx. destruct Hpx as (row & Hrow & Hj).
    pose proof (lookup_lt_Some _ _ _ Hrow) as Li.
    pose proof (lookup_lt_Some _ _ _ Hj) as Lj.
    rewrite (Hr i row Hrow) in Lj. rewrite Hl in Li.
    unfold rows, cols, clipped_len in Li, Lj. lia.
Qed.

Lemma crop_clips_far_edges_witness :
  exists out,
    masked_object (uniform_image 4 6 [10; 20; 30]%Z) (full_mask 4 6) (4, 2, 9, 7)%Z = Some out /\
    is_shape 2 2 out = true.
Proof.
  destruct (crop_clips_far_edges (uniform_image 4 6 [10; 20; 30]%Z) (full_mask 4 6)
              4 2 9 7 4 6 eq_refl eq_refl eq_refl
              ltac:(lia) ltac:(lia) ltac:(lia) ltac:(lia)) as (out & Hout & Hs & _).
  exists out. split; [exact Hout | exact Hs].
Defined.

(** X14: a mask whose height or width differs from the image's (no axis of
    length 1 involved, where NumPy would stretch it) makes [np.where]
    raise: the step of a retained box stops with ValueError after the
    segmenter has been called for the box and before anything is
    written. *)
Theorem mask_shape_mismatch_raises (M : adapters) (P : string) (img : image) (m : mask)
    (idx : nat) (b : bbox) (w0 : world) (h w h' w' : nat) :
  is_shape h w img = true -> is_shape h' w' m = true -> (0 < h)%nat ->
  (h' <> h /\ h' <> 1 /\ h <> 1)%nat \/ (w' <> w /\ w' <> 1 /\ w <> 1)%nat ->
  region_filter (image_size img) b = true ->
  sam2_predict M img b !! 0%nat = Some m ->
  masked_object img m b = None /\
  detection_step M P img idx b w0 = inl ValueError /\
  detection_step_state M P img idx b w0
  = ({| dirs := dirs w0; files := files w0; sam2_calls := sam2_calls w0 ++ [b] |},
     Some ValueError).
Proof.
  intros Hi Hm Hh Hne Hf Hs.
  assert (Hw : where0 (expand_dims_last (mul_scalar m 255)) img = None).
  { apply (where0_mismatch h w h' w'); try assumption. tauto. }
  assert (Ho : masked_object img m b = None).
  { destruct b as [[[x1 y1] x2] y2]. unfold masked_object. rewrite Hw. reflexivity. }
  split; [exact Ho|].
  unfold detection_step, detection_step_state, crop_and_save. rewrite Hf, Hs, Ho. auto.
Qed.

Lemma mask_shape_mismatch_raises_witness :
  let M := {| sam2_predict := fun _ _ => [full_mask 3 3];
              png_save := lenient_save;
              chat := fun _ _ => "yes";
              imread := signature_imread |} in
  detection_step M IMAGE_PATH (uniform_image 4 4 [10; 20; 30]%Z) 0 (0, 0, 1, 1)%Z empty_world
  = inl ValueError.
Proof.
  intros M.
  refine (proj1 (proj2 (mask_shape_mismatch_raises M IMAGE_PATH
            (uniform_image 4 4 [10; 20; 30]%Z) (full_mask 3 3) 0 (0, 0, 1, 1)%Z empty_world
            4 4 3 3 _ _ _ _ _ _))).
  - vm_compute; reflexivity.
  - vm_compute; reflexivity.
  - lia.
  - left. lia.
  - vm_compute; reflexivity.
  - reflexivity.
Defined.

(** X15: the loop depends on the directory the cell before it creates.
    For an IMAGE_PATH without directory part, when [tempdir] does not
    exist the loop stops at the first box that passes the Region Filter:
    the segmenter has been called for that box only, the image writer
    raises FileNotFoundError and no file is written.  Boxes that the
    filter rejects do not touch the directory, so a list without retained
    box runs through. *)
Theorem detection_loop_without_tempdir (M : adapters) (P : string) (img : image)
    (idx : nat) (xyxy : list bbox) (w : world) :
  contains "/" P = false -> "tempdir" ∉ dirs w ->
  (forall b, b ∈ retained img xyxy -> is_Some (crop_content M img b)) ->
  match retained img xyxy with
  | [] => detection_loop M P img idx xyxy w = inr w
  | b :: _ =>
      detection_loop M P img idx xyxy w = inl FileNotFoundError /\
      detection_loop_state M P img idx xyxy w
      = ({| dirs := dirs w; files := files w; sam2_calls := sam2_calls w ++ [b] |},
         Some FileNotFoundError)
  end.
Proof.
  intros HP Hd. apply detection_loop_unwritable.
  intros i content w' Hw'. apply (write_file_no_tempdir P HP). rewrite Hw'. exact Hd.
Qed.

Lemma detection_loop_without_tempdir_witness :
  detection_loop (sample_models lenient_save) IMAGE_PATH (uniform_image 8 8 [10; 20; 30]%Z)
    0 [(0, 0, 8, 8)%Z; (1, 1, 3, 3)%Z; (2, 2, 4, 4)%Z] empty_world
  = inl FileNotFoundError.
Proof.
  assert (Hd : "tempdir" ∉ dirs empty_world) by (unfold empty_world; cbn [dirs]; apply not_elem_of_empty).
  assert (Hc : forall b,
            b ∈ retained (uniform_image 8 8 [10; 20; 30]%Z)
                  [(0, 0, 8, 8)%Z; (1, 1, 3, 3)%Z; (2, 2, 4, 4)%Z] ->
            is_Some (crop_content (sample_models lenient_save)
                       (uniform_image 8 8 [10; 20; 30]%Z) b)).
  { intros b Hb.
    assert (Hr : retained (uniform_image 8 8 [10; 20; 30]%Z)
                   [(0, 0, 8, 8)%Z; (1, 1, 3, 3)%Z; (2, 2, 4, 4)%Z]
                 = [(1, 1, 3, 3)%Z; (2, 2, 4, 4)%Z]) by (vm_compute; reflexivity).
    rewrite Hr in Hb.
    apply elem_of_cons in Hb. destruct Hb as [-> | Hb]; [eexists; vm_compute; reflexivity|].
    apply elem_of_cons in Hb. destruct Hb as [-> | Hb]; [eexists; vm_compute; reflexivity|].
    inversion Hb. }
  pose proof (detection_loop_without_tempdir (sample_models lenient_save) IMAGE_PATH
                (uniform_image 8 8 [10; 20; 30]%Z) 0
                [(0, 0, 8, 8)%Z; (1, 1, 3, 3)%Z; (2, 2, 4, 4)%Z] empty_world
                eq_refl Hd Hc) as H.
  assert (Hr : retained (uniform_image 8 8 [10; 20; 30]%Z)
                 [(0, 0, 8, 8)%Z; (1, 1, 3, 3)%Z; (2, 2, 4, 4)%Z]
               = [(1, 1, 3, 3)%Z; (2, 2, 4, 4)%Z]) by (vm_compute; reflexivity).
  rewrite Hr in H.
  exact (proj1 H).
Defined.

(** * The Utils cell *)

Section PlotFacts.

Lemma bind_emit {B} (d : draw) (k : plot B) : (emit d;; k) = (d :: k.1, k.2).
Proof. unfold mbind, plot_bind, emit. destruct k as [t r]. reflexivity. Qed.

Lemma bind_ret {A B} (a : A) (k : A -> plot B) : (mret a ≫= k) = k a.
Proof. unfold mbind, plot_bind, mret, plot_ret. destruct (k a) as [t r]. reflexivity. Qed.

Lemma bind_raise {A B} (e : error) (k : A -> plot B) : (raise e ≫= k) = ([], inl e).
Proof. reflexivity. Qed.

Lemma bind_trace {A B} (t : list draw) (a : A) (k : A -> plot B) :
  (((t, inr a) : plot A) ≫= k) = (t ++ (k a).1, (k a).2).
Proof. unfold mbind, plot_bind. destruct (k a) as [t' r]. reflexivity. Qed.

Lemma bind_failed {A B} (t : list draw) (e : error) (k : A -> plot B) :
  (((t, inl e) : plot A) ≫= k) = (t, inl e).
Proof. reflexivity. Qed.

Lemma count_app p t t' : count p (t ++ t') = (count p t + count p t')%nat.
Proof. unfold count. rewrite List.filter_app, length_app. reflexivity. Qed.

Lemma count_cons p d t : count p (d :: t) = ((if p d then 1 else 0) + count p t)%nat.
Proof. unfold count. cbn [List.filter]. destruct (p d); reflexivity. Qed.

Lemma no_pixel_map2 {A B} (f : A -> B) (a : list (list A)) :
  no_pixel (map (map f) a) = no_pixel a.
Proof.
  unfold no_pixel. rewrite <- concat_map. destruct (concat a); reflexivity.
Qed.

(** A mask with a pixel gets its overlay drawn. *)
Lemma show_mask_trace cv mask0 rc borders :
  (borders = true -> contours_drawn cv) -> no_pixel mask0 = false ->
  exists a, show_mask cv mask0 rc borders = ([Ax_imshow a], inr tt).
Proof.
  intros Hcv Hm. unfold show_mask.
  set (color := if rc then _ else _).
  set (bm := map (map astype_uint8) mask0).
  set (mi := map (map _) bm).
  assert (Hmi : no_pixel mi = false).
  { unfold mi, bm. rewrite !no_pixel_map2. exact Hm. }
  destruct borders.
  - destruct (Hcv eq_refl bm mi) as (drawn & -> & Hd). rewrite bind_ret.
    unfold ax_imshow. rewrite Hd, Hmi. eexists. reflexivity.
  - rewrite bind_ret. unfold ax_imshow. rewrite Hmi. eexists. reflexivity.
Qed.

(** Whatever happens, the helper draws nothing but an overlay. *)
Lemma show_mask_draws cv mask0 rc borders :
  (show_mask cv mask0 rc borders).1 = [] \/
  exists a, (show_mask cv mask0 rc borders).1 = [Ax_imshow a].
Proof.
  unfold show_mask.
  set (color := if rc then _ else _).
  set (bm := map (map astype_uint8) mask0).
  set (mi := map (map _) bm).
  assert (H : forall a, (ax_imshow a).1 = [] \/ exists a', (ax_imshow a).1 = [Ax_imshow a']).
  { intros a. unfold ax_imshow. destruct (no_pixel a); [left; reflexivity | right; eexists; reflexivity]. }
  destruct borders.
  - destruct (draw_contours cv bm mi) as [drawn|].
    + rewrite bind_ret. apply H.
    + left. reflexivity.
  - rewrite bind_ret. apply H.
Qed.

Lemma count_overlay p cv mask0 rc borders :
  (forall a, p (Ax_imshow a) = false) -> count p (show_mask cv mask0 rc borders).1 = 0%nat.
Proof.
  intros Hp. destruct (show_mask_draws cv mask0 rc borders) as [-> | [a ->]]; [reflexivity|].
  rewrite count_cons, Hp. reflexivity.
Qed.

Lemma show_box_trace box : exists x y w h,
  show_box box = ([Ax_add_patch_Rectangle x y w h], inr tt).
Proof. destruct box as [[[b0 b1] b2] b3]. repeat eexists. Qed.

(** The entries a boolean array selects. *)
Lemma selected_elem {A} (f : Z -> bool) (a : list A) (labels : list Z) (x : A) :
  x ∈ map fst (List.filter snd (zip a (map f labels))) <->
  exists k l, a !! k = Some x /\ labels !! k = Some l /\ f l = true.
Proof.
  revert labels. induction a as [|y a IH]; intros [|l labels]; cbn [map zip zip_with List.filter].
  - split; [intros H; inversion H | intros (k & l & H & _); discriminate].
  - split; [intros H; inversion H | intros (k & l' & H & _); discriminate].
  - split; [intros H; inversion H | intros (k & l' & _ & H & _); destruct k; discriminate].
  - cbn [snd]. destruct (f l) eqn:Hf; cbn [map fst].
    + rewrite elem_of_cons, IH. split.
      * intros [-> | (k & l' & H1 & H2 & H3)].
        -- exists 0%nat, l. auto.
        -- exists (S k), l'. auto.
      * intros ([|k] & l' & H1 & H2 & H3); cbn in H1, H2.
        -- left. congruence.
        -- right. exists k, l'. auto.
    + rewrite IH. split.
      * intros (k & l' & H1 & H2 & H3). exists (S k), l'. auto.
      * intros ([|k] & l' & H1 & H2 & H3); cbn in H1, H2.
        -- congruence.
        -- exists k, l'. auto.
Qed.

Lemma selected_length {A} (f : Z -> bool) (a : list A) (labels : list Z) :
  length labels = length a ->
  length (map fst (List.filter snd (zip a (map f labels)))) = length (List.filter f labels).
Proof.
  revert labels. induction a as [|y a IH]; intros [|l labels] Hl; try discriminate; [reflexivity|].
  cbn [map zip zip_with List.filter snd]. destruct (f l); cbn [map length]; rewrite IH; auto.
Qed.

Lemma selected_sublist {A} (a : list A) (m : list bool) :
  map fst (List.filter snd (zip a m)) `sublist_of` a.
Proof.
  revert m. induction a as [|y a IH]; intros [|b m]; cbn [map zip zip_with List.filter].
  - constructor.
  - constructor.
  - apply sublist_nil_l.
  - cbn [snd]. destruct b; cbn [map fst]; [apply sublist_skip | apply sublist_cons]; apply IH.
Qed.

Lemma three_way_count (labels : list Z) :
  (length (List.filter (fun l => Z.eqb l 1) labels)
   + length (List.filter (fun l => Z.eqb l 0) labels)
   + length (List.filter (fun l => negb (Z.eqb l 1) && negb (Z.eqb l 0)) labels))%nat
  = length labels.
Proof.
  induction labels as [|l labels IH]; [reflexivity|]. cbn [List.filter].
  destruct (Z.eqb_spec l 1), (Z.eqb_spec l 0); cbn [negb andb length]; lia.
Qed.

Lemma show_points_mismatch (coords : list (Q * Q)) (labels : list Z) (s : Q) :
  length labels <> length coords ->
  show_points coords labels s = ([], inl (Raised IndexError)).
Proof.
  intros Hl. unfold show_points, bool_index. rewrite !length_map.
  destruct (Nat.eqb_spec (length coords) (length labels)) as [E | _]; [congruence|].
  reflexivity.
Qed.

(** What one pass of the loop contributes to a count does not depend on
    the pass. *)
Lemma count_frames (p : draw -> bool) (c : nat) (f : nat -> mask * Q -> list draw)
    (pairs : list (mask * Q)) :
  (forall i x, count p (f i x) = c) ->
  count p (concat (imap f pairs)) = (c * length pairs)%nat.
Proof.
  revert f. induction pairs as [|x pairs IH]; intros f Hf; [cbn; lia|].
  rewrite imap_cons. cbn [concat length]. rewrite count_app, Hf, IH; [lia|].
  intros i y. apply Hf.
Qed.

Lemma frame_count p c cv img n box_coords borders i x :
  (forall a, p (Ax_imshow a) = false) ->
  count p ([Plt_figure; Plt_imshow img]
           ++ match box_coords with Some box => (show_box box).1 | None => [] end
           ++ (if (1 <? n)%nat then [Plt_title (title i x.2)] else [])
           ++ [Plt_axis_off; Plt_show]) = c ->
  count p (frame cv img n box_coords borders i x) = c.
Proof.
  intros Hp <-. unfold frame. rewrite !count_app, (count_overlay p) by exact Hp. lia.
Qed.

Lemma show_masks_from_frames cv img n box_coords input_labels borders i pairs :
  no_pixel img = false -> (borders = true -> contours_drawn cv) ->
  Forall (fun x : mask * Q => no_pixel x.1 = false) pairs ->
  show_masks_from cv img n None box_coords input_labels borders i pairs
  = (concat (imap (fun k => frame cv img n box_coords borders (i + k)) pairs), inr tt).
Proof.
  intros Himg Hcv Hpairs. revert i.
  induction pairs as [|[mask0 score] rest IH]; intros i; [reflexivity|].
  apply Forall_cons in Hpairs. destruct Hpairs as [Hm Hrest]. cbn [fst] in Hm.
  cbn [show_masks_from]. rewrite (IH Hrest), imap_cons. cbn [concat].
  assert (E : imap ((fun k => frame cv img n box_coords borders (i + k)) ∘ S) rest
              = imap (fun k => frame cv img n box_coords borders (S i + k)) rest).
  { apply imap_ext. intros k x _. unfold compose.
    replace (i + S k)%nat with (S i + k)%nat by lia. reflexivity. }
  rewrite E. clear E.
  rewrite Nat.add_0_r.
  set (R := concat (imap _ rest)).
  destruct (show_mask_trace cv mask0 false borders Hcv Hm) as [a Ha].
  unfold frame, plt_imshow. cbn [fst snd]. rewrite Ha, Himg.
  destruct box_coords as [box|].
  - destruct (show_box_trace box) as (x & y & w & h & Hb). rewrite Hb.
    destruct (1 <? n)%nat; reflexivity.
  - destruct (1 <? n)%nat; reflexivity.
Qed.

Lemma Forall_zip_fst {A B} (P : A -> Prop) (l : list A) (k : list B) :
  Forall P l -> Forall (fun x : A * B => P x.1) (zip l k).
Proof.
  intros H. revert k. induction H as [|a l Ha _ IH]; intros [|b k]; cbn [zip zip_with];
    constructor; [exact Ha | apply IH].
Qed.

End PlotFacts.

Section OverlayFacts.

Lemma at2_map2 {A B} (f : A -> B) (a : list (list A)) i j :
  at2 (map (map f) a) i j = f <$> at2 a i j.
Proof.
  unfold at2. rewrite list_lookup_fmap. destruct (a !! i) as [row|]; [|reflexivity].
  cbn. apply list_lookup_fmap.
Qed.

Lemma is_shape_map2 {A B} (f : A -> B) (a : list (list A)) h w :
  is_shape h w a = true -> is_shape h w (map (map f) a) = true.
Proof.
  rewrite !is_shape_spec. intros [Hl Hr]. split; [rewrite length_map; exact Hl|].
  intros i row Hrow. rewrite list_lookup_fmap in Hrow.
  destruct (a !! i) as [r|] eqn:Er; [|discriminate]. injection Hrow as <-.
  rewrite length_map. eapply Hr. exact Er.
Qed.

Lemma Qtrunc_unit (n : Z) (v : Q) :
  (0 <= n)%Z -> (inject_Z n <= v)%Q -> (v < inject_Z (n + 1))%Q -> Qtrunc v = n.
Proof.
  intros Hn H1 H2. unfold Qtrunc.
  assert (H0 : (0 <= v)%Q).
  { eapply Qle_trans; [|exact H1]. change 0%Q with (inject_Z 0). rewrite <- Zle_Qle. exact Hn. }
  apply Qle_bool_iff in H0. rewrite H0.
  pose proof (Qfloor_le v) as Hf. pose proof (Qlt_floor v) as Hc.
  assert (L1 : (Qfloor v < n + 1)%Z).
  { rewrite Zlt_Qlt. eapply Qle_lt_trans; [exact Hf | exact H2]. }
  assert (L2 : (n < Qfloor v + 1)%Z).
  { rewrite Zlt_Qlt. eapply Qle_lt_trans; [exact H1 | exact Hc]. }
  lia.
Qed.

Lemma overlay_background :
  map (fun c => binary64 (inject_Z 0 * c)) default_color = [0; 0; 0; 0]%Q.
Proof. vm_compute. reflexivity. Qed.

Lemma overlay_foreground :
  map (fun c => binary64 (inject_Z 1 * c)) default_color = default_color.
Proof. vm_compute. reflexivity. Qed.

End OverlayFacts.

(** X16: [show_points] splits the points by label.  For as many labels as
    points it draws two scatters, green then red: the green one holds
    exactly the points labelled 1, the red one exactly those labelled 0,
    each in the order of [coords]; a point with any other label is in
    neither, so the two scatters together hold as many points as there are
    labels 0 or 1.  For a different number of labels the boolean index
    raises IndexError before anything is drawn. *)
Theorem show_points_partition (coords : list (Q * Q)) (labels : list Z) (s : Q) :
  (length labels = length coords ->
   exists pos neg,
     show_points coords labels s
     = ([Ax_scatter (map fst pos) (map snd pos) "green" s;
         Ax_scatter (map fst neg) (map snd neg) "red" s], inr tt) /\
     (forall p, p ∈ pos <-> exists k, coords !! k = Some p /\ labels !! k = Some 1%Z) /\
     (forall p, p ∈ neg <-> exists k, coords !! k = Some p /\ labels !! k = Some 0%Z) /\
     pos `sublist_of` coords /\ neg `sublist_of` coords /\
     (length pos + length neg
      + length (List.filter (fun l => negb (Z.eqb l 1) && negb (Z.eqb l 0)) labels))%nat
     = length coords) /\
  (length labels <> length coords ->
   show_points coords labels s = ([], inl (Raised IndexError))).
Proof.
  split.
  - intros Hl.
    exists (map fst (List.filter snd (zip coords (map (fun l => Z.eqb l 1) labels)))),
           (map fst (List.filter snd (zip coords (map (fun l => Z.eqb l 0) labels)))).
    split; [|split; [|split; [|split; [|split]]]].
    + unfold show_points, bool_index. rewrite !length_map, <- Hl, Nat.eqb_refl.
      rewrite !bind_ret, bind_emit. reflexivity.
    + intros p. rewrite selected_elem. split.
      * intros (k & l & H1 & H2 & H3). apply Z.eqb_eq in H3. subst l. eauto.
      * intros (k & H1 & H2). exists k, 1%Z. auto.
    + intros p. rewrite selected_elem. split.
      * intros (k & l & H1 & H2 & H3). apply Z.eqb_eq in H3. subst l. eauto.
      * intros (k & H1 & H2). exists k, 0%Z. auto.
    + apply selected_sublist.
    + apply selected_sublist.
    + rewrite !selected_length by exact Hl. rewrite three_way_count. exact Hl.
  - apply show_points_mismatch.
Qed.

Lemma show_points_partition_witness :
  exists pos neg,
    show_points [(1, 2); (3, 4); (5, 6)]%Q [1; 0; 2]%Z 375
    = ([Ax_scatter (map fst pos) (map snd pos) "green" 375;
        Ax_scatter (map fst neg) (map snd neg) "red" 375], inr tt) /\
    (length pos + length neg)%nat = 2%nat.
Proof.
  destruct (proj1 (show_points_partition [(1, 2); (3, 4); (5, 6)]%Q [1; 0; 2]%Z 375) eq_refl)
    as (pos & neg & H & _ & _ & _ & _ & Hn).
  exists pos, neg. split; [exact H|]. cbn in Hn. lia.
Defined.

(** X17: the rectangle [show_box] draws for a Pixel Box.  For every Pixel
    Box of a normalized Detection on an image below 2^23 pixels a side,
    the rectangle is anchored at (x1, y1), its width and height are not
    negative, its far corner is (x2, y2), and width times height is the
    area the Region Filter compares. *)
Theorem show_box_of_pixel_box (W H : Z) (boxes : list box) (p : bbox) :
  (0 < W < 2 ^ 23)%Z -> (0 < H < 2 ^ 23)%Z -> Forall normalized boxes ->
  p ∈ box_normalizer W H boxes ->
  exists x y w h,
    show_box p = ([Ax_add_patch_Rectangle x y w h], inr tt) /\
    (0 <= w)%Z /\ (0 <= h)%Z /\
    p = (x, y, x + w, y + h)%Z /\
    box_area p = (w * h)%Z.
Proof.
  intros HW HH Hn Hp.
  pose proof (box_normalizer_exact_sides W H boxes HW HH Hn) as Hex.
  rewrite Forall_forall in Hex. specialize (Hex p Hp).
  unfold box_normalizer in Hp. rewrite box_normalizer_with_map in Hp.
  apply list_elem_of_fmap in Hp. destruct Hp as ([[[cx cy] bw] bh] & Ep & Hb).
  rewrite Forall_forall in Hn. specialize (Hn _ Hb). destruct Hn as (_ & _ & Hbw & Hbh).
  destruct p as [[[x1 y1] x2] y2]. destruct Hex as [Hx Hy].
  destruct (pixel_box_rounded_ordered W H cx cy bw bh x1 y1 x2 y2) as [Ox Oy];
    [lia | lia | apply Hbw | apply Hbh | symmetry; exact Ep |].
  exists x1, y1, (x2 - x1)%Z, (y2 - y1)%Z.
  split; [|split; [lia | split; [lia | split]]].
  - unfold show_box. rewrite !wrap64_small by lia. reflexivity.
  - f_equal; [f_equal|]; lia.
  - apply box_area_exact; assumption.
Qed.

Lemma show_box_of_pixel_box_witness :
  exists x y w h,
    show_box (-50, 400, 250, 600)%Z = ([Ax_add_patch_Rectangle x y w h], inr tt) /\
    (0 <= w)%Z /\ (0 <= h)%Z.
Proof.
  destruct (show_box_of_pixel_box 1000 1000 [tensor_row (1 # 10) (1 # 2) (3 # 10) (1 # 5)]
              (-50, 400, 250, 600)%Z ltac:(lia) ltac:(lia)) as (x & y & w & h & E & Hw & Hh & _).
  - repeat constructor; vm_compute; discriminate.
  - assert (E : box_normalizer 1000 1000 [tensor_row (1 # 10) (1 # 2) (3 # 10) (1 # 5)]
                = [(-50, 400, 250, 600)%Z]) by (vm_compute; reflexivity).
    rewrite E. apply list_elem_of_singleton. reflexivity.
  - exists x, y, w, h. auto.
Defined.

(** X18: the overlay of [show_mask] without borders, in the default
    colour.  For a mask of h x w entries in [0, 256), with at least one
    row and one column, the helper draws one overlay of h x w pixels and
    does not raise.  The conversion to uint8 truncates: an entry below 1
    gives the transparent black pixel (0, 0, 0, 0), an entry in [1, 2) the
    colour (30/255, 144/255, 1, 0.6) unchanged; so on a 0/1 mask the
    colour lies exactly on the foreground, and values strictly between 0
    and 1 are dropped.  A mask without row or without column is not
    drawn: [imshow] raises ValueError. *)
Theorem show_mask_overlay (cv : helpers) (mask0 : mask) (h w : nat) :
  is_shape h w mask0 = true ->
  ((0 < h)%nat -> (0 < w)%nat ->
   exists a,
     show_mask cv mask0 false false = ([Ax_imshow a], inr tt) /\
     is_shape h w a = true /\
     forall i j v, at2 mask0 i j = Some v ->
       ((0 <= v)%Q -> (v < 1)%Q -> at2 a i j = Some [0; 0; 0; 0]%Q) /\
       ((1 <= v)%Q -> (v < 2)%Q -> at2 a i j = Some default_color)) /\
  (h = 0%nat \/ w = 0%nat ->
   show_mask cv mask0 false false = ([], inl (Raised ValueError))).
Proof.
  intros Hs. split.
  - intros Hh Hw.
    assert (Hm : no_pixel mask0 = false).
    { destruct h as [|h]; [lia|]. destruct w as [|w]; [lia|].
      exact (shaped_has_pixel h w mask0 Hs). }
    eexists. split; [|split].
    + unfold show_mask. rewrite bind_ret. unfold ax_imshow.
      rewrite !no_pixel_map2, Hm. reflexivity.
    + apply is_shape_map2, is_shape_map2. exact Hs.
    + intros i j v Hv. rewrite !at2_map2, Hv. cbn [fmap option_fmap option_map].
      unfold astype_uint8. split; intros H1 H2.
      * rewrite (Qtrunc_unit 0 v) by (try lia; assumption).
        change (0 mod 256)%Z with 0%Z. rewrite overlay_background. reflexivity.
      * rewrite (Qtrunc_unit 1 v) by (try lia; assumption).
        change (1 mod 256)%Z with 1%Z. rewrite overlay_foreground. reflexivity.
  - intros Hz. unfold show_mask. rewrite bind_ret. unfold ax_imshow.
    rewrite !no_pixel_map2, (unshaped_no_pixel h w mask0 Hs Hz). reflexivity.
Qed.

Lemma show_mask_overlay_witness :
  exists a,
    show_mask {| draw_contours := fun _ x => Some x; random3 := (0, 0, 0)%Q |}
      [[0; 1]; [1 # 2; 1]]%Q false false = ([Ax_imshow a], inr tt) /\
    at2 a 1 0 = Some [0; 0; 0; 0]%Q /\ at2 a 1 1 = Some default_color.
Proof.
  destruct (proj1 (show_mask_overlay {| draw_contours := fun _ x => Some x;
                                        random3 := (0, 0, 0)%Q |}
                     [[0; 1]; [1 # 2; 1]]%Q 2 2 eq_refl) ltac:(lia) ltac:(lia))
    as (a & E & _ & Ha).
  exists a. split; [exact E|]. split.
  - apply (proj1 (Ha 1%nat 0%nat (1 # 2)%Q eq_refl)); [discriminate | reflexivity].
  - apply (proj2 (Ha 1%nat 1%nat 1%Q eq_refl)); [discriminate | reflexivity].
Defined.

(** X19: what [show_masks] draws when it has no points to show, for an
    image and masks that each have a pixel (and, with borders, when cv2
    draws the contours into the overlay it is given).  It does not raise,
    and draws one figure per pair of [zip(masks, scores)], that is
    min(len(masks), len(scores)) figures, each one shown: the image, the
    overlay of the mask, the rectangle when a box is given, and a title
    numbered from 1 exactly when [scores] holds more than one score
    (whatever the number of masks). *)
Theorem show_masks_frames (cv : helpers) (img : image) (masks : list mask) (scores : list Q)
    (box_coords : option bbox) (input_labels : option (list Z)) (borders : bool) :
  no_pixel img = false ->
  (borders = true -> contours_drawn cv) ->
  Forall (fun m : mask => no_pixel m = false) masks ->
  let n := Nat.min (length masks) (length scores) in
  let t := concat (imap (frame cv img (length scores) box_coords borders) (zip masks scores)) in
  show_masks cv img masks scores None box_coords input_labels borders = (t, inr tt) /\
  count is_figure t = n /\ count is_show t = n /\
  count is_title t = (if (1 <? length scores)%nat then n else 0%nat) /\
  count is_rectangle t = match box_coords with Some _ => n | None => 0%nat end.
Proof.
  intros Himg Hcv Hmasks n t.
  assert (Hn : length (zip masks scores) = n) by apply length_zip_with.
  split.
  { apply show_masks_from_frames; [exact Himg | exact Hcv |].
    apply (Forall_zip_fst (fun m : mask => no_pixel m = false)). exact Hmasks. }
  unfold t.
  split; [|split; [|split]].
  - rewrite (count_frames is_figure 1); [lia|].
    intros i x. apply frame_count; [reflexivity|]. unfold show_box, emit.
    destruct box_coords as [[[[? ?] ?] ?]|]; destruct (1 <? length scores)%nat; reflexivity.
  - rewrite (count_frames is_show 1); [lia|].
    intros i x. apply frame_count; [reflexivity|]. unfold show_box, emit.
    destruct box_coords as [[[[? ?] ?] ?]|]; destruct (1 <? length scores)%nat; reflexivity.
  - destruct (1 <? length scores)%nat eqn:E.
    + rewrite (count_frames is_title 1); [lia|].
      intros i x. apply frame_count; [reflexivity|]. unfold show_box, emit. rewrite E.
      destruct box_coords as [[[[? ?] ?] ?]|]; reflexivity.
    + rewrite (count_frames is_title 0); [lia|].
      intros i x. apply frame_count; [reflexivity|]. unfold show_box, emit. rewrite E.
      destruct box_coords as [[[[? ?] ?] ?]|]; reflexivity.
  - destruct box_coords as [[[[? ?] ?] ?]|].
    + rewrite (count_frames is_rectangle 1); [lia|].
      intros i x. apply frame_count; [reflexivity|]. unfold show_box, emit.
      destruct (1 <? length scores)%nat; reflexivity.
    + rewrite (count_frames is_rectangle 0); [lia|].
      intros i x. apply frame_count; [reflexivity|]. unfold show_box, emit.
      destruct (1 <? length scores)%nat; reflexivity.
Qed.

Lemma show_masks_frames_witness :
  exists t,
    show_masks {| draw_contours := fun _ x => Some x; random3 := (0, 0, 0)%Q |}
      (uniform_image 2 2 [10; 20; 30]%Z)
      [[[0; 1]; [1 # 2; 1]]%Q; full_mask 2 2; full_mask 2 2] [9 # 10; 8 # 10]%Q
      None (Some (0, 0, 1, 1)%Z) None true
    = (t, inr tt) /\
    count is_figure t = 2%nat /\ count is_title t = 2%nat /\ count is_rectangle t = 2%nat.
Proof.
  pose proof (show_masks_frames {| draw_contours := fun _ x => Some x; random3 := (0, 0, 0)%Q |}
                (uniform_image 2 2 [10; 20; 30]%Z)
                [[[0; 1]; [1 # 2; 1]]%Q; full_mask 2 2; full_mask 2 2] [9 # 10; 8 # 10]%Q
                (Some (0, 0, 1, 1)%Z) None true eq_refl
                (fun _ bm mi => ex_intro _ mi (conj eq_refl eq_refl))
                ltac:(repeat constructor)) as H.
  cbv zeta in H. destruct H as (H1 & H2 & _ & H3 & H4).
  eexists. split; [exact H1|]. split; [exact H2|]. split; [exact H3 | exact H4].
Defined.

(** X20: points that cannot be shown stop [show_masks] in its first pass.
    For an image and masks that each have a pixel: with point coordinates
    but no labels the [assert] fails, and with a number of labels other
    than the number of points the boolean index raises IndexError; in both
    cases the first figure has been opened and holds the image and the
    overlay of the first mask, and it is never shown.  With no mask or no
    score there is no pass, and the call returns without drawing and
    without looking at the labels. *)
Theorem show_masks_stops_at_points (cv : helpers) (img : image) (masks : list mask)
    (scores : list Q) (coords : list (Q * Q)) (box_coords : option bbox)
    (input_labels : option (list Z)) (borders : bool) :
  no_pixel img = false ->
  (borders = true -> contours_drawn cv) ->
  Forall (fun m : mask => no_pixel m = false) masks ->
  (forall labels, input_labels = Some labels -> length labels <> length coords) ->
  match zip masks scores with
  | [] =>
      show_masks cv img masks scores (Some coords) box_coords input_labels borders
      = ([], inr tt)
  | (mask0, _) :: _ =>
      exists overlay,
        show_mask cv mask0 false borders = ([Ax_imshow overlay], inr tt) /\
        show_masks cv img masks scores (Some coords) box_coords input_labels borders
        = ([Plt_figure; Plt_imshow img; Ax_imshow overlay],
           inl (match input_labels with
                | None => AssertionError
                | Some _ => Raised IndexError
                end))
  end.
Proof.
  intros Himg Hcv Hmasks Hbad. unfold show_masks.
  pose proof (Forall_zip_fst (fun m : mask => no_pixel m = false) masks scores Hmasks) as Hz.
  destruct (zip masks scores) as [|[mask0 score] rest]; [reflexivity|].
  apply Forall_cons in Hz. destruct Hz as [Hm _]. cbn [fst] in Hm.
  destruct (show_mask_trace cv mask0 false borders Hcv Hm) as [a Ha].
  exists a. split; [exact Ha|].
  cbn [show_masks_from]. unfold plt_imshow. rewrite Ha, Himg.
  rewrite !bind_emit, bind_trace. cbn [fst snd].
  destruct input_labels as [labels|].
  - rewrite (show_points_mismatch coords labels 375 (Hbad labels eq_refl)).
    rewrite bind_failed. reflexivity.
  - rewrite bind_raise. reflexivity.
Qed.

Lemma show_masks_stops_at_points_witness :
  exists overlay,
    show_masks {| draw_contours := fun _ x => Some x; random3 := (0, 0, 0)%Q |}
      (uniform_image 2 2 [10; 20; 30]%Z)
      [[[0; 1]; [1 # 2; 1]]%Q] [9 # 10]%Q (Some [(1, 2)%Q]) None None true
    = ([Plt_figure; Plt_imshow (uniform_image 2 2 [10; 20; 30]%Z); Ax_imshow overlay],
       inl AssertionError).
Proof.
  destruct (show_masks_stops_at_points
              {| draw_contours := fun _ x => Some x; random3 := (0, 0, 0)%Q |}
              (uniform_image 2 2 [10; 20; 30]%Z)
              [[[0; 1]; [1 # 2; 1]]%Q] [9 # 10]%Q [(1, 2)%Q] None None true
              eq_refl
              (fun _ bm mi => ex_intro _ mi (conj eq_refl eq_refl))
              ltac:(repeat constructor)
              ltac:(discriminate)) as (overlay & _ & E).
  exists overlay. exact E.
Defined.
